(** * legend.py: a legend overlay for a ChIPS plot

    A shallow embedding of [src/legend.py] (class [Legend]) together with
    a model of the part of the ChIPS scripting interface the class calls.
    Python values are represented as follows:
    - [str] and [bytes] as [string] (code points / bytes below 256);
    - [int] as [Z] (or [nat] for indices and lengths);
    - decimal literals such as [0.25] as the exact rational they denote;
    - exceptions as the error type [exn], carried by the monad [M];
    - the instance [self] as the record [Legend.instance], passed to and
      returned by the methods that assign its attributes. *)

From Stdlib Require Import List String Ascii Bool Arith ZArith QArith Lia.
From Stdlib Require Import Qminmax DecimalString DecimalNat.
Import ListNotations.

Local Close Scope Q_scope.
Local Open Scope nat_scope.
Local Open Scope string_scope.
Local Open Scope list_scope.

(** ** Python built-ins used by the module *)

Module Py.

(** Exceptions that can leave the module.  [ChipsError] stands for
    whatever error the host toolkit raises from one of its calls. *)
Inductive exn : Type :=
| RuntimeError (msg : string)
| NotImplementedError (msg : string)
| IndexError (msg : string)
| UnicodeDecodeError (msg : string)
| ChipsError (msg : string).

Definition newline : ascii := "010"%char.
Definition lbracket : ascii := "["%char.
Definition rbracket : ascii := "]"%char.

(** [s.split(sep)] for a separator of one character, the only kind the
    module uses: the pieces between the occurrences of [sep], always at
    least one piece. *)
Fixpoint split (sep : ascii) (s : string) : list string :=
  match s with
  | EmptyString => [EmptyString]
  | String c r =>
      if Ascii.eqb c sep then EmptyString :: split sep r
      else match split sep r with
           | [] => [String c EmptyString]
           | p :: ps => String c p :: ps
           end
  end.

(** [str.isspace] on one character with code point below 256. *)
Definition isspace (c : ascii) : bool :=
  let n := nat_of_ascii c in
  (Nat.leb 9 n && Nat.leb n 13) || (Nat.leb 28 n && Nat.leb n 32)
  || Nat.eqb n 133 || Nat.eqb n 160.

Fixpoint lstrip (s : string) : string :=
  match s with
  | EmptyString => EmptyString
  | String c r => if isspace c then lstrip r else s
  end.

Fixpoint rstrip (s : string) : string :=
  match s with
  | EmptyString => EmptyString
  | String c r =>
      match rstrip r with
      | EmptyString => if isspace c then EmptyString else String c EmptyString
      | r' => String c r'
      end
  end.

(** [s.strip()] *)
Definition strip (s : string) : string := rstrip (lstrip s).

(** [s.startswith(name)] *)
Definition startswith (s name : string) : bool := String.prefix name s.

(** [str(n)] for a non-negative integer. *)
Definition str (n : nat) : string := NilEmpty.string_of_uint (Nat.to_uint n).

(** [bytes.lower]: only the ASCII letters [A]..[Z] change. *)
Definition lower_byte (c : ascii) : ascii :=
  let n := nat_of_ascii c in
  if Nat.leb 65 n && Nat.leb n 90 then ascii_of_nat (n + 32) else c.

Fixpoint lower (s : string) : string :=
  match s with
  | EmptyString => EmptyString
  | String c r => String (lower_byte c) (lower r)
  end.

Definition is_ascii_byte (c : ascii) : bool := Nat.ltb (nat_of_ascii c) 128.

Fixpoint all_ascii (s : string) : bool :=
  match s with
  | EmptyString => true
  | String c r => is_ascii_byte c && all_ascii r
  end.

(** [b.decode("ascii")]: the same characters, or an error when a byte
    is 128 or more. *)
Definition decode_ascii (b : string) : exn + string :=
  if all_ascii b then inr b
  else inl (UnicodeDecodeError "'ascii' codec can't decode byte: ordinal not in range(128)").

(** ["No {} objects to operate on".format(name)] *)
Definition no_objects_msg (name : string) : string :=
  "No " ++ name ++ " objects to operate on".

End Py.
Export Py.

(** ** The host toolkit

    The module drives ChIPS, a plotting application that is not part of
    the repository.  What follows is a model of the calls the module
    makes: windows contain frames, frames contain plots, plots contain
    axes, curves, points, labels and regions; every level remembers which
    of its members is current; objects are named by identifiers that are
    unique within their parent; the two introspection calls return a text
    report with one line [<Type> [<identifier>]] per object. *)

(** Modelled from the spec: the calls of the host's scripting interface
    (object creation, style setting, focus setting, the undo block, the
    key-press poll and the two text reports), which [legend.py] imports
    from [pychips] and the repository does not define. *)
Module Chips.

(** Values of attributes. *)
Inductive pyval : Type :=
| PyNone
| PyBool (b : bool)
| PyNum (q : Q)
| PyStr (s : string).

(** An attribute object whose fields the module only sets and hands
    over ([ChipsFrame], [ChipsPlot], [ChipsAxis], [ChipsRegion]): the
    fields that were assigned, in order. *)
Definition settings : Type := list (string * pyval).

(** The symbol attributes shared by curves and points. *)
Inductive prop : Type := angle | color | fill | size | style.

Record ChipsLine : Type := mkLine {
  line_color : pyval; line_style : pyval; line_thickness : pyval }.

Record ChipsSymbol : Type := mkSymbol {
  sym_angle : pyval; sym_color : pyval; sym_fill : pyval;
  sym_size : pyval; sym_style : pyval }.

Record ChipsCurve : Type := mkCurve {
  line : ChipsLine; symbol : ChipsSymbol; other : settings }.

Record ChipsPoint : Type := mkPoint {
  pnt_angle : pyval; pnt_color : pyval; pnt_fill : pyval;
  pnt_size : pyval; pnt_style : pyval }.

(** [ChipsPoint()] *)
Definition new_ChipsPoint : ChipsPoint :=
  mkPoint PyNone PyNone PyNone PyNone PyNone.

(** [getattr(curve_properties, prop)] on a symbol object. *)
Definition getattr (s : ChipsSymbol) (p : prop) : pyval :=
  match p with
  | angle => sym_angle s
  | color => sym_color s
  | fill => sym_fill s
  | size => sym_size s
  | style => sym_style s
  end.

(** [setattr(pnt, prop, v)] on a point object. *)
Definition setattr (pnt : ChipsPoint) (p : prop) (v : pyval) : ChipsPoint :=
  match p with
  | angle => mkPoint v (pnt_color pnt) (pnt_fill pnt) (pnt_size pnt) (pnt_style pnt)
  | color => mkPoint (pnt_angle pnt) v (pnt_fill pnt) (pnt_size pnt) (pnt_style pnt)
  | fill => mkPoint (pnt_angle pnt) (pnt_color pnt) v (pnt_size pnt) (pnt_style pnt)
  | size => mkPoint (pnt_angle pnt) (pnt_color pnt) (pnt_fill pnt) v (pnt_style pnt)
  | style => mkPoint (pnt_angle pnt) (pnt_color pnt) (pnt_fill pnt) (pnt_size pnt) v
  end.

Definition set_symbol_style (v : pyval) (c : ChipsCurve) : ChipsCurve :=
  let s := symbol c in
  mkCurve (line c)
          (mkSymbol (sym_angle s) (sym_color s) (sym_fill s) (sym_size s) v)
          (other c).

Definition set_symbol_color (v : pyval) (c : ChipsCurve) : ChipsCurve :=
  let s := symbol c in
  mkCurve (line c)
          (mkSymbol (sym_angle s) v (sym_fill s) (sym_size s) (sym_style s))
          (other c).

Definition set_line_style (v : pyval) (c : ChipsCurve) : ChipsCurve :=
  let l := line c in
  mkCurve (mkLine (line_color l) v (line_thickness l)) (symbol c) (other c).

Definition set_line_color (v : pyval) (c : ChipsCurve) : ChipsCurve :=
  let l := line c in
  mkCurve (mkLine v (line_style l) (line_thickness l)) (symbol c) (other c).

(** *** Objects kept by the host *)

Inductive dim : Type := X_AXIS | Y_AXIS.

Record hcurve : Type := mkHCurve {
  crv_x : list Q; crv_y : list Q; crv_attr : ChipsCurve }.

Record hpoint : Type := mkHPoint {
  pnt_x : Q; pnt_y : Q; pnt_attr : ChipsPoint }.

Record hlabel : Type := mkHLabel {
  lbl_x : Q; lbl_y : Q; lbl_text : string; lbl_attr : string }.

Record haxis : Type := mkHAxis {
  ax_dim : dim; ax_pos : Q; ax_min : Q; ax_max : Q;
  ax_attr : settings; ax_visible : bool }.

Record hregion : Type := mkHRegion {
  reg_x : list Q; reg_y : list Q; reg_attr : settings }.

(** Members of one parent in creation order, each under its
    identifier, and the identifier of the current member. *)
Record container (A : Type) : Type := mkC {
  items : list (string * A);
  cur : option string }.
Arguments mkC {A} _ _.
Arguments items {A} _.
Arguments cur {A} _.

Record plot : Type := mkPlot {
  plt_attr : settings;
  plt_axes : container haxis;
  plt_curves : container hcurve;
  plt_points : container hpoint;
  plt_labels : container hlabel;
  plt_regions : container hregion }.

Record frame : Type := mkFrame {
  frm_attr : settings;
  frm_box : Q * Q * Q * Q;
  frm_shift : Z * Z;
  frm_plots : container plot }.

Record window : Type := mkWindow {
  win_frames : container frame }.

(** Everything a call can read or change: the ChIPS objects, the depth
    of open undo blocks, what has been printed, and the host's own rule
    for which pixel displacement of a frame it accepts. *)
Record world : Type := mkWorld {
  windows : container window;
  undo_open : nat;
  stdout : list string;
  move_ok : Z * Z -> bool }.

(** *** Containers *)

Fixpoint assoc {A} (id : string) (l : list (string * A)) : option A :=
  match l with
  | [] => None
  | (k, a) :: r => if String.eqb id k then Some a else assoc id r
  end.

Fixpoint replace {A} (id : string) (a : A) (l : list (string * A))
  : list (string * A) :=
  match l with
  | [] => []
  | (k, b) :: r =>
      if String.eqb id k then (k, a) :: r else (k, b) :: replace id a r
  end.

Definition ids {A} (l : list (string * A)) : list string := map fst l.

Definition empty {A} : container A := mkC [] None.
Definition c_get {A} (id : string) (c : container A) : option A :=
  assoc id (items c).
Definition c_put {A} (id : string) (a : A) (c : container A) : container A :=
  mkC (replace id a (items c)) (cur c).
Definition c_cur_id {A} (c : container A) : option string :=
  match cur c with
  | Some id => match c_get id c with Some _ => Some id | None => None end
  | None => None
  end.
Definition c_cur {A} (c : container A) : option A :=
  match cur c with
  | Some id => c_get id c
  | None => None
  end.
Definition c_put_cur {A} (a : A) (c : container A) : container A :=
  match cur c with
  | Some id => c_put id a c
  | None => c
  end.
Definition c_add {A} (id : string) (a : A) (c : container A) : container A :=
  mkC (items c ++ [(id, a)]) (Some id).
Definition c_select {A} (id : string) (c : container A) : option (container A) :=
  match c_get id c with
  | Some _ => Some (mkC (items c) (Some id))
  | None => None
  end.

(** A new identifier: the stem followed by the first number from 1 on
    that gives a name not in use. *)
Fixpoint fresh_from (stem : string) (used : list string) (k fuel : nat)
  : string :=
  match fuel with
  | 0 => stem ++ str k
  | S fuel' =>
      if existsb (String.eqb (stem ++ str k)) used
      then fresh_from stem used (S k) fuel'
      else stem ++ str k
  end.

Definition fresh_id (stem : string) (used : list string) : string :=
  fresh_from stem used 1 (List.length used).

(** *** Calls as state transformers

    A call reads and changes the [world] and either returns, raises,
    or does not return because the host is still waiting for input. *)

Inductive outcome (A : Type) : Type :=
| Ok (a : A)
| Raise (e : exn)
| Waiting.
Arguments Ok {A} _.
Arguments Raise {A} _.
Arguments Waiting {A}.

Definition M (A : Type) : Type := world -> outcome A * world.

Definition ret {A} (a : A) : M A := fun w => (Ok a, w).

Definition raise {A} (e : exn) : M A := fun w => (Raise e, w).

Definition bind {A B} (m : M A) (f : A -> M B) : M B :=
  fun w =>
    match m w with
    | (Ok a, w') => f a w'
    | (Raise e, w') => (Raise e, w')
    | (Waiting, w') => (Waiting, w')
    end.

Definition lift {A} (r : exn + A) : M A :=
  match r with
  | inl e => raise e
  | inr a => ret a
  end.

(** The focus: the current window, its current frame, and that
    frame's current plot. *)
Definition win_cur_frame (W : window) : option frame := c_cur (win_frames W).

Definition win_cur_plot (W : window) : option plot :=
  match win_cur_frame W with
  | Some F => c_cur (frm_plots F)
  | None => None
  end.

Definition cur_window (w : world) : option window := c_cur (windows w).

Definition cur_frame (w : world) : option frame :=
  match cur_window w with
  | Some W => win_cur_frame W
  | None => None
  end.

Definition cur_plot (w : world) : option plot :=
  match cur_window w with
  | Some W => win_cur_plot W
  | None => None
  end.

Definition with_windows (c : container window) (w : world) : world :=
  mkWorld c (undo_open w) (stdout w) (move_ok w).

Definition with_plots (c : container plot) (F : frame) : frame :=
  mkFrame (frm_attr F) (frm_box F) (frm_shift F) c.

Definition with_shift (s : Z * Z) (F : frame) : frame :=
  mkFrame (frm_attr F) (frm_box F) s (frm_plots F).

Definition with_axes (c : container haxis) (P : plot) : plot :=
  mkPlot (plt_attr P) c (plt_curves P) (plt_points P) (plt_labels P)
         (plt_regions P).
Definition with_curves (c : container hcurve) (P : plot) : plot :=
  mkPlot (plt_attr P) (plt_axes P) c (plt_points P) (plt_labels P)
         (plt_regions P).
Definition with_points (c : container hpoint) (P : plot) : plot :=
  mkPlot (plt_attr P) (plt_axes P) (plt_curves P) c (plt_labels P)
         (plt_regions P).
Definition with_labels (c : container hlabel) (P : plot) : plot :=
  mkPlot (plt_attr P) (plt_axes P) (plt_curves P) (plt_points P) c
         (plt_regions P).
Definition with_regions (c : container hregion) (P : plot) : plot :=
  mkPlot (plt_attr P) (plt_axes P) (plt_curves P) (plt_points P)
         (plt_labels P) c.

(** Putting a changed member back in the place of the current one. *)
Definition frm_put_plot (P : plot) (F : frame) : frame :=
  with_plots (c_put_cur P (frm_plots F)) F.

Definition win_put_frame (F : frame) (W : window) : window :=
  mkWindow (c_put_cur F (win_frames W)).

Definition win_put_plot (P : plot) (W : window) : window :=
  match win_cur_frame W with
  | Some F => win_put_frame (frm_put_plot P F) W
  | None => W
  end.

Definition put_cur_window (W : window) (w : world) : world :=
  with_windows (c_put_cur W (windows w)) w.

Definition put_cur_frame (F : frame) (w : world) : world :=
  match cur_window w with
  | Some W => put_cur_window (win_put_frame F W) w
  | None => w
  end.

Definition put_cur_plot (P : plot) (w : world) : world :=
  match cur_window w with
  | Some W => put_cur_window (win_put_plot P W) w
  | None => w
  end.

(** A call that works on the current window, frame or plot. *)
Definition on_window {A} (f : window -> exn + A * window) : M A :=
  fun w =>
    match cur_window w with
    | None => (Raise (ChipsError "no current window"), w)
    | Some W =>
        match f W with
        | inl e => (Raise e, w)
        | inr (a, W') => (Ok a, put_cur_window W' w)
        end
    end.

Definition on_frame {A} (f : frame -> exn + A * frame) : M A :=
  fun w =>
    match cur_frame w with
    | None => (Raise (ChipsError "no current frame"), w)
    | Some F =>
        match f F with
        | inl e => (Raise e, w)
        | inr (a, F') => (Ok a, put_cur_frame F' w)
        end
    end.

Definition on_plot {A} (f : plot -> exn + A * plot) : M A :=
  fun w =>
    match cur_plot w with
    | None => (Raise (ChipsError "no current plot"), w)
    | Some P =>
        match f P with
        | inl e => (Raise e, w)
        | inr (a, P') => (Ok a, put_cur_plot P' w)
        end
    end.

Declare Scope py_scope.
Delimit Scope py_scope with py.
Notation "x <- m ;; k" := (bind m (fun x => k))
  (at level 61, m at next level, right associativity) : py_scope.
Notation "m ;; k" := (bind m (fun _ => k))
  (at level 61, right associativity) : py_scope.
Notation "m >>= f" := (bind m f) (at level 50, left associativity) : py_scope.
Local Open Scope py_scope.

(** *** The status reports *)

Inductive kind : Type :=
| Window | Frame | Plot | XAxis | YAxis | Curve | Point | Label | Region.

Definition tag (k : kind) : string :=
  match k with
  | Window => "Window"
  | Frame => "Frame"
  | Plot => "Plot"
  | XAxis => "X Axis"
  | YAxis => "Y Axis"
  | Curve => "Curve"
  | Point => "Point"
  | Label => "Label"
  | Region => "Region"
  end.

(** One line of a report: indentation, type and identifier. *)
Definition rline : Type := (nat * kind * string)%type.

Fixpoint spaces (n : nat) : string :=
  match n with
  | 0 => EmptyString
  | S n' => String " "%char (spaces n')
  end.

Definition render (l : rline) : string :=
  let '(n, k, id) := l in spaces n ++ tag k ++ " [" ++ id ++ "]".

Definition axis_kind (a : haxis) : kind :=
  match ax_dim a with
  | X_AXIS => XAxis
  | Y_AXIS => YAxis
  end.

Definition plot_lines (P : plot) : list rline :=
  map (fun ia => (6, axis_kind (snd ia), fst ia)) (items (plt_axes P))
  ++ map (fun ia => (6, Curve, fst ia)) (items (plt_curves P))
  ++ map (fun ia => (6, Point, fst ia)) (items (plt_points P))
  ++ map (fun ia => (6, Label, fst ia)) (items (plt_labels P))
  ++ map (fun ia => (6, Region, fst ia)) (items (plt_regions P)).

Definition frame_lines (F : frame) : list rline :=
  flat_map (fun ip => (4, Plot, fst ip) :: plot_lines (snd ip))
           (items (frm_plots F)).

Definition window_lines (W : window) : list rline :=
  flat_map (fun jf => (2, Frame, fst jf) :: frame_lines (snd jf))
           (items (win_frames W)).

Definition info_lines (w : world) : list rline :=
  flat_map (fun iw => (0, Window, fst iw) :: window_lines (snd iw))
           (items (windows w)).

Definition opt_line (n : nat) (k : kind) (o : option string) : list rline :=
  match o with
  | Some id => [(n, k, id)]
  | None => []
  end.

Definition axis_cur_line (c : container haxis) : list rline :=
  match cur c with
  | Some id =>
      match c_get id c with
      | Some a => [(6, axis_kind a, id)]
      | None => []
      end
  | None => []
  end.

Definition plot_cur_lines (P : plot) : list rline :=
  axis_cur_line (plt_axes P)
  ++ opt_line 6 Curve (c_cur_id (plt_curves P))
  ++ opt_line 6 Point (c_cur_id (plt_points P))
  ++ opt_line 6 Label (c_cur_id (plt_labels P))
  ++ opt_line 6 Region (c_cur_id (plt_regions P)).

Definition frame_cur_lines (F : frame) : list rline :=
  match c_cur_id (frm_plots F), c_cur (frm_plots F) with
  | Some pid, Some P => (4, Plot, pid) :: plot_cur_lines P
  | _, _ => []
  end.

Definition window_cur_lines (W : window) : list rline :=
  match c_cur_id (win_frames W), c_cur (win_frames W) with
  | Some fid, Some F => (2, Frame, fid) :: frame_cur_lines F
  | _, _ => []
  end.

Definition info_current_lines (w : world) : list rline :=
  match c_cur_id (windows w), c_cur (windows w) with
  | Some wid, Some W => (0, Window, wid) :: window_cur_lines W
  | _, _ => []
  end.

(** The text of a report, or [None] when there is nothing to report. *)
Definition report (ls : list rline) : option string :=
  match ls with
  | [] => None
  | _ => Some (String.concat (String newline EmptyString) (map render ls))
  end.

(** [info()] and [info_current()] *)
Definition info : M (option string) :=
  fun w => (Ok (report (info_lines w)), w).

Definition info_current : M (option string) :=
  fun w => (Ok (report (info_current_lines w)), w).

(** *** The calls *)

Definition print (s : string) : M unit :=
  fun w => (Ok tt, mkWorld (windows w) (undo_open w) (stdout w ++ [s]) (move_ok w)).

Definition open_undo_block : M unit :=
  fun w => (Ok tt, mkWorld (windows w) (S (undo_open w)) (stdout w) (move_ok w)).

Definition close_undo_block : M unit :=
  fun w => (Ok tt, mkWorld (windows w) (pred (undo_open w)) (stdout w) (move_ok w)).

Definition set_current_window (id : string) : M unit :=
  fun w =>
    match c_select id (windows w) with
    | Some c => (Ok tt, with_windows c w)
    | None => (Raise (ChipsError "no such window"), w)
    end.

Definition set_current_frame (id : string) : M unit :=
  on_window (fun W =>
    match c_select id (win_frames W) with
    | Some c => inr (tt, mkWindow c)
    | None => inl (ChipsError "no such frame")
    end).

Definition set_current_plot (id : string) : M unit :=
  on_frame (fun F =>
    match c_select id (frm_plots F) with
    | Some c => inr (tt, with_plots c F)
    | None => inl (ChipsError "no such plot")
    end).

(** The stem of a new frame's identifier: the attribute [stem] when
    it is set, the toolkit's own otherwise. *)
Definition frame_stem (attrs : settings) : string :=
  match assoc "stem" attrs with
  | Some (PyStr s) => s
  | _ => "frm"
  end.

(** [add_frame(x1, y1, x2, y2, attrs)] *)
Definition add_frame (x1 y1 x2 y2 : Q) (attrs : settings) : M unit :=
  on_window (fun W =>
    let id := fresh_id (frame_stem attrs) (ids (items (win_frames W))) in
    inr (tt, mkWindow (c_add id (mkFrame attrs (x1, y1, x2, y2) (0%Z, 0%Z) empty)
                             (win_frames W)))).

(** [add_plot(attrs)] *)
Definition add_plot (attrs : settings) : M unit :=
  on_frame (fun F =>
    let id := fresh_id "plot" (ids (items (frm_plots F))) in
    inr (tt, with_plots (c_add id (mkPlot attrs empty empty empty empty empty)
                               (frm_plots F)) F)).

Definition axis_stem (d : dim) : string :=
  match d with
  | X_AXIS => "ax"
  | Y_AXIS => "ay"
  end.

(** [add_axis(dim, pos, min, max, attrs)] *)
Definition add_axis (d : dim) (pos lo hi : Q) (attrs : settings) : M unit :=
  on_plot (fun P =>
    let id := fresh_id (axis_stem d) (ids (items (plt_axes P))) in
    inr (tt, with_axes (c_add id (mkHAxis d pos lo hi attrs true) (plt_axes P)) P)).

(** [hide_axis()]: hides the current axis. *)
Definition hide_axis : M unit :=
  on_plot (fun P =>
    match c_cur (plt_axes P) with
    | Some a =>
        inr (tt, with_axes
                   (c_put_cur (mkHAxis (ax_dim a) (ax_pos a) (ax_min a) (ax_max a)
                                       (ax_attr a) false)
                              (plt_axes P)) P)
    | None => inl (ChipsError "no current axis")
    end).

(** [add_region(xs, ys, attrs)] *)
Definition add_region (xs ys : list Q) (attrs : settings) : M unit :=
  on_plot (fun P =>
    let id := fresh_id "reg" (ids (items (plt_regions P))) in
    inr (tt, with_regions (c_add id (mkHRegion xs ys attrs) (plt_regions P)) P)).

(** [get_curve(id)]: the attributes of a curve of the current plot. *)
Definition get_curve (id : string) : M ChipsCurve :=
  fun w =>
    match cur_plot w with
    | None => (Raise (ChipsError "no current plot"), w)
    | Some P =>
        match c_get id (plt_curves P) with
        | Some c => (Ok (crv_attr c), w)
        | None => (Raise (ChipsError "no such curve"), w)
        end
    end.

(** [add_curve(xs, ys, attrs)] *)
Definition add_curve (xs ys : list Q) (attrs : ChipsCurve) : M unit :=
  on_plot (fun P =>
    let id := fresh_id "crv" (ids (items (plt_curves P))) in
    inr (tt, with_curves (c_add id (mkHCurve xs ys attrs) (plt_curves P)) P)).

(** What [set_curve] is given: an attribute object or an attribute
    string [key=value]. *)
Inductive curve_arg : Type :=
| AttrObject (c : ChipsCurve)
| AttrString (s : string).

(** The attribute strings that are interpreted here. *)
Definition apply_attr_string (s : string) (c : ChipsCurve) : exn + ChipsCurve :=
  match split "="%char s with
  | [k; v] =>
      if String.eqb k "symbol.style" then inr (set_symbol_style (PyStr v) c)
      else if String.eqb k "symbol.color" then inr (set_symbol_color (PyStr v) c)
      else if String.eqb k "line.style" then inr (set_line_style (PyStr v) c)
      else if String.eqb k "line.color" then inr (set_line_color (PyStr v) c)
      else inl (ChipsError "unknown curve attribute")
  | _ => inl (ChipsError "malformed attribute string")
  end.

Definition apply_curve_arg (a : curve_arg) (c : ChipsCurve) : exn + ChipsCurve :=
  match a with
  | AttrObject c' => inr c'
  | AttrString s => apply_attr_string s c
  end.

(** [set_curve(id, arg)], and [set_curve(arg)] on the current curve
    when no identifier is given. *)
Definition set_curve (id : option string) (a : curve_arg) : M unit :=
  on_plot (fun P =>
    match (match id with Some i => Some i | None => cur (plt_curves P) end) with
    | None => inl (ChipsError "no current curve")
    | Some i =>
        match c_get i (plt_curves P) with
        | None => inl (ChipsError "no such curve")
        | Some c =>
            match apply_curve_arg a (crv_attr c) with
            | inl e => inl e
            | inr c' =>
                inr (tt, with_curves
                           (c_put i (mkHCurve (crv_x c) (crv_y c) c') (plt_curves P)) P)
            end
        end
    end).

(** [add_point(x, y, attrs)] *)
Definition add_point (x y : Q) (attrs : ChipsPoint) : M unit :=
  on_plot (fun P =>
    let id := fresh_id "pnt" (ids (items (plt_points P))) in
    inr (tt, with_points (c_add id (mkHPoint x y attrs) (plt_points P)) P)).

(** [set_point(id, attrs)] *)
Definition set_point (id : string) (attrs : ChipsPoint) : M unit :=
  on_plot (fun P =>
    match c_get id (plt_points P) with
    | None => inl (ChipsError "no such point")
    | Some p =>
        inr (tt, with_points
                   (c_put id (mkHPoint (pnt_x p) (pnt_y p) attrs) (plt_points P)) P)
    end).

(** [add_label(x, y, text, attrs)] *)
Definition add_label (x y : Q) (text attrs : string) : M unit :=
  on_plot (fun P =>
    let id := fresh_id "lbl" (ids (items (plt_labels P))) in
    inr (tt, with_labels (c_add id (mkHLabel x y text attrs) (plt_labels P)) P)).

(** [set_label_text(id, text)] *)
Definition set_label_text (id text : string) : M unit :=
  on_plot (fun P =>
    match c_get id (plt_labels P) with
    | None => inl (ChipsError "no such label")
    | Some l =>
        inr (tt, with_labels
                   (c_put id (mkHLabel (lbl_x l) (lbl_y l) text (lbl_attr l))
                          (plt_labels P)) P)
    end).

(** [ChipsId] with the one field the module sets. *)
Inductive coord_system : Type := PIXEL | DATA.

Record ChipsId : Type := mkChipsId { coord_sys : option coord_system }.

Definition new_ChipsId : ChipsId := mkChipsId None.

(** [move_frame(cid, x, y, relative)] in the form the module uses: a
    relative move of the current frame in pixels, which the host
    carries out when it accepts the resulting displacement. *)
Definition move_frame (cid : ChipsId) (x y : Z) (relative : Z) : M unit :=
  fun w =>
    match cur_frame w with
    | None => (Raise (ChipsError "no current frame"), w)
    | Some F =>
        match coord_sys cid, Z.eqb relative 1 with
        | Some PIXEL, true =>
            let s := (fst (frm_shift F) + x, snd (frm_shift F) + y)%Z in
            if move_ok w s
            then (Ok tt, put_cur_frame (with_shift s F) w)
            else (Raise (ChipsError "frame cannot be moved there"), w)
        | _, _ => (Raise (ChipsError "move not supported"), w)
        end
    end.

(** The value [get_pick] returns for a key press: a position, a state
    and, fourth, the key values as byte strings. *)
Record pick : Type := mkPick {
  pick_x : Q; pick_y : Q; pick_state : Z; pick_keys : list string }.

(** [get_pick(1, KEY_PRESS)]: the next key press of those still to
    come; the call does not return while there is none. *)
Definition get_pick (pending : list pick) : M (pick * list pick) :=
  match pending with
  | [] => fun w => (Waiting, w)
  | key :: rest => ret (key, rest)
  end.

End Chips.
Export Chips.

(** ** The class [Legend] *)

Module Legend.

Local Open Scope py_scope.

(** The attributes of an instance.  An attribute holds the empty value
    until the constructor assigns it. *)
Record instance : Type := mkLegend {
  _reverse : bool;
  orig_win : string;
  orig_frm : string;
  orig_plot : string;
  usr_crvs : list string;
  lgnd : list ChipsCurve;
  frm : string;
  lgnd_crvs : list string;
  lgnd_pnts : list string;
  lgnd_lbls : list string }.

Definition new_instance : instance :=
  mkLegend false "" "" "" [] [] "" [] [] [].

Definition set__reverse (v : bool) (s : instance) : instance :=
  mkLegend v (orig_win s) (orig_frm s) (orig_plot s) (usr_crvs s) (lgnd s)
           (frm s) (lgnd_crvs s) (lgnd_pnts s) (lgnd_lbls s).
Definition set_orig_win (v : string) (s : instance) : instance :=
  mkLegend (_reverse s) v (orig_frm s) (orig_plot s) (usr_crvs s) (lgnd s)
           (frm s) (lgnd_crvs s) (lgnd_pnts s) (lgnd_lbls s).
Definition set_orig_frm (v : string) (s : instance) : instance :=
  mkLegend (_reverse s) (orig_win s) v (orig_plot s) (usr_crvs s) (lgnd s)
           (frm s) (lgnd_crvs s) (lgnd_pnts s) (lgnd_lbls s).
Definition set_orig_plot (v : string) (s : instance) : instance :=
  mkLegend (_reverse s) (orig_win s) (orig_frm s) v (usr_crvs s) (lgnd s)
           (frm s) (lgnd_crvs s) (lgnd_pnts s) (lgnd_lbls s).
Definition set_usr_crvs (v : list string) (s : instance) : instance :=
  mkLegend (_reverse s) (orig_win s) (orig_frm s) (orig_plot s) v (lgnd s)
           (frm s) (lgnd_crvs s) (lgnd_pnts s) (lgnd_lbls s).
Definition set_lgnd (v : list ChipsCurve) (s : instance) : instance :=
  mkLegend (_reverse s) (orig_win s) (orig_frm s) (orig_plot s) (usr_crvs s) v
           (frm s) (lgnd_crvs s) (lgnd_pnts s) (lgnd_lbls s).
Definition set_frm (v : string) (s : instance) : instance :=
  mkLegend (_reverse s) (orig_win s) (orig_frm s) (orig_plot s) (usr_crvs s)
           (lgnd s) v (lgnd_crvs s) (lgnd_pnts s) (lgnd_lbls s).
Definition set_lgnd_crvs (v : list string) (s : instance) : instance :=
  mkLegend (_reverse s) (orig_win s) (orig_frm s) (orig_plot s) (usr_crvs s)
           (lgnd s) (frm s) v (lgnd_pnts s) (lgnd_lbls s).
Definition set_lgnd_pnts (v : list string) (s : instance) : instance :=
  mkLegend (_reverse s) (orig_win s) (orig_frm s) (orig_plot s) (usr_crvs s)
           (lgnd s) (frm s) (lgnd_crvs s) v (lgnd_lbls s).
Definition set_lgnd_lbls (v : list string) (s : instance) : instance :=
  mkLegend (_reverse s) (orig_win s) (orig_frm s) (orig_plot s) (usr_crvs s)
           (lgnd s) (frm s) (lgnd_crvs s) (lgnd_pnts s) v.

(** *** Control structures *)

(** [l[i]] *)
Definition item {A} (l : list A) (i : nat) : M A :=
  match nth_error l i with
  | Some a => ret a
  | None => raise (IndexError "list index out of range")
  end.

(** [l[-1]] *)
Definition item_last {A} (l : list A) : M A :=
  match l with
  | [] => raise (IndexError "list index out of range")
  | a :: r => ret (last r a)
  end.

(** [if cond: <raise or print>] *)
Definition when (cond : bool) (m : M unit) : M unit :=
  if cond then m else ret tt.

(** [[f(x) for x in xs]] *)
Fixpoint for_list {A B} (f : A -> M B) (xs : list A) : M (list B) :=
  match xs with
  | [] => ret []
  | x :: r => y <- f x ;; ys <- for_list f r ;; ret (y :: ys)
  end.

(** [for x in xs: body], the body working on the state [s]. *)
Fixpoint for_each {A S} (xs : list A) (body : A -> S -> M S) (s : S) : M S :=
  match xs with
  | [] => ret s
  | x :: r => s' <- body x s ;; for_each r body s'
  end.

(** [enumerate(l)] *)
Definition enumerate {A} (l : list A) : list (nat * A) :=
  combine (seq 0 (List.length l)) l.

(** [zip(a, b, c)] *)
Definition zip3 {A B C} (a : list A) (b : list B) (c : list C)
  : list (A * B * C) :=
  combine (combine a b) c.

(** [try: m except Exception as e: handler(e)] *)
Definition try_except {A} (m : M A) (handler : exn -> M A) : M A :=
  fun w =>
    match m w with
    | (Raise e, w') => handler e w'
    | r => r
    end.

(** [str(e)] for an exception: its message. *)
Definition exn_str (e : exn) : string :=
  match e with
  | RuntimeError m | NotImplementedError m | IndexError m
  | UnicodeDecodeError m | ChipsError m => m
  end.

(** *** The identifier lookups *)

Definition _get_current_object_name (name : string) : M string :=
  ii <- info_current ;;
  match ii with
  | None => raise (RuntimeError (no_objects_msg name))
  | Some ii =>
      let ii := split newline ii in
      let ff := filter (fun x => startswith (strip x) name) ii in
      ff <- item_last ff ;;
      name <- item (split lbracket ff) 1 ;;
      name <- item (split rbracket name) 0 ;;
      ret name
  end.

Definition _get_all_object_name (name : string) : M (list string) :=
  ii <- info ;;
  match ii with
  | None => raise (RuntimeError (no_objects_msg name))
  | Some ii =>
      let ii := split newline ii in
      let ff := filter (fun x => startswith (strip x) name) ii in
      names <- for_list (fun f => a <- item (split lbracket f) 1 ;;
                                  item (split rbracket a) 0) ff ;;
      ret names
  end.

(** *** Construction *)

Definition _get_current_curves (self : instance) : M instance :=
  v <- _get_current_object_name "Window" ;;
  let self := set_orig_win v self in
  v <- _get_current_object_name "Frame" ;;
  let self := set_orig_frm v self in
  v <- _get_current_object_name "Plot" ;;
  let self := set_orig_plot v self in
  v <- _get_all_object_name "Curve" ;;
  let self := set_usr_crvs v self in
  v <- for_list get_curve (usr_crvs self) ;;
  ret (set_lgnd v self).

Definition _make_frame (self : instance) : M instance :=
  let frm := [ ("border.visible", PyBool true);
               ("border.color", PyStr "red");
               ("stem", PyStr "Legend");
               ("transparency", PyBool true);
               ("scale", PyBool false) ] in
  let ncrv := Qmin (inject_Z (Z.of_nat (List.length (lgnd self))) * 0.075) 0.4 in
  add_frame 0.5 (0.9 - ncrv) 0.9 0.9 frm ;;
  v <- _get_current_object_name "Frame" ;;
  ret (set_frm v self).

Definition _make_drawing_area (self : instance) : M unit :=
  let plt := [ ("bottommargin", PyNum 0.01);
               ("topmargin", PyNum 0.01);
               ("leftmargin", PyNum 0.01);
               ("rightmargin", PyNum 0.01);
               ("style", PyStr "open") ] in
  add_plot plt ;;
  let ax := [ ("automax", PyBool false);
              ("automin", PyBool false);
              ("majortick.visible", PyBool false);
              ("minortick.visible", PyBool false);
              ("offset.parallel", PyNum 0);
              ("offset.perpendicular", PyNum 0);
              ("pad", PyNum 0) ] in
  add_axis X_AXIS 0 0 3 ax ;;
  hide_axis ;;
  add_axis Y_AXIS 0 (-1) (inject_Z (Z.of_nat (List.length (lgnd self)))) ax ;;
  hide_axis.

Definition _background (self : instance) : M unit :=
  let bg := [ ("edge.color", PyStr "forest");
              ("fill.color", PyStr "forest");
              ("fill.style", PyStr "solid");
              ("opacity", PyNum 0.5) ] in
  let n := inject_Z (Z.of_nat (List.length (lgnd self))) in
  add_region [0; 3; 3; 0]%Q [-1; -1; n; n]%Q bg.

Definition _get_point_properties (curve_properties : ChipsSymbol) : ChipsPoint :=
  fold_left (fun pnt prop => setattr pnt prop (getattr curve_properties prop))
            [angle; color; fill; size; style] new_ChipsPoint.

(** The vertical slot [yy] of entry [ii] of [n]:
    [if False == self._reverse: yy = len(self.lgnd)-ii-1 else: yy = ii]. *)
Definition slot (reverse : bool) (n ii : nat) : Z :=
  if Bool.eqb false reverse
  then (Z.of_nat n - Z.of_nat ii - 1)%Z
  else Z.of_nat ii.

Definition _draw_entry (iill : nat * ChipsCurve) (self : instance) : M instance :=
  let ii := fst iill in
  let yy := inject_Z (slot (_reverse self) (List.length (lgnd self)) ii) in
  c <- item (lgnd self) ii ;;
  add_curve [0.25; 1]%Q [yy; yy] c ;;
  v <- _get_current_object_name "Curve" ;;
  let self := set_lgnd_crvs (lgnd_crvs self ++ [v]) self in
  set_curve None (AttrString "symbol.style=none") ;;
  c <- item (lgnd self) ii ;;
  let pnt := _get_point_properties (symbol c) in
  add_point 0.625 yy pnt ;;
  v <- _get_current_object_name "Point" ;;
  let self := set_lgnd_pnts (lgnd_pnts self ++ [v]) self in
  add_label 1.25 yy (str ii) "valign=0.5" ;;
  v <- _get_current_object_name "Label" ;;
  ret (set_lgnd_lbls (lgnd_lbls self ++ [v]) self).

Definition _draw (self : instance) : M instance :=
  let self := set_lgnd_crvs [] self in
  let self := set_lgnd_pnts [] self in
  let self := set_lgnd_lbls [] self in
  for_each (enumerate (lgnd self)) _draw_entry self.

(** The text printed when there are seven curves or more. *)
Definition large_warning : string :=
  "Warning: Large number of curves found.  This routine works best when there are fewer than 7 curves".

Definition __init__ (reverse : bool) : M instance :=
  let self := new_instance in
  v <- _get_all_object_name "Window" ;;
  when (negb (Nat.eqb (List.length v) 1))
       (raise (NotImplementedError "Must have one and only one window")) ;;
  v <- _get_all_object_name "Frame" ;;
  when (negb (Nat.eqb (List.length v) 1))
       (raise (NotImplementedError "Must have one and only one frame")) ;;
  v <- _get_all_object_name "Plot" ;;
  when (negb (Nat.eqb (List.length v) 1))
       (raise (NotImplementedError "Must have one and only one plot")) ;;
  v <- _get_all_object_name "Curve" ;;
  when (Nat.eqb (List.length v) 0)
       (raise (NotImplementedError "Must have at least one curve.")) ;;
  v <- _get_all_object_name "Curve" ;;
  when (Nat.leb 7 (List.length v)) (print large_warning) ;;
  open_undo_block ;;
  let self := set__reverse reverse self in
  self <- _get_current_curves self ;;
  self <- _make_frame self ;;
  _make_drawing_area self ;;
  _background self ;;
  self <- _draw self ;;
  set_current_window (orig_win self) ;;
  set_current_frame (orig_frm self) ;;
  set_current_plot (orig_plot self) ;;
  close_undo_block ;;
  ret self.

(** *** Relabelling *)

Definition label (self : instance) (label_vals : list string) : M unit :=
  when (negb (Nat.eqb (List.length label_vals) (List.length (lgnd_lbls self))))
       (raise (RuntimeError "Number of labels does not match the number of curves")) ;;
  open_undo_block ;;
  old_frame <- _get_current_object_name "Frame" ;;
  set_current_frame (frm self) ;;
  for_each (combine (lgnd_lbls self) label_vals)
           (fun p _ => set_label_text (fst p) (snd p)) tt ;;
  set_current_frame old_frame ;;
  close_undo_block.

(** *** Resynchronising the styles *)

Definition _update_entry (self : instance) (e : string * string * string)
  (_ : unit) : M unit :=
  let '(usr, lgn, lpt) := e in
  set_current_window (orig_win self) ;;
  set_current_frame (orig_frm self) ;;
  set_current_plot (orig_plot self) ;;
  cc <- get_curve usr ;;
  set_current_frame (frm self) ;;
  set_curve (Some lgn) (AttrObject cc) ;;
  set_curve (Some lgn) (AttrString "symbol.style=none") ;;
  let pnt := _get_point_properties (symbol cc) in
  set_point lpt pnt.

Definition update (self : instance) : M unit :=
  open_undo_block ;;
  old_frame <- _get_current_object_name "Frame" ;;
  for_each (zip3 (usr_crvs self) (lgnd_crvs self) (lgnd_pnts self))
           (_update_entry self) tt ;;
  set_current_frame old_frame ;;
  close_undo_block.

(** *** Interactive repositioning *)

Definition my_move_frame (x y : Z) : M unit :=
  try_except
    (let cid := new_ChipsId in
     let cid := mkChipsId (Some PIXEL) in
     move_frame cid x y 1)
    (fun e => print (exn_str e)).

(** What an iteration of [while True] ends with. *)
Inductive ctl : Type := Continue | Break.

(** One iteration, from the key press that [get_pick] returned. *)
Definition move_key (key : pick) : M ctl :=
  keyval <- item (pick_keys key) 0 ;;
  k <- lift (decode_ascii (lower keyval)) ;;
  if String.eqb k "w" then my_move_frame 0 5 ;; ret Continue
  else
    k <- lift (decode_ascii (lower keyval)) ;;
    if String.eqb k "s" then my_move_frame 0 (-5) ;; ret Continue
    else
      k <- lift (decode_ascii (lower keyval)) ;;
      if String.eqb k "a" then my_move_frame (-5) 0 ;; ret Continue
      else
        k <- lift (decode_ascii (lower keyval)) ;;
        if String.eqb k "d" then my_move_frame 5 0 ;; ret Continue
        else
          k <- lift (decode_ascii (lower keyval)) ;;
          if String.eqb k "q" then ret Break
          else ret Continue.

(** [while True: key = get_pick(1, KEY_PRESS); ...] over the key
    presses still to come. *)
Fixpoint move_loop (pending : list pick) : M unit :=
  match pending with
  | [] => kr <- get_pick [] ;; ret tt
  | key :: rest =>
      kr <- get_pick (key :: rest) ;;
      c <- move_key (fst kr) ;;
      match c with
      | Break => ret tt
      | Continue => move_loop rest
      end
  end.

Definition move (self : instance) (pending : list pick) : M unit :=
  print "Make sure plot window has focus.  Use the following keys to move the legend:" ;;
  print "  w : Up" ;;
  print "  s : Down" ;;
  print "  a : Left" ;;
  print "  d : Right" ;;
  print "  q : Quit (return to prompt)" ;;
  open_undo_block ;;
  old_frame <- _get_current_object_name "Frame" ;;
  set_current_frame (frm self) ;;
  let cid := mkChipsId (Some PIXEL) in
  move_loop pending ;;
  set_current_frame old_frame ;;
  close_undo_block.

End Legend.

(** ** Vocabulary of the specification *)

Module Spec.

Import Legend.
Local Open Scope py_scope.

(** [c] does not occur in [s]. *)
Fixpoint no_char (c : ascii) (s : string) : bool :=
  match s with
  | EmptyString => true
  | String a r => negb (Ascii.eqb a c) && no_char c r
  end.

(** Identifiers as the host hands them out: one line, no brackets. *)
Definition token (id : string) : bool :=
  no_char newline id && no_char lbracket id && no_char rbracket id.

Definition wf_items {A} (wfA : A -> bool) (l : list (string * A)) : bool :=
  forallb (fun ia => token (fst ia) && wfA (snd ia)) l.

Definition wf_plot (P : plot) : bool :=
  wf_items (fun _ => true) (items (plt_axes P))
  && wf_items (fun _ => true) (items (plt_curves P))
  && wf_items (fun _ => true) (items (plt_points P))
  && wf_items (fun _ => true) (items (plt_labels P))
  && wf_items (fun _ => true) (items (plt_regions P)).

Definition wf_frame (F : frame) : bool := wf_items wf_plot (items (frm_plots F)).

Definition wf_window (W : window) : bool := wf_items wf_frame (items (win_frames W)).

(** Every identifier in the world is a token. *)
Definition wf_world (w : world) : bool := wf_items wf_window (items (windows w)).

Definition kind_eqb (a b : kind) : bool :=
  match a, b with
  | Window, Window | Frame, Frame | Plot, Plot | XAxis, XAxis | YAxis, YAxis
  | Curve, Curve | Point, Point | Label, Label | Region, Region => true
  | _, _ => false
  end.

(** The identifiers of the lines of one type, in report order. *)
Definition names_of (k : kind) (ls : list rline) : list string :=
  map snd (filter (fun l => kind_eqb k (snd (fst l))) ls).

(** A report line that names [id] in brackets: [pre[id]post]. *)
Definition bracketed (l id : string) : Prop :=
  exists pre post,
    l = (pre ++ String lbracket (id ++ String rbracket post))%string
    /\ no_char lbracket pre = true
    /\ no_char lbracket id = true
    /\ no_char rbracket id = true.

(** The lines of a report that start with [name]. *)
Definition matching (name rep : string) : list string :=
  filter (fun x => startswith (strip x) name) (split newline rep).

(** A plot has the focus. *)
Definition has_focus (w : world) : bool :=
  match cur_plot w with
  | Some _ => true
  | None => false
  end.

(** The identifiers of the focused window, frame and plot. *)
Definition focused_window (w : world) : option string := c_cur_id (windows w).

Definition focused_frame (w : world) : option string :=
  match cur_window w with
  | Some W => c_cur_id (win_frames W)
  | None => None
  end.

Definition focused_plot (w : world) : option string :=
  match cur_frame w with
  | Some F => c_cur_id (frm_plots F)
  | None => None
  end.

(** Everything of one type that exists, in report order. *)
Definition all_windows (w : world) : list (string * window) := items (windows w).

Definition all_frames (w : world) : list (string * frame) :=
  flat_map (fun iw => items (win_frames (snd iw))) (all_windows w).

Definition all_plots (w : world) : list (string * plot) :=
  flat_map (fun jf => items (frm_plots (snd jf))) (all_frames w).

Definition all_curves (w : world) : list (string * hcurve) :=
  flat_map (fun ip => items (plt_curves (snd ip))) (all_plots w).

(** Containers with one and with two members. *)
Definition one {A} (id : string) (a : A) : container A := mkC [(id, a)] (Some id).

Definition two {A} (i1 : string) (a1 : A) (i2 : string) (a2 : A) (c : string)
  : container A :=
  mkC [(i1, a1); (i2, a2)] (Some c).

(** A world with one window that holds the frame [fid] and the legend's
    frame [lid], the latter with one plot, and with the focus on the
    legend's plot. *)
Definition legend_world (wid fid : string) (F : frame) (lid : string)
  (FL : frame) (lpid : string) (PL : plot)
  (u : nat) (out : list string) (mv : Z * Z -> bool) : world :=
  mkWorld (one wid (mkWindow (two fid F lid (with_plots (one lpid PL) FL) lid)))
          u out mv.

(** A world with one window, one frame and one plot, all in focus. *)
Definition simple_world (wid fid : string) (F : frame) (pid : string) (P : plot)
  (u : nat) (out : list string) (mv : Z * Z -> bool) : world :=
  mkWorld (one wid (mkWindow (one fid (with_plots (one pid P) F)))) u out mv.

(** The frame the legend is drawn in, as it is created for [n] curves. *)
Definition legend_frame (n : nat) : frame :=
  mkFrame [ ("border.visible", PyBool true);
            ("border.color", PyStr "red");
            ("stem", PyStr "Legend");
            ("transparency", PyBool true);
            ("scale", PyBool false) ]
          (0.5, 0.9 - Qmin (inject_Z (Z.of_nat n) * 0.075) 0.4, 0.9, 0.9)%Q
          (0, 0)%Z empty.

(** The world once the legend's frame exists and has the focus. *)
Definition framed_world (wid fid : string) (F : frame) (lid : string) (FL : frame)
  (u : nat) (out : list string) (mv : Z * Z -> bool) : world :=
  mkWorld (one wid (mkWindow (two fid F lid FL lid))) u out mv.

(** The world once the legend is complete and the focus is back on the
    frame [fid]. *)
Definition final_world (wid fid : string) (F : frame) (lid : string)
  (FL : frame) (lpid : string) (PL : plot)
  (u : nat) (out : list string) (mv : Z * Z -> bool) : world :=
  mkWorld (one wid (mkWindow (two fid F lid (with_plots (one lpid PL) FL) fid)))
          u out mv.

Definition find_frame (wid fid : string) (w : world) : option frame :=
  match c_get wid (windows w) with
  | Some W => c_get fid (win_frames W)
  | None => None
  end.

(** The plot the legend is drawn in, and the plot it describes. *)
Definition legend_plot (self : Legend.instance) (w : world) : option plot :=
  match find_frame (Legend.orig_win self) (Legend.frm self) w with
  | Some F => c_cur (frm_plots F)
  | None => None
  end.

Definition source_plot (self : Legend.instance) (w : world) : option plot :=
  match find_frame (Legend.orig_win self) (Legend.orig_frm self) w with
  | Some F => c_get (Legend.orig_plot self) (frm_plots F)
  | None => None
  end.

Definition opt_list {A} (o : option A) : list A :=
  match o with
  | Some a => [a]
  | None => []
  end.

(** [c] is the style [get_curve(id)] returns in the plot [P]. *)
Definition style_in (P : plot) (id : string) (c : ChipsCurve) : Prop :=
  option_map crv_attr (c_get id (plt_curves P)) = Some c.

(** The styles [get_curve] returns for the curves [names] of [P]. *)
Definition styles_of (P : plot) (names : list string) : list ChipsCurve :=
  flat_map (fun id => opt_list (option_map crv_attr (c_get id (plt_curves P)))) names.

(** What entry [e] of [enumerate(self.lgnd)] is drawn as, for a legend
    of [n] entries. *)
Definition overlay_curve (reverse : bool) (n : nat) (e : nat * ChipsCurve) : hcurve :=
  let yy := inject_Z (Legend.slot reverse n (fst e)) in
  mkHCurve [0.25; 1]%Q [yy; yy] (set_symbol_style (PyStr "none") (snd e)).

Definition overlay_point (reverse : bool) (n : nat) (e : nat * ChipsCurve) : hpoint :=
  let yy := inject_Z (Legend.slot reverse n (fst e)) in
  mkHPoint 0.625 yy (Legend._get_point_properties (symbol (snd e))).

Definition overlay_label (reverse : bool) (n : nat) (e : nat * ChipsCurve) : hlabel :=
  let yy := inject_Z (Legend.slot reverse n (fst e)) in
  mkHLabel 1.25 yy (str (fst e)) "valign=0.5".

(** The plot and the instance after one entry has been drawn. *)
Definition draw_entry_plot (reverse : bool) (n : nat) (e : nat * ChipsCurve)
  (PL : plot) : plot :=
  mkPlot (plt_attr PL) (plt_axes PL)
    (c_add (fresh_id "crv" (ids (items (plt_curves PL))))
           (overlay_curve reverse n e) (plt_curves PL))
    (c_add (fresh_id "pnt" (ids (items (plt_points PL))))
           (overlay_point reverse n e) (plt_points PL))
    (c_add (fresh_id "lbl" (ids (items (plt_labels PL))))
           (overlay_label reverse n e) (plt_labels PL))
    (plt_regions PL).

Definition draw_entry_self (PL : plot) (self : Legend.instance) : Legend.instance :=
  Legend.set_lgnd_lbls
    (Legend.lgnd_lbls self ++ [fresh_id "lbl" (ids (items (plt_labels PL)))])
    (Legend.set_lgnd_pnts
       (Legend.lgnd_pnts self ++ [fresh_id "pnt" (ids (items (plt_points PL)))])
       (Legend.set_lgnd_crvs
          (Legend.lgnd_crvs self ++ [fresh_id "crv" (ids (items (plt_curves PL)))])
          self)).

(** The identifiers [n] successive additions under [stem] receive, and
    the container after the additions. *)
Fixpoint new_ids (stem : string) (used : list string) (n : nat) : list string :=
  match n with
  | 0 => []
  | S n' =>
      let i := fresh_id stem used in
      i :: new_ids stem (used ++ [i]) n'
  end.

Fixpoint add_all {A} (stem : string) (xs : list A) (c : container A) : container A :=
  match xs with
  | [] => c
  | x :: r => add_all stem r (c_add (fresh_id stem (ids (items c))) x c)
  end.

(** The plot and the instance after the entries [es] have been drawn. *)
Definition drawn_plot (reverse : bool) (n : nat) (es : list (nat * ChipsCurve))
  (PL : plot) : plot :=
  mkPlot (plt_attr PL) (plt_axes PL)
    (add_all "crv" (map (overlay_curve reverse n) es) (plt_curves PL))
    (add_all "pnt" (map (overlay_point reverse n) es) (plt_points PL))
    (add_all "lbl" (map (overlay_label reverse n) es) (plt_labels PL))
    (plt_regions PL).

Definition drawn_self (k : nat) (PL : plot) (self : Legend.instance)
  : Legend.instance :=
  Legend.set_lgnd_lbls
    (Legend.lgnd_lbls self ++ new_ids "lbl" (ids (items (plt_labels PL))) k)
    (Legend.set_lgnd_pnts
       (Legend.lgnd_pnts self ++ new_ids "pnt" (ids (items (plt_points PL))) k)
       (Legend.set_lgnd_crvs
          (Legend.lgnd_crvs self ++ new_ids "crv" (ids (items (plt_curves PL))) k)
          self)).

(** What construction over [N] curves leaves behind: one overlay curve,
    point and label per curve, the labels reading ["0"] to ["N-1"], the
    recorded identifiers naming them in order, and entry [i] carrying the
    style captured from source curve [i]. *)
Definition entries_created (w : world) (N : nat) (self : Legend.instance)
  (w' : world) : Prop :=
  exists PL P0,
    legend_plot self w' = Some PL
    /\ cur_plot w = Some P0
    /\ List.length (items (plt_curves PL)) = N
    /\ List.length (items (plt_points PL)) = N
    /\ List.length (items (plt_labels PL)) = N
    /\ map (fun il => lbl_text (snd il)) (items (plt_labels PL)) = map str (seq 0 N)
    /\ ids (items (plt_curves PL)) = Legend.lgnd_crvs self
    /\ ids (items (plt_points PL)) = Legend.lgnd_pnts self
    /\ ids (items (plt_labels PL)) = Legend.lgnd_lbls self
    /\ List.length (Legend.lgnd_crvs self) = N
    /\ List.length (Legend.lgnd_pnts self) = N
    /\ List.length (Legend.lgnd_lbls self) = N
    /\ Legend.usr_crvs self = ids (all_curves w)
    /\ Forall2 (style_in P0) (Legend.usr_crvs self) (Legend.lgnd self)
    /\ map (fun ic => crv_attr (snd ic)) (items (plt_curves PL))
       = map (set_symbol_style (PyStr "none")) (Legend.lgnd self)
    /\ map (fun ip => pnt_attr (snd ip)) (items (plt_points PL))
       = map (fun c => Legend._get_point_properties (symbol c)) (Legend.lgnd self).

(** Entry [i] of a legend of [N] entries, as it stands in the legend's
    plot [PL]: the overlay curve, point and label at position [i] are the
    ones recorded at position [i], they carry the style [st] captured at
    position [i], and they sit at the vertical coordinate [yy]. *)
Definition entry_at (self : Legend.instance) (PL : plot) (i : nat)
  (st : ChipsCurve) (yy : Q) : Prop :=
  exists idc c idp p idl l,
    nth_error (Legend.lgnd self) i = Some st
    /\ nth_error (Legend.lgnd_crvs self) i = Some idc
    /\ nth_error (items (plt_curves PL)) i = Some (idc, c)
    /\ crv_attr c = set_symbol_style (PyStr "none") st
    /\ crv_y c = [yy; yy]
    /\ nth_error (Legend.lgnd_pnts self) i = Some idp
    /\ nth_error (items (plt_points PL)) i = Some (idp, p)
    /\ pnt_attr p = Legend._get_point_properties (symbol st)
    /\ pnt_y p = yy
    /\ nth_error (Legend.lgnd_lbls self) i = Some idl
    /\ nth_error (items (plt_labels PL)) i = Some (idl, l)
    /\ lbl_y l = yy.

(** The order of the entries and their vertical slots: entry [i] belongs
    to the [i]-th curve of the captured order whatever [reverse] is, and
    only its vertical coordinate depends on [reverse]. *)
Definition entries_placed (reverse : bool) (w : world) (N : nat)
  (self : Legend.instance) (w' : world) : Prop :=
  exists PL P0,
    legend_plot self w' = Some PL
    /\ cur_plot w = Some P0
    /\ Legend.usr_crvs self = ids (all_curves w)
    /\ Legend.lgnd_crvs self = new_ids "crv" [] N
    /\ Legend.lgnd_pnts self = new_ids "pnt" [] N
    /\ Legend.lgnd_lbls self = new_ids "lbl" [] N
    /\ forall i, i < N ->
         exists src st,
           nth_error (Legend.usr_crvs self) i = Some src
           /\ style_in P0 src st
           /\ entry_at self PL i st
                (inject_Z (if reverse then Z.of_nat i
                           else (Z.of_nat N - 1 - Z.of_nat i)%Z)).

(** *** Sample worlds *)

Definition sample_line : ChipsLine :=
  mkLine (PyStr "default") (PyStr "solid") (PyNum 1).

Definition sample_curve1 : hcurve :=
  mkHCurve [1; 2]%Q [-1; -1]%Q
    (mkCurve sample_line
       (mkSymbol (PyNum 0) (PyStr "default") (PyBool true) (PyNum 5) (PyStr "none")) []).

Definition sample_curve2 : hcurve :=
  mkHCurve [1; 2]%Q [0; 0]%Q
    (mkCurve sample_line
       (mkSymbol (PyNum 0) (PyStr "red") (PyBool true) (PyNum 5) (PyStr "square")) []).

Definition sample_axes : container haxis :=
  mkC [ ("ax1", mkHAxis X_AXIS 0 0 3 [] true);
        ("ay1", mkHAxis Y_AXIS 0 (-2) 2 [] true) ] (Some "ay1").

Definition sample_plot : plot :=
  mkPlot [] sample_axes
    (mkC [("crv1", sample_curve1); ("crv2", sample_curve2)] (Some "crv2"))
    empty empty empty.

Definition sample_frame : frame :=
  mkFrame [] (0, 0, 1, 1)%Q (0, 0)%Z (one "plot1" sample_plot).

(** The state after [add_curve([1,2],[-1,-1])] and
    [add_curve([1,2],[0,0],"symbol.style=square")]: one window, one
    frame, one plot, two curves. *)
Definition sample_world : world :=
  mkWorld (one "win1" (mkWindow (one "frm1" sample_frame))) 0 []
          (fun s => Z.leb 0 (snd s)).

(** The same with no curve at all, and with nothing at all. *)
Definition curveless_world : world :=
  mkWorld (one "win1" (mkWindow (one "frm1"
            (mkFrame [] (0, 0, 1, 1)%Q (0, 0)%Z
               (one "plot1" (mkPlot [] sample_axes empty empty empty empty))))))
          0 [] (fun _ => true).

Definition empty_world : world := mkWorld empty 0 [] (fun _ => true).

(** Seven curves in the one plot. *)
Definition seven_curve_world : world :=
  mkWorld (one "win1" (mkWindow (one "frm1"
            (mkFrame [] (0, 0, 1, 1)%Q (0, 0)%Z
               (one "plot1"
                  (mkPlot [] sample_axes
                     (mkC [ ("crv1", sample_curve1); ("crv2", sample_curve2);
                            ("crv3", sample_curve1); ("crv4", sample_curve2);
                            ("crv5", sample_curve1); ("crv6", sample_curve2);
                            ("crv7", sample_curve1) ] (Some "crv7"))
                     empty empty empty))))))
          0 [] (fun _ => true).

(** The legend as it stands right after construction over
    [sample_world]. *)
Definition sample_built : outcome Legend.instance * world :=
  Eval vm_compute in Legend.__init__ false sample_world.

Definition sample_legend : Legend.instance :=
  match fst sample_built with
  | Ok s => s
  | _ => Legend.new_instance
  end.

Definition legend_sample_world : world := snd sample_built.

(** *** Decidable conditions on a legend and its world *)

(** Every name of [names] is a member of [c]. *)
Definition present {A} (c : container A) (names : list string) : bool :=
  forallb (fun id => match c_get id c with Some _ => true | None => false end) names.

Fixpoint nodupb (l : list string) : bool :=
  match l with
  | [] => true
  | x :: r => negb (existsb (String.eqb x) r) && nodupb r
  end.

(** The label container after [set_label_text] over the pairs. *)
Fixpoint set_texts (pairs : list (string * string)) (c : container hlabel)
  : container hlabel :=
  match pairs with
  | [] => c
  | p :: r =>
      set_texts r
        (match c_get (fst p) c with
         | Some l => c_put (fst p) (mkHLabel (lbl_x l) (lbl_y l) (snd p) (lbl_attr l)) c
         | None => c
         end)
  end.

(** The label recorded at position [i] of the legend, as the host holds
    it. *)
Definition label_at (self : Legend.instance) (w : world) (i : nat) : option hlabel :=
  match legend_plot self w, nth_error (Legend.lgnd_lbls self) i with
  | Some PL, Some id => c_get id (plt_labels PL)
  | _, _ => None
  end.

(** The window of the world, with frame [id] replaced and the frame
    [old] current. *)
Definition with_frame (id : string) (F : frame) (old : string) (W : window) : window :=
  mkWindow (mkC (replace id F (items (win_frames W))) (Some old)).

(** *** Classes of computations *)

Definition is_nie (e : exn) : bool :=
  match e with
  | NotImplementedError _ => true
  | _ => false
  end.

(** A computation that never raises [NotImplementedError]. *)
Definition quiet {A} (m : M A) : Prop :=
  forall w e w', m w = (Raise e, w') -> is_nie e = false.

(** A computation that leaves the world as it is. *)
Definition reads_only {A} (m : M A) : Prop := forall w, snd (m w) = w.

(** *** Assertions on runs *)

(** When [m] is run in a world that satisfies [P] and returns, the value
    and the world it returns satisfy [Q]. *)
Definition triple {A} (P : world -> Prop) (m : M A) (Q : A -> world -> Prop) : Prop :=
  forall w a w', P w -> m w = (Ok a, w') -> Q a w'.

(** The window [wid] exists and satisfies [Q]. *)
Definition window_has (wid : string) (Q : window -> Prop) (w : world) : Prop :=
  exists W, c_get wid (windows w) = Some W /\ Q W.

(** The window [wid] is the current one and satisfies [Q]. *)
Definition in_window (wid : string) (Q : window -> Prop) (w : world) : Prop :=
  cur (windows w) = Some wid /\ window_has wid Q w.

(** An assertion that looks at the windows only. *)
Definition on_windows (P : world -> Prop) : Prop :=
  forall w w', windows w' = windows w -> P w -> P w'.

(** The identifier of the current plot of a frame. *)
Definition cur_plot_id (F : frame) : option string := c_cur_id (frm_plots F).

(** [W] has the frames of [W0], each with the current plot it has in
    [W0]. *)
Definition frames_keep (W0 W : window) : Prop :=
  forall id,
    option_map cur_plot_id (c_get id (win_frames W))
    = option_map cur_plot_id (c_get id (win_frames W0)).

(** What the operations keep while they work: the window [wid] is the
    current one and its frames have the current plots they had. *)
Definition focus_kept (wid : string) (W0 : window) : world -> Prop :=
  in_window wid (frames_keep W0).

(** The focus of [w'] is the focus of [w]. *)
Definition same_focus (w w' : world) : Prop :=
  focused_window w' = focused_window w
  /\ focused_frame w' = focused_frame w
  /\ focused_plot w' = focused_plot w.

(** The public operations of the class. *)
Inductive operation : Type :=
| Construct (reverse : bool)
| Relabel (self : Legend.instance) (label_vals : list string)
| Resync (self : Legend.instance)
| Reposition (self : Legend.instance) (pending : list pick).

Definition run (op : operation) : M unit :=
  match op with
  | Construct reverse => self <- Legend.__init__ reverse ;; ret tt
  | Relabel self label_vals => Legend.label self label_vals
  | Resync self => Legend.update self
  | Reposition self pending => Legend.move self pending
  end.

(** The focus is on the window the legend was built in, and the frame it
    was built over has the plot it was built over as its current plot. *)
Definition source_in_focus (self : Legend.instance) (w : world) : bool :=
  match focused_window w, find_frame (Legend.orig_win self) (Legend.orig_frm self) w with
  | Some wid, Some F =>
      String.eqb wid (Legend.orig_win self)
      && match cur_plot_id F with
         | Some p => String.eqb p (Legend.orig_plot self)
         | None => false
         end
  | _, _ => false
  end.

(** The worlds in which an operation gives the focus back. *)
Definition restores_focus_in (op : operation) (w : world) : bool :=
  match op with
  | Resync self => source_in_focus self w
  | _ => true
  end.

(** *** The legend during a resynchronisation *)

(** Entry [e] = (source curve, overlay curve, overlay point) is in step:
    the overlay curve has the style of the source curve in [P0] with the
    symbol switched off, and the overlay point has its symbol. *)
Definition entry_synced (P0 PL : plot) (e : string * string * string) : Prop :=
  exists st,
    style_in P0 (fst (fst e)) st
    /\ option_map crv_attr (c_get (snd (fst e)) (plt_curves PL))
       = Some (set_symbol_style (PyStr "none") st)
    /\ option_map pnt_attr (c_get (snd e) (plt_points PL))
       = Some (Legend._get_point_properties (symbol st)).

(** The window holds the source plot [P0] where the legend expects it,
    and the legend's plot satisfies [R]. *)
Definition legend_state (self : Legend.instance) (P0 : plot) (R : plot -> Prop)
  (W : window) : Prop :=
  (exists F0, c_get (Legend.orig_frm self) (win_frames W) = Some F0
              /\ c_get (Legend.orig_plot self) (frm_plots F0) = Some P0)
  /\ exists FL PL, c_get (Legend.frm self) (win_frames W) = Some FL
                   /\ c_cur (frm_plots FL) = Some PL /\ R PL.

(** The legend's plot has the labels of [PL0] and the entries [done] in
    step. *)
Definition synced (P0 PL0 : plot) (done : list (string * string * string))
  (PL : plot) : Prop :=
  plt_labels PL = plt_labels PL0 /\ Forall (entry_synced P0 PL) done.

(** The sample world with a second plot added to the frame the legend
    was built over, and the sample world after a resynchronisation. *)
Definition two_plot_world : world := snd (add_plot [] legend_sample_world).

Definition resynced_sample : world := snd (Legend.update sample_legend legend_sample_world).

(** The symbol style of the curve [id] of a plot. *)
Definition symbol_style_of (id : string) (P : option plot) : option pyval :=
  match P with
  | Some P => option_map (fun c => sym_style (symbol (crv_attr c))) (c_get id (plt_curves P))
  | None => None
  end.

(** *** Key presses *)

(** A key press with the key value [k]. *)
Definition key_press (k : string) : pick := mkPick 0 0 0 [k].

(** The byte [0xE9], which is no ASCII character. *)
Definition byte_e9 : string := String (ascii_of_nat 233) EmptyString.

(** The pixel offset of each movement key, in the specification's
    words: [w] up, [s] down, [a] left, [d] right, by five pixels. *)
Definition offset_of (k : string) : option (Z * Z) :=
  if String.eqb k "w" then Some (0, 5)%Z
  else if String.eqb k "s" then Some (0, -5)%Z
  else if String.eqb k "a" then Some (-5, 0)%Z
  else if String.eqb k "d" then Some (5, 0)%Z
  else None.

(** The sample world with the legend's frame made the current one. *)
Definition legend_focused_world : world :=
  snd (set_current_frame (Legend.frm sample_legend) legend_sample_world).

(** The world after a move the host refused was caught and printed. *)
Definition refused (w : world) : world :=
  mkWorld (windows w) (undo_open w) (stdout w ++ ["frame cannot be moved there"])
          (move_ok w).

(** *** The layout of the legend *)

(** The attributes [_make_drawing_area] gives the plot and the axes, and
    [_background] gives the region. *)
Definition legend_plot_attrs : settings :=
  [ ("bottommargin", PyNum 0.01); ("topmargin", PyNum 0.01);
    ("leftmargin", PyNum 0.01); ("rightmargin", PyNum 0.01);
    ("style", PyStr "open") ].

Definition legend_axis_attrs : settings :=
  [ ("automax", PyBool false); ("automin", PyBool false);
    ("majortick.visible", PyBool false); ("minortick.visible", PyBool false);
    ("offset.parallel", PyNum 0); ("offset.perpendicular", PyNum 0);
    ("pad", PyNum 0) ].

Definition legend_region_attrs : settings :=
  [ ("edge.color", PyStr "forest"); ("fill.color", PyStr "forest");
    ("fill.style", PyStr "solid"); ("opacity", PyNum 0.5) ].

(** The legend's plot for [n] curves before anything is drawn in it:
    two hidden axes and the background region. *)
Definition legend_area (n : nat) : plot :=
  let top := inject_Z (Z.of_nat n) in
  mkPlot legend_plot_attrs
    (mkC [ ("ax1", mkHAxis X_AXIS 0 0 3 legend_axis_attrs false);
           ("ay1", mkHAxis Y_AXIS 0 (-1) top legend_axis_attrs false) ]
         (Some "ay1"))
    empty empty empty
    (mkC [ ("reg1", mkHRegion [0; 3; 3; 0]%Q [-1; -1; top; top]%Q legend_region_attrs) ]
         (Some "reg1")).

(** *** What a computation leaves alone *)

(** [m] leaves the observation [obs] of the world as it is, whatever
    the outcome. *)
Definition keeps {A X} (obs : world -> X) (m : M A) : Prop :=
  forall w, obs (snd (m w)) = obs w.

(** [m] closes one undo block when it returns and none when it does
    not. *)
Definition closes {A} (m : M A) : Prop :=
  forall w,
    undo_open (snd (m w))
    = match fst (m w) with
      | Ok _ => pred (undo_open w)
      | _ => undo_open w
      end.

(** The operations that open their undo block: all but the constructor,
    which checks its preconditions first, and a relabelling with a wrong
    count, which raises before it. *)
Definition opens_block (op : operation) : bool :=
  match op with
  | Construct _ => false
  | Relabel self label_vals =>
      Nat.eqb (List.length label_vals) (List.length (Legend.lgnd_lbls self))
  | Resync _ => true
  | Reposition _ _ => true
  end.

(** *** The legend's frame at work *)

(** The world differs from [w0] in the current window only, which is
    [W0] with the frame [lid] current and replaced by a frame that
    satisfies [R]; the host's rule for moves is the one of [w0]. *)
Definition in_frame (w0 : world) (W0 : window) (lid : string) (R : frame -> Prop)
  (w : world) : Prop :=
  exists FL1,
    windows w
    = c_put_cur (mkWindow (mkC (replace lid FL1 (items (win_frames W0))) (Some lid)))
                (windows w0)
    /\ move_ok w = move_ok w0
    /\ R FL1.

(** A container with [g] applied to every member. *)
Definition c_map {A B} (g : A -> B) (c : container A) : container B :=
  mkC (map (fun kb => (fst kb, g (snd kb))) (items c)) (cur c).

(** A label, a plot and a frame with the label texts blanked. *)
Definition blank_label (l : hlabel) : hlabel :=
  mkHLabel (lbl_x l) (lbl_y l) EmptyString (lbl_attr l).

Definition blank_plot (P : plot) : plot :=
  with_labels (c_map blank_label (plt_labels P)) P.

Definition blank_frame (F : frame) : frame :=
  with_plots (c_map blank_plot (frm_plots F)) F.

(** Where the keys of a run of the loop take the frame: the sum of the
    offsets of the movement keys up to the first [q], when every key up
    to it has a key value that decodes and a [q] is there. *)
Fixpoint net_offset (pending : list pick) : option (Z * Z) :=
  match pending with
  | [] => None
  | key :: rest =>
      match nth_error (pick_keys key) 0 with
      | None => None
      | Some kv =>
          match decode_ascii (lower kv) with
          | inl _ => None
          | inr k =>
              match offset_of k with
              | Some (x, y) =>
                  option_map (fun d => (x + fst d, y + snd d)%Z) (net_offset rest)
              | None =>
                  if String.eqb k "q" then Some (0, 0)%Z else net_offset rest
              end
          end
      end
  end.

(** The frame [F] is [FL] moved, and moved by [(dx, dy)] if the host of
    [w0] accepts every move. *)
Definition moved (w0 : world) (FL : frame) (dx dy : Z) (F : frame) : Prop :=
  exists s,
    F = with_shift s FL
    /\ ((forall p, move_ok w0 p = true) ->
        s = (fst (frm_shift FL) + dx, snd (frm_shift FL) + dy)%Z).

(** The sample world with the legend built, with a host that accepts
    every move. *)
Definition free_legend_world : world :=
  mkWorld (windows legend_sample_world) 0 [] (fun _ => true).

(** The places of the overlay objects of a plot: the coordinates of its
    curves and of its points, under their identifiers and in order. *)
Definition curve_places (P : plot) : container (list Q * list Q) :=
  c_map (fun c => (crv_x c, crv_y c)) (plt_curves P).

Definition point_places (P : plot) : container (Q * Q) :=
  c_map (fun p => (pnt_x p, pnt_y p)) (plt_points P).

(** Two plots that differ in the styles of their curves and points at
    most. *)
Definition same_but_styles (P P' : plot) : Prop :=
  plt_attr P' = plt_attr P /\ plt_axes P' = plt_axes P
  /\ curve_places P' = curve_places P /\ point_places P' = point_places P
  /\ plt_labels P' = plt_labels P /\ plt_regions P' = plt_regions P.

End Spec.
Export Spec.

(** ** Reading the reports *)

Section Strings.

Lemma append_assoc (a b c : string) : ((a ++ b) ++ c = a ++ (b ++ c))%string.
Proof. induction a as [|x a IH]; simpl; [reflexivity | now rewrite IH]. Qed.

Lemma no_char_app c (a b : string) :
  no_char c (a ++ b)%string = no_char c a && no_char c b.
Proof.
  induction a as [|x a IH]; simpl; [reflexivity|].
  now rewrite IH, andb_assoc.
Qed.

Lemma split_no_char c s : no_char c s = true -> split c s = [s].
Proof.
  induction s as [|a s IH]; simpl; intros H; [reflexivity|].
  apply andb_true_iff in H as [Ha Hs].
  apply negb_true_iff in Ha. rewrite Ha, (IH Hs). reflexivity.
Qed.

Lemma split_app c (a b : string) :
  no_char c a = true -> split c (a ++ String c b)%string = a :: split c b.
Proof.
  induction a as [|x a IH]; simpl; intros H.
  - now rewrite Ascii.eqb_refl.
  - apply andb_true_iff in H as [Hx Ha].
    apply negb_true_iff in Hx. rewrite Hx, (IH Ha). reflexivity.
Qed.

Lemma split_newline_concat (ls : list string) :
  ls <> [] ->
  Forall (fun l => no_char newline l = true) ls ->
  split newline (String.concat (String newline EmptyString) ls) = ls.
Proof.
  induction ls as [|x r IH]; intros Hne Hall; [congruence|].
  inversion Hall as [|? ? Hx Hr]; subst.
  destruct r as [|y r].
  - simpl. now apply split_no_char.
  - change (String.concat (String newline EmptyString) (x :: y :: r))
      with (x ++ String newline (String.concat (String newline EmptyString) (y :: r)))%string.
    rewrite (split_app _ _ _ Hx), IH; [reflexivity | discriminate | assumption].
Qed.

Lemma lstrip_spaces n s : lstrip (spaces n ++ s)%string = lstrip s.
Proof. induction n as [|n IH]; simpl; [reflexivity | exact IH]. Qed.

Lemma rstrip_rbracket s :
  rstrip (s ++ String rbracket EmptyString)%string
  = (s ++ String rbracket EmptyString)%string.
Proof.
  induction s as [|c s IH]; [reflexivity|].
  change (rstrip (String c (s ++ String rbracket EmptyString)%string)
          = String c (s ++ String rbracket EmptyString)%string).
  simpl rstrip. rewrite IH. destruct s; reflexivity.
Qed.

Lemma split_cons c s : exists p ps, split c s = p :: ps.
Proof.
  destruct s as [|a s]; simpl; [now eexists; eexists|].
  destruct (Ascii.eqb a c); [now eexists; eexists|].
  destruct (split c s); now eexists; eexists.
Qed.

Lemma split_app_head c (a b : string) :
  no_char c a = true ->
  exists p ps, split c b = p :: ps /\ split c (a ++ b)%string = (a ++ p)%string :: ps.
Proof.
  intros Ha. destruct (split_cons c b) as (p & ps & Hb).
  exists p, ps. split; [assumption|].
  induction a as [|x a IH]; simpl; [assumption|].
  simpl in Ha. apply andb_true_iff in Ha as [Hx Ha].
  apply negb_true_iff in Hx. rewrite Hx, (IH Ha). reflexivity.
Qed.

(** The identifier between the first opening bracket of a line and the
    closing bracket after it, as the lookups take it. *)
Lemma extract_bracketed (l id : string) (w : world) :
  bracketed l id ->
  bind (Legend.item (split lbracket l) 1)
       (fun a => Legend.item (split rbracket a) 0) w = (Ok id, w).
Proof.
  intros (pre & post & -> & Hpre & Hid1 & Hid2).
  rewrite (split_app _ _ _ Hpre).
  destruct (split_app_head lbracket id (String rbracket post) Hid1)
    as (p & ps & Hp & ->).
  simpl in Hp. destruct (split_cons lbracket post) as (q & qs & Hq).
  rewrite Hq in Hp. injection Hp as <- <-.
  unfold bind, Legend.item. simpl.
  rewrite (split_app _ _ _ Hid2). reflexivity.
Qed.

Lemma for_list_extract (ff names : list string) (w : world) :
  Forall2 bracketed ff names ->
  Legend.for_list (fun f => bind (Legend.item (split lbracket f) 1)
                                 (fun a => Legend.item (split rbracket a) 0))
                  ff w = (Ok names, w).
Proof.
  induction 1 as [|l id ff names Hl _ IH]; [reflexivity|].
  simpl. unfold bind at 1. rewrite (extract_bracketed _ _ _ Hl).
  unfold bind at 1. rewrite IH. reflexivity.
Qed.

Lemma strip_render n k id :
  strip (render (n, k, id)) = (tag k ++ " [" ++ id ++ "]")%string.
Proof.
  unfold strip, render. rewrite lstrip_spaces.
  assert (E : lstrip (tag k ++ " [" ++ id ++ "]")
              = (tag k ++ " [" ++ id ++ "]")%string)
    by (destruct k; reflexivity).
  rewrite E.
  replace (tag k ++ " [" ++ id ++ "]")%string
    with ((tag k ++ " [" ++ id) ++ String rbracket EmptyString)%string
    by (now rewrite !append_assoc).
  apply rstrip_rbracket.
Qed.

Lemma startswith_render k' n k id :
  startswith (strip (render (n, k, id))) (tag k') = kind_eqb k' k.
Proof. rewrite strip_render. destruct k, k'; reflexivity. Qed.

Lemma no_char_spaces c n :
  Ascii.eqb " "%char c = false -> no_char c (spaces n) = true.
Proof.
  intros H. induction n as [|n IH]; cbn [no_char spaces]; [reflexivity|].
  now rewrite H, IH.
Qed.

Lemma no_newline_render (l : rline) :
  token (snd l) = true -> no_char newline (render l) = true.
Proof.
  destruct l as [[n k] id]. unfold token, render. simpl snd. intros H.
  apply andb_true_iff in H as [H _]. apply andb_true_iff in H as [H _].
  rewrite !no_char_app, H, no_char_spaces by reflexivity.
  destruct k; reflexivity.
Qed.

Lemma bracketed_render (l : rline) :
  token (snd l) = true -> bracketed (render l) (snd l).
Proof.
  destruct l as [[n k] id]. unfold token. simpl snd. intros H.
  apply andb_true_iff in H as [H H3]. apply andb_true_iff in H as [_ H2].
  exists (spaces n ++ tag k ++ " ")%string, EmptyString.
  repeat split; try assumption.
  - unfold render. rewrite !append_assoc. reflexivity.
  - rewrite !no_char_app, no_char_spaces by reflexivity. destruct k; reflexivity.
Qed.

End Strings.

Section Lookups.

Import Legend.

Lemma bind_ret_r {A} (m : M A) (w : world) : bind m ret w = m w.
Proof. unfold bind, ret. destruct (m w) as [[a|e|] w']; reflexivity. Qed.

Lemma item_last_app {A} (ff : list A) (l : A) : item_last (ff ++ [l]) = ret l.
Proof.
  destruct ff as [|a ff]; [reflexivity|].
  simpl. now rewrite last_last.
Qed.

(** The lookups in terms of the text of the report. *)
Lemma all_names_of_report (name rep : string) (names : list string) (w : world) :
  info w = (Ok (Some rep), w) ->
  Forall2 bracketed (matching name rep) names ->
  _get_all_object_name name w = (Ok names, w).
Proof.
  intros Hi H. unfold _get_all_object_name.
  unfold bind at 1. rewrite Hi. fold (matching name rep).
  unfold bind at 1. rewrite (for_list_extract _ _ _ H). reflexivity.
Qed.

Lemma current_name_of_report (name rep : string) (ff : list string)
      (l id : string) (w : world) :
  info_current w = (Ok (Some rep), w) ->
  matching name rep = ff ++ [l] ->
  bracketed l id ->
  _get_current_object_name name w = (Ok id, w).
Proof.
  intros Hi Hm Hl. unfold _get_current_object_name.
  unfold bind at 1. rewrite Hi. fold (matching name rep). rewrite Hm.
  rewrite item_last_app. unfold bind at 1, ret at 1.
  pose proof (extract_bracketed l id w Hl) as E.
  unfold bind in E |- *.
  destruct (item (split lbracket l) 1 w) as [[a|e|] w1]; try discriminate.
  destruct (item (split rbracket a) 0 w1) as [[b|e|] w2]; try discriminate.
  exact E.
Qed.

(** The lines of a report that start with a type tag are those of that
    type. *)
Lemma matching_render (k : kind) (ls : list rline) (rep : string) :
  Forall (fun l => token (snd l) = true) ls ->
  report ls = Some rep ->
  matching (tag k) rep = map render (filter (fun l => kind_eqb k (snd (fst l))) ls).
Proof.
  intros Hall Hrep. unfold report in Hrep.
  destruct ls as [|l0 ls0] eqn:E; [discriminate|]. rewrite <- E in *.
  injection Hrep as <-. unfold matching.
  rewrite split_newline_concat.
  - clear. induction ls as [|[[n k'] id] ls IH]; [reflexivity|].
    cbn [map filter fst snd]. rewrite startswith_render, IH.
    destruct (kind_eqb k k'); reflexivity.
  - rewrite E. discriminate.
  - clear -Hall. induction Hall; constructor; auto using no_newline_render.
Qed.

Lemma bracketed_lines (ls : list rline) :
  Forall (fun l => token (snd l) = true) ls ->
  Forall2 bracketed (map render ls) (map snd ls).
Proof.
  induction 1; constructor; auto using bracketed_render.
Qed.

Lemma Forall_filter {A} (P : A -> Prop) f (l : list A) :
  Forall P l -> Forall P (filter f l).
Proof.
  induction 1; simpl; [constructor|]. destruct (f x); auto.
Qed.

Lemma all_names_lines (k : kind) (w : world) :
  Forall (fun l => token (snd l) = true) (info_lines w) ->
  info_lines w <> [] ->
  _get_all_object_name (tag k) w = (Ok (names_of k (info_lines w)), w).
Proof.
  intros Hall Hne.
  destruct (report (info_lines w)) as [rep|] eqn:Hrep.
  - apply all_names_of_report with (rep := rep).
    + unfold info. now rewrite Hrep.
    + rewrite (matching_render k _ _ Hall Hrep). unfold names_of.
      apply bracketed_lines. now apply Forall_filter.
  - unfold report in Hrep. destruct (info_lines w); [congruence | discriminate].
Qed.

Lemma current_name_lines (k : kind) (w : world) (ns : list string) (id : string) :
  Forall (fun l => token (snd l) = true) (info_current_lines w) ->
  names_of k (info_current_lines w) = ns ++ [id] ->
  _get_current_object_name (tag k) w = (Ok id, w).
Proof.
  intros Hall Hn.
  destruct (report (info_current_lines w)) as [rep|] eqn:Hrep.
  - pose proof (bracketed_lines _ (Forall_filter _ (fun l => kind_eqb k (snd (fst l))) _ Hall)) as B.
    fold (names_of k (info_current_lines w)) in B. rewrite Hn in B.
    apply Forall2_app_inv_r in B as (l1 & l2 & B1 & B2 & E).
    inversion B2 as [|l ? ? ? Hl B3]; subst. inversion B3; subst.
    apply current_name_of_report with (rep := rep) (ff := l1) (l := l).
    + unfold info_current. now rewrite Hrep.
    + rewrite (matching_render k _ _ Hall Hrep). exact E.
    + exact Hl.
  - unfold report in Hrep. destruct (info_current_lines w); [|discriminate].
    destruct ns; discriminate.
Qed.

End Lookups.

(** ** Containers and fresh identifiers *)

Section Containers.

Context {A : Type}.
Implicit Types (l r : list (string * A)) (a b : A) (id : string).

Lemma assoc_In id l a : assoc id l = Some a -> In (id, a) l.
Proof.
  induction l as [|[k x] l IH]; simpl; [discriminate|].
  destruct (String.eqb_spec id k) as [->|_].
  - intros [= ->]. now left.
  - intros H. right. auto.
Qed.

Lemma assoc_None id l : assoc id l = None <-> ~ In id (ids l).
Proof.
  induction l as [|[k x] l IH]; simpl; [tauto|].
  destruct (String.eqb_spec id k) as [->|Hne].
  - split; [discriminate | intros H; exfalso; apply H; now left].
  - rewrite IH. split; [intros H [E|E]; [congruence | tauto] | tauto].
Qed.

Lemma assoc_Some_ids id l a : assoc id l = Some a -> In id (ids l).
Proof. intros H. apply assoc_In in H. now apply (in_map fst) in H. Qed.

Lemma ids_replace id a l : ids (replace id a l) = ids l.
Proof.
  induction l as [|[k x] l IH]; simpl; [reflexivity|].
  destruct (String.eqb id k); simpl; [reflexivity | now rewrite IH].
Qed.

Lemma assoc_replace_same id a l :
  assoc id l <> None -> assoc id (replace id a l) = Some a.
Proof.
  induction l as [|[k x] l IH]; simpl; [congruence|].
  destruct (String.eqb id k) eqn:E; simpl; rewrite E; auto.
Qed.

Lemma assoc_replace_other id id' a l :
  id' <> id -> assoc id' (replace id a l) = assoc id' l.
Proof.
  intros Hne. induction l as [|[k x] l IH]; simpl; [reflexivity|].
  destruct (String.eqb_spec id k) as [->|_]; simpl.
  - destruct (String.eqb_spec id' k); [contradiction | reflexivity].
  - now rewrite IH.
Qed.

Lemma replace_replace id a b l :
  replace id b (replace id a l) = replace id b l.
Proof.
  induction l as [|[k x] l IH]; simpl; [reflexivity|].
  destruct (String.eqb id k) eqn:E; simpl; rewrite E; [reflexivity | now rewrite IH].
Qed.

Lemma replace_same id a l : assoc id l = Some a -> replace id a l = l.
Proof.
  induction l as [|[k x] l IH]; simpl; [reflexivity|].
  destruct (String.eqb id k); [intros [= ->]; reflexivity|].
  intros H. now rewrite IH.
Qed.

Lemma assoc_app_l id l r a : assoc id l = Some a -> assoc id (l ++ r) = Some a.
Proof.
  induction l as [|[k x] l IH]; simpl; [discriminate|].
  destruct (String.eqb id k); auto.
Qed.

Lemma assoc_app_r id l r : ~ In id (ids l) -> assoc id (l ++ r) = assoc id r.
Proof.
  induction l as [|[k x] l IH]; simpl; [reflexivity|].
  intros H. destruct (String.eqb_spec id k) as [->|_]; [tauto | apply IH; tauto].
Qed.

Lemma assoc_add_fresh id l a : ~ In id (ids l) -> assoc id (l ++ [(id, a)]) = Some a.
Proof. intros H. rewrite (assoc_app_r _ _ _ H). simpl. now rewrite String.eqb_refl. Qed.

Lemma assoc_add_other id id' l a :
  id' <> id -> assoc id' (l ++ [(id, a)]) = assoc id' l.
Proof.
  intros Hne. induction l as [|[k x] l IH]; simpl.
  - destruct (String.eqb_spec id' id); [contradiction | reflexivity].
  - now rewrite IH.
Qed.

Lemma replace_app_l id l r a :
  assoc id l <> None -> replace id a (l ++ r) = replace id a l ++ r.
Proof.
  induction l as [|[k x] l IH]; simpl; [congruence|].
  destruct (String.eqb id k); simpl; [reflexivity|].
  intros H. now rewrite IH.
Qed.

Lemma replace_app_r id l r a :
  ~ In id (ids l) -> replace id a (l ++ r) = l ++ replace id a r.
Proof.
  induction l as [|[k x] l IH]; simpl; [reflexivity|].
  intros H. destruct (String.eqb_spec id k) as [->|_]; [tauto|].
  rewrite IH; tauto.
Qed.

Lemma replace_add_fresh id l a b :
  ~ In id (ids l) -> replace id b (l ++ [(id, a)]) = l ++ [(id, b)].
Proof.
  intros H. rewrite (replace_app_r _ _ _ _ H). simpl. now rewrite String.eqb_refl.
Qed.

Lemma ids_app l r : ids (l ++ r) = ids l ++ ids r.
Proof. apply map_app. Qed.

End Containers.

Section Fresh.

Lemma append_inj_r (s a b : string) : (s ++ a = s ++ b)%string -> a = b.
Proof. induction s as [|c s IH]; simpl; [auto|]. intros [= H]. auto. Qed.

Lemma str_inj (a b : nat) : str a = str b -> a = b.
Proof.
  unfold str. intros H.
  assert (E : Some (Nat.to_uint a) = Some (Nat.to_uint b))
    by (rewrite <- !NilEmpty.usu; now rewrite H).
  injection E as E.
  rewrite <- (Unsigned.of_to a), <- (Unsigned.of_to b). now rewrite E.
Qed.

Lemma existsb_eqb_In (s : string) (l : list string) :
  existsb (String.eqb s) l = true <-> In s l.
Proof.
  rewrite existsb_exists. split.
  - intros (x & Hx & E). apply String.eqb_eq in E. now subst.
  - intros H. exists s. split; [assumption | apply String.eqb_refl].
Qed.

Lemma fresh_from_fresh stem used :
  forall fuel k seen,
    NoDup seen -> incl seen used ->
    (forall j, k <= j -> ~ In (stem ++ str j)%string seen) ->
    List.length seen + fuel = List.length used ->
    ~ In (fresh_from stem used k fuel) used.
Proof.
  induction fuel as [|fuel IH]; intros k seen Hnd Hincl Hout Hlen; simpl.
  - intros Hin. apply (Hout k (le_n _)).
    assert (I : incl used seen)
      by (apply NoDup_length_incl; [assumption | lia | assumption]).
    exact (I _ Hin).
  - destruct (existsb (String.eqb (stem ++ str k)) used) eqn:E.
    + apply existsb_eqb_In in E.
      apply (IH (S k) ((stem ++ str k)%string :: seen)).
      * constructor; [apply Hout; lia | assumption].
      * intros x [<-|Hx]; auto.
      * intros j Hj [Heq|Hin]; [|apply (Hout j); [lia | assumption]].
        apply append_inj_r, str_inj in Heq. lia.
      * simpl. lia.
    + intros Hin. apply existsb_eqb_In in Hin. congruence.
Qed.

(** A new identifier is not one in use. *)
Lemma fresh_id_fresh stem used : ~ In (fresh_id stem used) used.
Proof.
  unfold fresh_id. apply (fresh_from_fresh stem used _ 1 []).
  - constructor.
  - intros x [].
  - intros j _ [].
  - reflexivity.
Qed.

Lemma fresh_from_form stem used fuel :
  forall k, exists j, fresh_from stem used k fuel = (stem ++ str j)%string.
Proof.
  induction fuel as [|fuel IH]; intros k; simpl; [now exists k|].
  destruct (existsb _ used); [apply IH | now exists k].
Qed.

Lemma no_char_digits c (d : Decimal.uint) :
  Nat.leb 48 (nat_of_ascii c) && Nat.leb (nat_of_ascii c) 57 = false ->
  no_char c (NilEmpty.string_of_uint d) = true.
Proof.
  intros Hc. induction d; cbn [NilEmpty.string_of_uint no_char]; try reflexivity;
    rewrite IHd, andb_true_r; apply negb_true_iff;
    apply Ascii.eqb_neq; intros <-; discriminate.
Qed.

Lemma token_str n : token (str n) = true.
Proof. unfold token, str. now rewrite !no_char_digits. Qed.

Lemma token_app (a b : string) :
  token a = true -> token b = true -> token (a ++ b) = true.
Proof.
  unfold token. rewrite !no_char_app. intros Ha Hb.
  repeat (apply andb_true_iff in Ha as [Ha ?]).
  repeat (apply andb_true_iff in Hb as [Hb ?]).
  repeat (apply andb_true_iff; split); auto.
Qed.

Lemma fresh_id_token stem used :
  token stem = true -> token (fresh_id stem used) = true.
Proof.
  intros H. unfold fresh_id.
  destruct (fresh_from_form stem used (List.length used) 1) as [j ->].
  apply token_app; [assumption | apply token_str].
Qed.

End Fresh.

Section ContainerLaws.

Context {A : Type}.
Implicit Types (c : container A) (a b : A) (id : string).

Lemma c_cur_Some c a :
  c_cur c = Some a ->
  exists id, cur c = Some id /\ c_get id c = Some a /\ c_cur_id c = Some id.
Proof.
  unfold c_cur, c_cur_id. destruct (cur c) as [id|]; [|discriminate].
  intros H. exists id. rewrite H. auto.
Qed.

Lemma c_cur_of_id c id a :
  cur c = Some id -> c_get id c = Some a ->
  c_cur c = Some a /\ c_cur_id c = Some id.
Proof. unfold c_cur, c_cur_id. intros -> ->. auto. Qed.

Lemma cur_put_cur c a : cur (c_put_cur a c) = cur c.
Proof. unfold c_put_cur. destruct (cur c) eqn:E; simpl; auto. Qed.

Lemma ids_put_cur c a : ids (items (c_put_cur a c)) = ids (items c).
Proof. unfold c_put_cur. destruct (cur c); simpl; auto using ids_replace. Qed.

Lemma c_get_put_same c id a : c_get id c <> None -> c_get id (c_put id a c) = Some a.
Proof. apply assoc_replace_same. Qed.

Lemma c_get_put_other c id id' a : id' <> id -> c_get id' (c_put id a c) = c_get id' c.
Proof. apply assoc_replace_other. Qed.

Lemma c_cur_put_cur c a b : c_cur c = Some b -> c_cur (c_put_cur a c) = Some a.
Proof.
  intros H. destruct (c_cur_Some _ _ H) as (id & Hc & Hg & _).
  unfold c_cur, c_put_cur. rewrite Hc. simpl. rewrite Hc.
  apply c_get_put_same. congruence.
Qed.

Lemma c_cur_id_put_cur c a : c_cur_id (c_put_cur a c) = c_cur_id c.
Proof.
  unfold c_cur_id, c_put_cur. destruct (cur c) as [id|] eqn:Hc; simpl; rewrite Hc; [|reflexivity].
  destruct (c_get id c) eqn:Hg.
  - rewrite c_get_put_same; congruence.
  - unfold c_get, c_put in *. simpl.
    apply assoc_None in Hg. rewrite <- (ids_replace id a) in Hg.
    apply assoc_None in Hg. now rewrite Hg.
Qed.

Lemma c_put_cur_twice c a b : c_put_cur b (c_put_cur a c) = c_put_cur b c.
Proof.
  unfold c_put_cur. destruct (cur c) as [id|] eqn:Hc; simpl; rewrite Hc; [|reflexivity].
  unfold c_put. simpl. now rewrite replace_replace.
Qed.

Lemma c_get_put_cur_other c id id' a :
  cur c = Some id -> id' <> id -> c_get id' (c_put_cur a c) = c_get id' c.
Proof. intros Hc Hne. unfold c_put_cur. rewrite Hc. now apply c_get_put_other. Qed.

Lemma c_cur_add c id a :
  ~ In id (ids (items c)) -> c_cur (c_add id a c) = Some a.
Proof. intros H. unfold c_cur, c_add, c_get. simpl. now apply assoc_add_fresh. Qed.

Lemma c_cur_id_add c id a : c_cur_id (c_add id a c) = Some id.
Proof.
  unfold c_cur_id, c_add, c_get. simpl.
  destruct (assoc id (items c ++ [(id, a)])) eqn:E; [reflexivity|].
  apply assoc_None in E. exfalso. apply E. rewrite ids_app. apply in_or_app.
  right. now left.
Qed.

Lemma c_get_add_other c id id' a : id' <> id -> c_get id' (c_add id a c) = c_get id' c.
Proof. intros H. unfold c_get, c_add. simpl. now apply assoc_add_other. Qed.

Lemma c_get_add_fresh c id a :
  ~ In id (ids (items c)) -> c_get id (c_add id a c) = Some a.
Proof. intros H. unfold c_get, c_add. simpl. now apply assoc_add_fresh. Qed.

Lemma c_put_add_fresh c id a b :
  ~ In id (ids (items c)) -> c_put id b (c_add id a c) = c_add id b c.
Proof.
  intros H. unfold c_put, c_add. simpl. now rewrite replace_add_fresh.
Qed.

Lemma c_select_Some c id a :
  c_get id c = Some a -> c_select id c = Some (mkC (items c) (Some id)).
Proof. unfold c_select. now intros ->. Qed.

Lemma c_eta c : mkC (items c) (cur c) = c.
Proof. now destruct c. Qed.

End ContainerLaws.

Section WorldLaws.

Implicit Types (w : world) (W : window) (F : frame) (P : plot).

Lemma cur_window_put w W W' :
  cur_window w = Some W -> cur_window (put_cur_window W' w) = Some W'.
Proof. unfold cur_window, put_cur_window. simpl. apply c_cur_put_cur. Qed.

Lemma put_cur_window_twice w W1 W2 :
  put_cur_window W2 (put_cur_window W1 w) = put_cur_window W2 w.
Proof. unfold put_cur_window, with_windows. simpl. now rewrite c_put_cur_twice. Qed.

Lemma focused_window_put w W : focused_window (put_cur_window W w) = focused_window w.
Proof. unfold focused_window, put_cur_window. simpl. apply c_cur_id_put_cur. Qed.

Lemma undo_open_put w W : undo_open (put_cur_window W w) = undo_open w.
Proof. reflexivity. Qed.

Lemma stdout_put w W : stdout (put_cur_window W w) = stdout w.
Proof. reflexivity. Qed.

Lemma win_cur_frame_put W F F' :
  win_cur_frame W = Some F -> win_cur_frame (win_put_frame F' W) = Some F'.
Proof. unfold win_cur_frame, win_put_frame. simpl. apply c_cur_put_cur. Qed.

Lemma win_put_frame_twice W F1 F2 :
  win_put_frame F2 (win_put_frame F1 W) = win_put_frame F2 W.
Proof. unfold win_put_frame. simpl. now rewrite c_put_cur_twice. Qed.

Lemma win_cur_plot_put W P P' :
  win_cur_plot W = Some P -> win_cur_plot (win_put_plot P' W) = Some P'.
Proof.
  unfold win_cur_plot, win_put_plot. destruct (win_cur_frame W) as [F|] eqn:HF; [|discriminate].
  intros HP. rewrite (win_cur_frame_put _ _ _ HF). unfold frm_put_plot. simpl.
  now apply c_cur_put_cur with (b := P).
Qed.

Lemma win_put_plot_twice W P P1 P2 :
  win_cur_plot W = Some P ->
  win_put_plot P2 (win_put_plot P1 W) = win_put_plot P2 W.
Proof.
  unfold win_cur_plot, win_put_plot. destruct (win_cur_frame W) as [F|] eqn:HF; [|discriminate].
  intros _. rewrite (win_cur_frame_put _ _ _ HF), win_put_frame_twice.
  unfold frm_put_plot, with_plots. simpl. now rewrite c_put_cur_twice.
Qed.

(** What a call on the current window, frame or plot does. *)
Lemma on_window_ok {B} (f : window -> exn + B * window) w W b W' :
  cur_window w = Some W -> f W = inr (b, W') ->
  on_window f w = (Ok b, put_cur_window W' w).
Proof. intros HW Hf. unfold on_window. now rewrite HW, Hf. Qed.

Lemma on_frame_ok {B} (f : frame -> exn + B * frame) w W F b F' :
  cur_window w = Some W -> win_cur_frame W = Some F -> f F = inr (b, F') ->
  on_frame f w = (Ok b, put_cur_window (win_put_frame F' W) w).
Proof.
  intros HW HF Hf. unfold on_frame, cur_frame, put_cur_frame. now rewrite HW, HF, Hf.
Qed.

Lemma on_plot_ok {B} (f : plot -> exn + B * plot) w W P b P' :
  cur_window w = Some W -> win_cur_plot W = Some P -> f P = inr (b, P') ->
  on_plot f w = (Ok b, put_cur_window (win_put_plot P' W) w).
Proof.
  intros HW HP Hf. unfold on_plot, cur_plot, put_cur_plot. now rewrite HW, HP, Hf.
Qed.

End WorldLaws.

(** ** What the reports list *)

Section ReportLines.

Lemma names_of_app k l1 l2 : names_of k (l1 ++ l2) = names_of k l1 ++ names_of k l2.
Proof. unfold names_of. now rewrite filter_app, map_app. Qed.

Lemma names_of_cons k n k' id l :
  names_of k ((n, k', id) :: l)
  = if kind_eqb k k' then id :: names_of k l else names_of k l.
Proof. unfold names_of. simpl. now destruct (kind_eqb k k'). Qed.

Lemma names_of_flat_map {X} k (f : X -> list rline) (l : list X) :
  names_of k (flat_map f l) = flat_map (fun x => names_of k (f x)) l.
Proof.
  induction l as [|x l IH]; simpl; [reflexivity|].
  now rewrite names_of_app, IH.
Qed.

Lemma names_of_map {X} k n k' (l : list (string * X)) :
  names_of k (map (fun ia => (n, k', fst ia)) l)
  = if kind_eqb k k' then ids l else [].
Proof.
  induction l as [|x l IH]; simpl.
  - now destruct (kind_eqb k k').
  - rewrite names_of_cons, IH. now destruct (kind_eqb k k').
Qed.

Lemma names_of_axes k (l : list (string * haxis)) :
  kind_eqb k XAxis = false -> kind_eqb k YAxis = false ->
  names_of k (map (fun ia => (6, axis_kind (snd ia), fst ia)) l) = [].
Proof.
  intros HX HY. induction l as [|[i a] l IH]; simpl; [reflexivity|].
  rewrite names_of_cons, IH. unfold axis_kind. simpl.
  destruct (ax_dim a); now rewrite ?HX, ?HY.
Qed.

Lemma names_of_plot_lines k P :
  kind_eqb k XAxis = false -> kind_eqb k YAxis = false ->
  names_of k (plot_lines P)
  = (if kind_eqb k Curve then ids (items (plt_curves P)) else [])
    ++ (if kind_eqb k Point then ids (items (plt_points P)) else [])
    ++ (if kind_eqb k Label then ids (items (plt_labels P)) else [])
    ++ (if kind_eqb k Region then ids (items (plt_regions P)) else []).
Proof.
  intros HX HY. unfold plot_lines.
  now rewrite !names_of_app, names_of_axes, !names_of_map by assumption.
Qed.

Lemma ids_flat_map {X Y} (f : X -> list (string * Y)) (l : list X) :
  ids (flat_map f l) = flat_map (fun x => ids (f x)) l.
Proof.
  induction l as [|x l IH]; simpl; [reflexivity|].
  unfold ids in *. now rewrite map_app, IH.
Qed.

Lemma flat_map_single {X Y} (f : X -> Y) (l : list X) :
  flat_map (fun x => [f x]) l = map f l.
Proof. induction l; simpl; congruence. Qed.

Lemma flat_map_nil {X Y} (l : list X) : flat_map (fun _ => @nil Y) l = [].
Proof. induction l; simpl; auto. Qed.

Lemma names_of_window_info w : names_of Window (info_lines w) = ids (all_windows w).
Proof.
  unfold info_lines, all_windows. rewrite names_of_flat_map.
  rewrite (flat_map_ext _ (fun iw => [fst iw])); [apply flat_map_single|].
  intros [i W]. rewrite names_of_cons. simpl. f_equal.
  unfold window_lines. rewrite names_of_flat_map.
  rewrite (flat_map_ext _ (fun _ => [])); [apply flat_map_nil|].
  intros [j F]. rewrite names_of_cons. simpl.
  unfold frame_lines. rewrite names_of_flat_map.
  rewrite (flat_map_ext _ (fun _ => [])); [apply flat_map_nil|].
  intros [p P]. rewrite names_of_cons. simpl.
  now rewrite names_of_plot_lines.
Qed.

Lemma names_of_frame_info w : names_of Frame (info_lines w) = ids (all_frames w).
Proof.
  unfold info_lines, all_frames, all_windows.
  rewrite names_of_flat_map, ids_flat_map. apply flat_map_ext.
  intros [i W]. rewrite names_of_cons. simpl.
  unfold window_lines. rewrite names_of_flat_map.
  rewrite (flat_map_ext _ (fun jf => [fst jf])); [apply flat_map_single|].
  intros [j F]. rewrite names_of_cons. simpl. f_equal.
  unfold frame_lines. rewrite names_of_flat_map.
  rewrite (flat_map_ext _ (fun _ => [])); [apply flat_map_nil|].
  intros [p P]. rewrite names_of_cons. simpl.
  now rewrite names_of_plot_lines.
Qed.

Lemma flat_map_flat_map {X Y Z} (f : X -> list Y) (g : Y -> list Z) (l : list X) :
  flat_map g (flat_map f l) = flat_map (fun x => flat_map g (f x)) l.
Proof.
  induction l as [|x l IH]; simpl; [reflexivity|].
  now rewrite flat_map_app, IH.
Qed.

Lemma names_of_plot_frame F : names_of Plot (frame_lines F) = ids (items (frm_plots F)).
Proof.
  unfold frame_lines. rewrite names_of_flat_map.
  rewrite (flat_map_ext _ (fun ip => [fst ip])); [apply flat_map_single|].
  intros [p P]. rewrite names_of_cons. simpl. now rewrite names_of_plot_lines.
Qed.

Lemma names_of_curve_frame F :
  names_of Curve (frame_lines F)
  = ids (flat_map (fun ip => items (plt_curves (snd ip))) (items (frm_plots F))).
Proof.
  unfold frame_lines. rewrite names_of_flat_map, ids_flat_map. apply flat_map_ext.
  intros [p P]. rewrite names_of_cons. simpl.
  rewrite names_of_plot_lines by reflexivity. simpl. now rewrite app_nil_r.
Qed.

Lemma names_of_plot_window W :
  names_of Plot (window_lines W)
  = ids (flat_map (fun jf => items (frm_plots (snd jf))) (items (win_frames W))).
Proof.
  unfold window_lines. rewrite names_of_flat_map, ids_flat_map. apply flat_map_ext.
  intros [j F]. rewrite names_of_cons. simpl. apply names_of_plot_frame.
Qed.

Lemma names_of_curve_window W :
  names_of Curve (window_lines W)
  = ids (flat_map (fun ip => items (plt_curves (snd ip)))
                  (flat_map (fun jf => items (frm_plots (snd jf))) (items (win_frames W)))).
Proof.
  unfold window_lines. rewrite names_of_flat_map, flat_map_flat_map, ids_flat_map.
  apply flat_map_ext.
  intros [j F]. rewrite names_of_cons. simpl. apply names_of_curve_frame.
Qed.

Lemma names_of_plot_info w : names_of Plot (info_lines w) = ids (all_plots w).
Proof.
  unfold info_lines, all_plots, all_frames, all_windows.
  rewrite names_of_flat_map, flat_map_flat_map, ids_flat_map. apply flat_map_ext.
  intros [i W]. rewrite names_of_cons. simpl. apply names_of_plot_window.
Qed.

Lemma names_of_curve_info w : names_of Curve (info_lines w) = ids (all_curves w).
Proof.
  unfold info_lines, all_curves, all_plots, all_frames, all_windows.
  rewrite names_of_flat_map, !flat_map_flat_map, ids_flat_map. apply flat_map_ext.
  intros [i W]. rewrite names_of_cons. simpl.
  rewrite names_of_curve_window. now rewrite flat_map_flat_map.
Qed.

End ReportLines.

Section Tokens.

Lemma wf_items_assoc {A} (wfA : A -> bool) (l : list (string * A)) id a :
  wf_items wfA l = true -> assoc id l = Some a ->
  token id = true /\ wfA a = true.
Proof.
  unfold wf_items. intros Hwf Ha. apply assoc_In in Ha.
  rewrite forallb_forall in Hwf. specialize (Hwf _ Ha). simpl in Hwf.
  now apply andb_true_iff in Hwf.
Qed.

Lemma wf_items_replace {A} (wfA : A -> bool) (l : list (string * A)) id a :
  wf_items wfA l = true -> wfA a = true -> wf_items wfA (replace id a l) = true.
Proof.
  unfold wf_items. intros Hwf Ha. induction l as [|[k x] l IH]; simpl; [reflexivity|].
  simpl in Hwf. apply andb_true_iff in Hwf as [Hkx Hl].
  apply andb_true_iff in Hkx as [Hk Hx].
  destruct (String.eqb id k); simpl.
  - now rewrite Hk, Ha, Hl.
  - now rewrite Hk, Hx, IH.
Qed.

Lemma wf_items_add {A} (wfA : A -> bool) (l : list (string * A)) id a :
  wf_items wfA l = true -> token id = true -> wfA a = true ->
  wf_items wfA (l ++ [(id, a)]) = true.
Proof.
  unfold wf_items. intros Hwf Hid Ha. rewrite forallb_app, Hwf. simpl.
  now rewrite Hid, Ha.
Qed.

Lemma c_cur_id_get {A} (c : container A) id :
  c_cur_id c = Some id -> cur c = Some id /\ exists a, c_get id c = Some a.
Proof.
  unfold c_cur_id. destruct (cur c) as [i|]; [|discriminate].
  destruct (c_get i c) as [a|] eqn:E; [|discriminate].
  intros [= <-]. eauto.
Qed.

Lemma tokens_map {A} (wfA : A -> bool) (l : list (string * A)) (f : string * A -> rline) :
  (forall ia, snd (f ia) = fst ia) ->
  wf_items wfA l = true ->
  Forall (fun l => token (snd l) = true) (map f l).
Proof.
  intros Hf Hwf. unfold wf_items in Hwf. rewrite forallb_forall in Hwf.
  apply Forall_forall. intros x Hx. apply in_map_iff in Hx as (ia & <- & Hia).
  rewrite Hf. specialize (Hwf _ Hia). now apply andb_true_iff in Hwf.
Qed.

Lemma tokens_flat_map {A} (wfA : A -> bool) (l : list (string * A))
      (f : string * A -> list rline) :
  (forall ia, token (fst ia) = true -> wfA (snd ia) = true ->
              Forall (fun l => token (snd l) = true) (f ia)) ->
  wf_items wfA l = true ->
  Forall (fun l => token (snd l) = true) (flat_map f l).
Proof.
  intros Hf Hwf. unfold wf_items in Hwf. rewrite forallb_forall in Hwf.
  apply Forall_flat_map, Forall_forall. intros ia Hia.
  specialize (Hwf _ Hia). apply andb_true_iff in Hwf as [? ?]. auto.
Qed.

Lemma tokens_plot_lines P :
  wf_plot P = true -> Forall (fun l => token (snd l) = true) (plot_lines P).
Proof.
  unfold wf_plot, plot_lines. intros H.
  repeat (apply andb_true_iff in H as [H ?]).
  repeat (apply Forall_app; split);
    eapply tokens_map; try eassumption; reflexivity.
Qed.

Lemma tokens_frame_lines F :
  wf_frame F = true -> Forall (fun l => token (snd l) = true) (frame_lines F).
Proof.
  unfold wf_frame, frame_lines. apply tokens_flat_map.
  intros [p P] Hp HP. constructor; [exact Hp | now apply tokens_plot_lines].
Qed.

Lemma tokens_window_lines W :
  wf_window W = true -> Forall (fun l => token (snd l) = true) (window_lines W).
Proof.
  unfold wf_window, window_lines. apply tokens_flat_map.
  intros [j F] Hj HF. constructor; [exact Hj | now apply tokens_frame_lines].
Qed.

Lemma tokens_info_lines w :
  wf_world w = true -> Forall (fun l => token (snd l) = true) (info_lines w).
Proof.
  unfold wf_world, info_lines. apply tokens_flat_map.
  intros [i W] Hi HW. constructor; [exact Hi | now apply tokens_window_lines].
Qed.

Lemma tokens_opt_line {A} (wfA : A -> bool) (c : container A) n k :
  wf_items wfA (items c) = true ->
  Forall (fun l => token (snd l) = true) (opt_line n k (c_cur_id c)).
Proof.
  intros Hwf. destruct (c_cur_id c) as [id|] eqn:E; simpl; constructor; [|constructor].
  apply c_cur_id_get in E as (_ & a & Ha).
  now destruct (wf_items_assoc _ _ _ _ Hwf Ha).
Qed.

Lemma tokens_plot_cur_lines P :
  wf_plot P = true -> Forall (fun l => token (snd l) = true) (plot_cur_lines P).
Proof.
  unfold wf_plot, plot_cur_lines. intros H.
  repeat (apply andb_true_iff in H as [H ?]).
  repeat (apply Forall_app; split); try (eapply tokens_opt_line; eassumption).
  unfold axis_cur_line. destruct (cur (plt_axes P)) as [id|]; [|constructor].
  destruct (c_get id (plt_axes P)) as [a|] eqn:E; constructor; [|constructor].
  now destruct (wf_items_assoc _ _ _ _ H E).
Qed.

Lemma tokens_frame_cur_lines F :
  wf_frame F = true -> Forall (fun l => token (snd l) = true) (frame_cur_lines F).
Proof.
  unfold wf_frame, frame_cur_lines. intros H.
  destruct (c_cur_id (frm_plots F)) as [pid|] eqn:E; [|constructor].
  destruct (c_cur (frm_plots F)) as [P|] eqn:EP; [|constructor].
  apply c_cur_id_get in E as (Hc & a & Ha).
  unfold c_cur in EP. rewrite Hc, Ha in EP. injection EP as ->.
  destruct (wf_items_assoc _ _ _ _ H Ha). constructor; [assumption|].
  now apply tokens_plot_cur_lines.
Qed.

Lemma tokens_window_cur_lines W :
  wf_window W = true -> Forall (fun l => token (snd l) = true) (window_cur_lines W).
Proof.
  unfold wf_window, window_cur_lines. intros H.
  destruct (c_cur_id (win_frames W)) as [fid|] eqn:E; [|constructor].
  destruct (c_cur (win_frames W)) as [F|] eqn:EF; [|constructor].
  apply c_cur_id_get in E as (Hc & a & Ha).
  unfold c_cur in EF. rewrite Hc, Ha in EF. injection EF as ->.
  destruct (wf_items_assoc _ _ _ _ H Ha). constructor; [assumption|].
  now apply tokens_frame_cur_lines.
Qed.

Lemma tokens_info_current_lines w :
  wf_world w = true -> Forall (fun l => token (snd l) = true) (info_current_lines w).
Proof.
  unfold wf_world, info_current_lines. intros H.
  destruct (c_cur_id (windows w)) as [wid|] eqn:E; [|constructor].
  destruct (c_cur (windows w)) as [W|] eqn:EW; [|constructor].
  apply c_cur_id_get in E as (Hc & a & Ha).
  unfold c_cur in EW. rewrite Hc, Ha in EW. injection EW as ->.
  destruct (wf_items_assoc _ _ _ _ H Ha). constructor; [assumption|].
  now apply tokens_window_cur_lines.
Qed.

End Tokens.

Section CurrentLines.

Import Legend.

Lemma names_of_opt_line k n k' o :
  names_of k (opt_line n k' o) = if kind_eqb k k' then opt_list o else [].
Proof. destruct o; simpl; [rewrite names_of_cons|]; now destruct (kind_eqb k k'). Qed.

Lemma names_of_axis_cur_line k c :
  kind_eqb k XAxis = false -> kind_eqb k YAxis = false ->
  names_of k (axis_cur_line c) = [].
Proof.
  intros HX HY. unfold axis_cur_line.
  destruct (cur c) as [id|]; [|reflexivity].
  destruct (c_get id c) as [a|]; [|reflexivity].
  rewrite names_of_cons. unfold axis_kind. destruct (ax_dim a); now rewrite ?HX, ?HY.
Qed.

Lemma names_of_plot_cur_lines k P :
  kind_eqb k XAxis = false -> kind_eqb k YAxis = false ->
  names_of k (plot_cur_lines P)
  = (if kind_eqb k Curve then opt_list (c_cur_id (plt_curves P)) else [])
    ++ (if kind_eqb k Point then opt_list (c_cur_id (plt_points P)) else [])
    ++ (if kind_eqb k Label then opt_list (c_cur_id (plt_labels P)) else [])
    ++ (if kind_eqb k Region then opt_list (c_cur_id (plt_regions P)) else []).
Proof.
  intros HX HY. unfold plot_cur_lines.
  now rewrite !names_of_app, names_of_axis_cur_line, !names_of_opt_line by assumption.
Qed.

Lemma info_current_lines_window w wid W :
  focused_window w = Some wid -> cur_window w = Some W ->
  info_current_lines w = (0, Window, wid) :: window_cur_lines W.
Proof.
  unfold focused_window, cur_window, info_current_lines. now intros -> ->.
Qed.

Lemma window_cur_lines_frame W fid F :
  c_cur_id (win_frames W) = Some fid -> win_cur_frame W = Some F ->
  window_cur_lines W = (2, Frame, fid) :: frame_cur_lines F.
Proof. unfold win_cur_frame, window_cur_lines. now intros -> ->. Qed.

Lemma frame_cur_lines_plot F pid P :
  c_cur_id (frm_plots F) = Some pid -> c_cur (frm_plots F) = Some P ->
  frame_cur_lines F = (4, Plot, pid) :: plot_cur_lines P.
Proof. unfold frame_cur_lines. now intros -> ->. Qed.

Lemma names_of_frame_cur_lines_upper k F :
  kind_eqb k Plot = false -> kind_eqb k XAxis = false -> kind_eqb k YAxis = false ->
  kind_eqb k Curve = false -> kind_eqb k Point = false -> kind_eqb k Label = false ->
  kind_eqb k Region = false ->
  names_of k (frame_cur_lines F) = [].
Proof.
  intros. unfold frame_cur_lines.
  destruct (c_cur_id (frm_plots F)); [|reflexivity].
  destruct (c_cur (frm_plots F)); [|reflexivity].
  rewrite names_of_cons, names_of_plot_cur_lines by assumption.
  repeat match goal with H : kind_eqb _ _ = false |- _ => rewrite H; clear H end.
  reflexivity.
Qed.

(** The lookups on a world with a focus. *)
Lemma lookup_current k w ns id :
  wf_world w = true ->
  names_of k (info_current_lines w) = ns ++ [id] ->
  _get_current_object_name (tag k) w = (Ok id, w).
Proof.
  intros Hwf Hn. eapply current_name_lines; [|eassumption].
  now apply tokens_info_current_lines.
Qed.

Lemma lookup_current_window w wid W :
  wf_world w = true -> focused_window w = Some wid -> cur_window w = Some W ->
  _get_current_object_name "Window" w = (Ok wid, w).
Proof.
  intros Hwf Hf HW. apply (lookup_current Window w []); [assumption|].
  rewrite (info_current_lines_window _ _ _ Hf HW), names_of_cons. simpl. f_equal.
  unfold window_cur_lines.
  destruct (c_cur_id (win_frames W)); [|reflexivity].
  destruct (c_cur (win_frames W)); [|reflexivity].
  rewrite names_of_cons. simpl. now apply names_of_frame_cur_lines_upper.
Qed.

Lemma lookup_current_frame w wid W fid F :
  wf_world w = true -> focused_window w = Some wid -> cur_window w = Some W ->
  c_cur_id (win_frames W) = Some fid -> win_cur_frame W = Some F ->
  _get_current_object_name "Frame" w = (Ok fid, w).
Proof.
  intros Hwf Hf HW Hfid HF. apply (lookup_current Frame w []); [assumption|].
  rewrite (info_current_lines_window _ _ _ Hf HW), names_of_cons. simpl.
  rewrite (window_cur_lines_frame _ _ _ Hfid HF), names_of_cons. simpl. f_equal.
  now apply names_of_frame_cur_lines_upper.
Qed.

Lemma lookup_current_plot w wid W fid F pid P :
  wf_world w = true -> focused_window w = Some wid -> cur_window w = Some W ->
  c_cur_id (win_frames W) = Some fid -> win_cur_frame W = Some F ->
  c_cur_id (frm_plots F) = Some pid -> c_cur (frm_plots F) = Some P ->
  _get_current_object_name "Plot" w = (Ok pid, w).
Proof.
  intros Hwf Hf HW Hfid HF Hpid HP. apply (lookup_current Plot w []); [assumption|].
  rewrite (info_current_lines_window _ _ _ Hf HW), names_of_cons. simpl.
  rewrite (window_cur_lines_frame _ _ _ Hfid HF), names_of_cons. simpl.
  rewrite (frame_cur_lines_plot _ _ _ Hpid HP), names_of_cons. simpl. f_equal.
  now rewrite names_of_plot_cur_lines.
Qed.

Lemma c_cur_id_of_cur {A} (c : container A) a :
  c_cur c = Some a -> exists id, c_cur_id c = Some id.
Proof. intros H. destruct (c_cur_Some _ _ H) as (id & _ & _ & E). eauto. Qed.

Lemma names_of_current_in_plot k w W P :
  kind_eqb k Window = false -> kind_eqb k Frame = false -> kind_eqb k Plot = false ->
  kind_eqb k XAxis = false -> kind_eqb k YAxis = false ->
  cur_window w = Some W -> win_cur_plot W = Some P ->
  names_of k (info_current_lines w) = names_of k (plot_cur_lines P).
Proof.
  intros H1 H2 H3 H4 H5 HW HP.
  destruct (c_cur_id_of_cur _ _ HW) as [wid Hwid].
  rewrite (info_current_lines_window _ _ _ Hwid HW), names_of_cons, H1.
  unfold win_cur_plot in HP. destruct (win_cur_frame W) as [F|] eqn:HF; [|discriminate].
  destruct (c_cur_id_of_cur _ _ HF) as [fid Hfid].
  rewrite (window_cur_lines_frame _ _ _ Hfid HF), names_of_cons, H2.
  destruct (c_cur_id_of_cur _ _ HP) as [pid Hpid].
  now rewrite (frame_cur_lines_plot _ _ _ Hpid HP), names_of_cons, H3.
Qed.

Lemma lookup_current_curve w W P id :
  wf_world w = true -> cur_window w = Some W -> win_cur_plot W = Some P ->
  c_cur_id (plt_curves P) = Some id ->
  _get_current_object_name "Curve" w = (Ok id, w).
Proof.
  intros Hwf HW HP Hid. apply (lookup_current Curve w []); [assumption|].
  rewrite (names_of_current_in_plot Curve w W P) by (reflexivity || assumption).
  rewrite names_of_plot_cur_lines by reflexivity. simpl. now rewrite Hid.
Qed.

Lemma lookup_current_point w W P id :
  wf_world w = true -> cur_window w = Some W -> win_cur_plot W = Some P ->
  c_cur_id (plt_points P) = Some id ->
  _get_current_object_name "Point" w = (Ok id, w).
Proof.
  intros Hwf HW HP Hid. apply (lookup_current Point w []); [assumption|].
  rewrite (names_of_current_in_plot Point w W P) by (reflexivity || assumption).
  rewrite names_of_plot_cur_lines by reflexivity. simpl. now rewrite Hid.
Qed.

Lemma lookup_current_label w W P id :
  wf_world w = true -> cur_window w = Some W -> win_cur_plot W = Some P ->
  c_cur_id (plt_labels P) = Some id ->
  _get_current_object_name "Label" w = (Ok id, w).
Proof.
  intros Hwf HW HP Hid. apply (lookup_current Label w []); [assumption|].
  rewrite (names_of_current_in_plot Label w W P) by (reflexivity || assumption).
  rewrite names_of_plot_cur_lines by reflexivity. simpl. now rewrite Hid.
Qed.

Lemma info_lines_nonempty w : items (windows w) <> [] -> info_lines w <> [].
Proof.
  unfold info_lines. destruct (items (windows w)); [congruence | discriminate].
Qed.

Lemma lookup_all k w :
  wf_world w = true -> items (windows w) <> [] ->
  _get_all_object_name (tag k) w = (Ok (names_of k (info_lines w)), w).
Proof.
  intros Hwf Hne. apply all_names_lines;
    [now apply tokens_info_lines | now apply info_lines_nonempty].
Qed.

Lemma lookup_all_none name w :
  items (windows w) = [] ->
  _get_all_object_name name w = (Raise (RuntimeError (no_objects_msg name)), w).
Proof.
  intros H. unfold _get_all_object_name, bind, info, info_lines. now rewrite H.
Qed.

End CurrentLines.

Section WellFormed.

Lemma wf_cur_window w W :
  wf_world w = true -> cur_window w = Some W -> wf_window W = true.
Proof.
  intros Hwf HW. destruct (c_cur_Some _ _ HW) as (id & _ & Hg & _).
  now destruct (wf_items_assoc _ _ _ _ Hwf Hg).
Qed.

Lemma wf_win_cur_frame W F :
  wf_window W = true -> win_cur_frame W = Some F -> wf_frame F = true.
Proof.
  intros Hwf HF. destruct (c_cur_Some _ _ HF) as (id & _ & Hg & _).
  now destruct (wf_items_assoc _ _ _ _ Hwf Hg).
Qed.

Lemma wf_win_cur_plot W P :
  wf_window W = true -> win_cur_plot W = Some P -> wf_plot P = true.
Proof.
  unfold win_cur_plot. intros Hwf HP.
  destruct (win_cur_frame W) as [F|] eqn:HF; [|discriminate].
  pose proof (wf_win_cur_frame _ _ Hwf HF) as HwF.
  destruct (c_cur_Some _ _ HP) as (id & _ & Hg & _).
  now destruct (wf_items_assoc _ _ _ _ HwF Hg).
Qed.

Lemma wf_items_put_cur {A} (wfA : A -> bool) (c : container A) a :
  wf_items wfA (items c) = true -> wfA a = true ->
  wf_items wfA (items (c_put_cur a c)) = true.
Proof.
  intros Hc Ha. unfold c_put_cur. destruct (cur c); [|assumption].
  now apply wf_items_replace.
Qed.

Lemma wf_put_cur_window w W :
  wf_world w = true -> wf_window W = true -> wf_world (put_cur_window W w) = true.
Proof. intros. now apply wf_items_put_cur. Qed.

Lemma wf_win_put_frame W F :
  wf_window W = true -> wf_frame F = true -> wf_window (win_put_frame F W) = true.
Proof. intros. now apply wf_items_put_cur. Qed.

Lemma wf_win_put_plot W P :
  wf_window W = true -> wf_plot P = true -> wf_window (win_put_plot P W) = true.
Proof.
  intros HW HP. unfold win_put_plot.
  destruct (win_cur_frame W) as [F|] eqn:HF; [|assumption].
  apply wf_win_put_frame; [assumption|].
  apply wf_items_put_cur; [|assumption].
  exact (wf_win_cur_frame _ _ HW HF).
Qed.

End WellFormed.

(** ** Worlds that hold a legend *)

Section LegendWorld.

Import Legend.

Variables (wid fid lid lpid : string) (F FL : frame).
Hypothesis lid_fid : lid <> fid.

Let WL (PL : plot) : window :=
  mkWindow (two fid F lid (with_plots (one lpid PL) FL) lid).

Lemma eqb_lid_fid : String.eqb lid fid = false.
Proof. now apply String.eqb_neq. Qed.

Lemma cur_window_legend_world PL u out mv :
  cur_window (legend_world wid fid F lid FL lpid PL u out mv) = Some (WL PL).
Proof.
  unfold cur_window, legend_world, one, c_cur, c_get. simpl.
  now rewrite String.eqb_refl.
Qed.

Lemma win_cur_frame_WL PL :
  win_cur_frame (WL PL) = Some (with_plots (one lpid PL) FL).
Proof.
  unfold win_cur_frame, WL, two, c_cur, c_get. simpl.
  now rewrite eqb_lid_fid, String.eqb_refl.
Qed.

Lemma win_cur_plot_WL PL : win_cur_plot (WL PL) = Some PL.
Proof.
  unfold win_cur_plot. rewrite win_cur_frame_WL.
  unfold with_plots, one, c_cur, c_get. simpl. now rewrite String.eqb_refl.
Qed.

Lemma win_put_plot_WL PL PL' : win_put_plot PL' (WL PL) = WL PL'.
Proof.
  unfold win_put_plot. rewrite win_cur_frame_WL.
  unfold win_put_frame, frm_put_plot, WL, two, one, with_plots, c_put_cur, c_put. simpl.
  now rewrite eqb_lid_fid, !String.eqb_refl.
Qed.

Lemma put_cur_window_legend_world PL PL' u out mv :
  put_cur_window (WL PL') (legend_world wid fid F lid FL lpid PL u out mv)
  = legend_world wid fid F lid FL lpid PL' u out mv.
Proof.
  unfold put_cur_window, legend_world, with_windows, one, c_put_cur, c_put. simpl.
  now rewrite String.eqb_refl.
Qed.

(** A call on the current plot works on the legend's plot. *)
Lemma on_plot_legend_world {B} (f : plot -> exn + B * plot) PL b PL' u out mv :
  f PL = inr (b, PL') ->
  on_plot f (legend_world wid fid F lid FL lpid PL u out mv)
  = (Ok b, legend_world wid fid F lid FL lpid PL' u out mv).
Proof.
  intros Hf.
  rewrite (on_plot_ok f _ _ _ _ _ (cur_window_legend_world _ _ _ _)
                      (win_cur_plot_WL _) Hf).
  now rewrite win_put_plot_WL, put_cur_window_legend_world.
Qed.

Lemma wf_legend_world PL u out mv :
  token wid = true -> token fid = true -> token lid = true -> token lpid = true ->
  wf_frame F = true -> wf_plot PL = true ->
  wf_world (legend_world wid fid F lid FL lpid PL u out mv) = true.
Proof.
  intros H1 H2 H3 H4 H5 H6.
  unfold wf_world, legend_world, one, two, wf_items. simpl.
  unfold wf_window, wf_items. simpl.
  unfold wf_frame at 2. unfold wf_items. simpl.
  now rewrite H1, H2, H3, H4, H5, H6.
Qed.

Lemma lookup_curve_legend_world PL u out mv id :
  wf_world (legend_world wid fid F lid FL lpid PL u out mv) = true ->
  c_cur_id (plt_curves PL) = Some id ->
  _get_current_object_name "Curve" (legend_world wid fid F lid FL lpid PL u out mv)
  = (Ok id, legend_world wid fid F lid FL lpid PL u out mv).
Proof.
  intros Hwf Hid. eapply lookup_current_curve; eauto using cur_window_legend_world, win_cur_plot_WL.
Qed.

Lemma lookup_point_legend_world PL u out mv id :
  wf_world (legend_world wid fid F lid FL lpid PL u out mv) = true ->
  c_cur_id (plt_points PL) = Some id ->
  _get_current_object_name "Point" (legend_world wid fid F lid FL lpid PL u out mv)
  = (Ok id, legend_world wid fid F lid FL lpid PL u out mv).
Proof.
  intros Hwf Hid. eapply lookup_current_point; eauto using cur_window_legend_world, win_cur_plot_WL.
Qed.

Lemma lookup_label_legend_world PL u out mv id :
  wf_world (legend_world wid fid F lid FL lpid PL u out mv) = true ->
  c_cur_id (plt_labels PL) = Some id ->
  _get_current_object_name "Label" (legend_world wid fid F lid FL lpid PL u out mv)
  = (Ok id, legend_world wid fid F lid FL lpid PL u out mv).
Proof.
  intros Hwf Hid. eapply lookup_current_label; eauto using cur_window_legend_world, win_cur_plot_WL.
Qed.

End LegendWorld.

Section Drawing.

Import Legend.
Local Open Scope py_scope.

Lemma bind_ok {A B} (m : M A) (f : A -> M B) w a w' :
  m w = (Ok a, w') -> bind m f w = f a w'.
Proof. unfold bind. now intros ->. Qed.

Lemma bind_raise {A B} (m : M A) (f : A -> M B) w e w' :
  m w = (Raise e, w') -> bind m f w = (Raise e, w').
Proof. unfold bind. now intros ->. Qed.

Lemma item_ok {A} (l : list A) i a w :
  nth_error l i = Some a -> item l i w = (Ok a, w).
Proof. unfold item. now intros ->. Qed.

Lemma wf_plot_add_curve P id c :
  wf_plot P = true -> token id = true ->
  wf_plot (with_curves (c_add id c (plt_curves P)) P) = true.
Proof.
  unfold wf_plot. simpl. intros H Hid.
  repeat (apply andb_true_iff in H as [H ?]).
  repeat (apply andb_true_iff; split); try assumption.
  now apply wf_items_add.
Qed.

Lemma wf_draw_entry_plot reverse n e P :
  wf_plot P = true -> wf_plot (draw_entry_plot reverse n e P) = true.
Proof.
  unfold wf_plot, draw_entry_plot. simpl. intros H.
  repeat (apply andb_true_iff in H as [H ?]).
  repeat (apply andb_true_iff; split); try assumption;
    apply wf_items_add; try assumption; try reflexivity;
    now apply fresh_id_token.
Qed.

End Drawing.
Section DrawStep.
Import Legend.
Local Open Scope py_scope.
Variables (wid fid lid lpid : string) (F FL : frame).
Hypothesis lid_fid : lid <> fid.
Hypotheses (Twid : token wid = true) (Tfid : token fid = true)
           (Tlid : token lid = true) (Tlpid : token lpid = true)
           (WF : wf_frame F = true).

Ltac solve_wf_plot H :=
  let H' := fresh in
  pose proof H as H'; unfold wf_plot in H' |- *;
  cbn [with_curves with_points with_labels with_axes with_regions
       plt_attr plt_axes plt_curves plt_points plt_labels plt_regions
       c_add c_put_cur items cur];
  repeat (apply andb_true_iff in H' as [H' ?]);
  repeat (apply andb_true_iff; split); try assumption;
  repeat (apply wf_items_add; try assumption; try reflexivity;
          try (apply fresh_id_token; reflexivity)).

Ltac step_on_plot :=
  erewrite bind_ok;
  [|apply (on_plot_legend_world _ _ _ _ _ _ lid_fid); reflexivity].

Lemma draw_entry_step e self PL u out mv :
  nth_error (lgnd self) (fst e) = Some (snd e) ->
  wf_plot PL = true ->
  _draw_entry e self (legend_world wid fid F lid FL lpid PL u out mv)
  = (Ok (draw_entry_self PL self),
     legend_world wid fid F lid FL lpid
       (draw_entry_plot (_reverse self) (List.length (lgnd self)) e PL) u out mv).
Proof.
  intros Hnth HPL. unfold _draw_entry.
  rewrite (bind_ok _ _ _ _ _ (item_ok _ _ _ _ Hnth)).
  unfold add_curve. step_on_plot.
  pose proof (fresh_id_fresh "crv" (ids (items (plt_curves PL)))) as Hc.
  set (cid := fresh_id "crv" (ids (items (plt_curves PL)))) in *.
  erewrite bind_ok;
    [|apply (lookup_curve_legend_world _ _ _ _ _ _ lid_fid);
      [apply wf_legend_world; try assumption; solve_wf_plot HPL
      | apply c_cur_id_add]].
  unfold set_curve.
  erewrite bind_ok;
    [|apply (on_plot_legend_world _ _ _ _ _ _ lid_fid);
      cbn [with_curves plt_curves c_add cur];
      fold (c_add cid (mkHCurve [0.25; 1]%Q
         [inject_Z (slot (_reverse self) (List.length (lgnd self)) (fst e));
          inject_Z (slot (_reverse self) (List.length (lgnd self)) (fst e))] (snd e)) (plt_curves PL));
      rewrite (c_get_add_fresh _ _ _ Hc); cbn beta iota;
      cbn [crv_attr crv_x crv_y];
      change (apply_curve_arg (AttrString "symbol.style=none") (snd e))
        with (@inr exn _ (set_symbol_style (PyStr "none") (snd e)));
      cbn beta iota; rewrite (c_put_add_fresh _ _ _ _ Hc); reflexivity].
  cbn [lgnd set_lgnd_crvs].
  rewrite (bind_ok _ _ _ _ _ (item_ok _ _ _ _ Hnth)).
  unfold add_point. step_on_plot.
  erewrite bind_ok;
    [|apply (lookup_point_legend_world _ _ _ _ _ _ lid_fid);
      [apply wf_legend_world; try assumption; solve_wf_plot HPL
      | apply c_cur_id_add]].
  unfold add_label. step_on_plot.
  erewrite bind_ok;
    [|apply (lookup_label_legend_world _ _ _ _ _ _ lid_fid);
      [apply wf_legend_world; try assumption; solve_wf_plot HPL
      | apply c_cur_id_add]].
  reflexivity.
Qed.

Lemma ids_c_add {A} (c : container A) id a :
  ids (items (c_add id a c)) = ids (items c) ++ [id].
Proof. unfold c_add. simpl. now rewrite ids_app. Qed.

Lemma draw_loop es : forall self PL u out mv,
  Forall (fun e => nth_error (lgnd self) (fst e) = Some (snd e)) es ->
  wf_plot PL = true ->
  for_each es _draw_entry self (legend_world wid fid F lid FL lpid PL u out mv)
  = (Ok (drawn_self (List.length es) PL self),
     legend_world wid fid F lid FL lpid
       (drawn_plot (_reverse self) (List.length (lgnd self)) es PL) u out mv).
Proof.
  induction es as [|e es IH]; intros self PL u out mv Hall HPL.
  - simpl. unfold ret, drawn_self, drawn_plot. simpl. rewrite !app_nil_r.
    destruct self, PL. reflexivity.
  - inversion Hall as [|? ? He Hes]; subst.
    cbn [for_each]. rewrite (bind_ok _ _ _ _ _ (draw_entry_step e self PL u out mv He HPL)).
    rewrite IH; [|exact Hes | now apply wf_draw_entry_plot].
    unfold drawn_self, drawn_plot, draw_entry_self, draw_entry_plot.
    cbn [lgnd _reverse set_lgnd_crvs set_lgnd_pnts set_lgnd_lbls lgnd_crvs lgnd_pnts
         lgnd_lbls orig_win orig_frm orig_plot usr_crvs frm
         plt_attr plt_axes plt_curves plt_points plt_labels plt_regions
         map add_all new_ids List.length].
    rewrite !ids_c_add, <- !app_assoc. reflexivity.
Qed.

End DrawStep.
Section NewIds.

Lemma new_ids_length stem n : forall used, List.length (new_ids stem used n) = n.
Proof. induction n as [|n IH]; intros used; simpl; [reflexivity | now rewrite IH]. Qed.

Lemma add_all_items {A} stem (xs : list A) : forall c,
  items (add_all stem xs c)
  = items c ++ combine (new_ids stem (ids (items c)) (List.length xs)) xs.
Proof.
  induction xs as [|x xs IH]; intros c; simpl; [now rewrite app_nil_r|].
  rewrite IH, ids_c_add. unfold c_add at 1. simpl. now rewrite <- app_assoc.
Qed.

Lemma ids_combine {A} (l : list string) (xs : list A) :
  List.length l = List.length xs -> ids (combine l xs) = l.
Proof.
  revert xs. induction l as [|i l IH]; intros [|x xs] H; simpl in *; try discriminate;
    [reflexivity|]. now rewrite IH by lia.
Qed.

Lemma add_all_ids {A} stem (xs : list A) c :
  ids (items (add_all stem xs c))
  = ids (items c) ++ new_ids stem (ids (items c)) (List.length xs).
Proof.
  rewrite add_all_items, ids_app, ids_combine; [reflexivity|].
  apply new_ids_length.
Qed.

Lemma new_ids_NoDup stem n : forall used,
  NoDup used -> NoDup (used ++ new_ids stem used n).
Proof.
  induction n as [|n IH]; intros used Hnd; simpl; [now rewrite app_nil_r|].
  change (fresh_id stem used :: new_ids stem (used ++ [fresh_id stem used]) n)
    with ([fresh_id stem used] ++ new_ids stem (used ++ [fresh_id stem used]) n).
  rewrite app_assoc. apply IH.
  apply NoDup_app; [assumption | repeat constructor; intros [] |].
  intros x Hx [<-|[]]. exact (fresh_id_fresh _ _ Hx).
Qed.

Lemma new_ids_tokens stem n : forall used,
  token stem = true -> Forall (fun i => token i = true) (new_ids stem used n).
Proof.
  induction n as [|n IH]; intros used H; simpl; constructor;
    [now apply fresh_id_token | now apply IH].
Qed.

End NewIds.
Section Construction.
Import Legend.
Local Open Scope py_scope.
Variables (wid fid pid : string) (F : frame) (P : plot).
Hypotheses (Twid : token wid = true) (Tfid : token fid = true)
           (Tpid : token pid = true) (WP : wf_plot P = true).

Let F0 : frame := with_plots (one pid P) F.
Let SW u out mv : world := simple_world wid fid F pid P u out mv.

Lemma wf_simple_world u out mv : wf_world (SW u out mv) = true.
Proof.
  unfold SW, simple_world, wf_world, wf_items, one. simpl.
  unfold wf_window, wf_items. simpl. unfold wf_frame, wf_items. simpl.
  now rewrite Twid, Tfid, Tpid, WP.
Qed.

Lemma c_cur_one {A} id (a : A) : c_cur (one id a) = Some a.
Proof. unfold c_cur, one, c_get. simpl. now rewrite String.eqb_refl. Qed.

Lemma c_cur_id_one {A} id (a : A) : c_cur_id (one id a) = Some id.
Proof. unfold c_cur_id, one, c_get. simpl. now rewrite String.eqb_refl. Qed.

Lemma c_put_cur_one {A} id (a b : A) : c_put_cur b (one id a) = one id b.
Proof. unfold c_put_cur, c_put, one. simpl. now rewrite String.eqb_refl. Qed.

Lemma cur_window_simple_world u out mv :
  cur_window (SW u out mv) = Some (mkWindow (one fid F0)).
Proof. apply c_cur_one. Qed.

Lemma cur_plot_simple_world u out mv : cur_plot (SW u out mv) = Some P.
Proof.
  unfold cur_plot. rewrite cur_window_simple_world.
  unfold win_cur_plot, win_cur_frame. simpl. rewrite c_cur_one. apply c_cur_one.
Qed.

Lemma lookups_simple_world u out mv :
  _get_all_object_name "Window" (SW u out mv) = (Ok [wid], SW u out mv)
  /\ _get_all_object_name "Frame" (SW u out mv) = (Ok [fid], SW u out mv)
  /\ _get_all_object_name "Plot" (SW u out mv) = (Ok [pid], SW u out mv)
  /\ _get_all_object_name "Curve" (SW u out mv)
     = (Ok (ids (items (plt_curves P))), SW u out mv).
Proof.
  assert (Hne : items (windows (SW u out mv)) <> []) by discriminate.
  pose proof (wf_simple_world u out mv) as Hwf.
  repeat split.
  - rewrite (lookup_all Window _ Hwf Hne : _get_all_object_name "Window" _ = _), names_of_window_info. reflexivity.
  - rewrite (lookup_all Frame _ Hwf Hne : _get_all_object_name "Frame" _ = _), names_of_frame_info. reflexivity.
  - rewrite (lookup_all Plot _ Hwf Hne : _get_all_object_name "Plot" _ = _), names_of_plot_info. reflexivity.
  - rewrite (lookup_all Curve _ Hwf Hne : _get_all_object_name "Curve" _ = _), names_of_curve_info.
    unfold all_curves, all_plots, all_frames, all_windows, SW, simple_world, one.
    simpl. now rewrite !app_nil_r.
Qed.

Lemma for_list_get_curve w Q names :
  cur_plot w = Some Q ->
  (forall id, In id names -> c_get id (plt_curves Q) <> None) ->
  for_list get_curve names w = (Ok (styles_of Q names), w).
Proof.
  intros HQ. induction names as [|id names IH]; intros Hall; [reflexivity|].
  cbn [for_list]. unfold get_curve at 1, bind at 1. rewrite HQ.
  destruct (c_get id (plt_curves Q)) as [c|] eqn:E;
    [|exfalso; apply (Hall id); [now left | assumption]].
  unfold bind at 1. rewrite IH by (intros; apply Hall; now right).
  unfold ret, styles_of. simpl. now rewrite E.
Qed.

Lemma ids_found {A} (l : list (string * A)) id : In id (ids l) -> assoc id l <> None.
Proof. intros H E. now apply assoc_None in E. Qed.

Lemma get_current_curves_simple self u out mv :
  _get_current_curves self (SW u out mv)
  = (Ok (set_lgnd (styles_of P (ids (items (plt_curves P))))
           (set_usr_crvs (ids (items (plt_curves P)))
              (set_orig_plot pid (set_orig_frm fid (set_orig_win wid self))))),
     SW u out mv).
Proof.
  pose proof (wf_simple_world u out mv) as Hwf.
  pose proof (cur_window_simple_world u out mv) as HW.
  destruct (lookups_simple_world u out mv) as (_ & _ & _ & HC).
  unfold _get_current_curves.
  erewrite bind_ok; [|eapply lookup_current_window; [exact Hwf | apply c_cur_id_one | exact HW]].
  erewrite bind_ok;
    [|eapply lookup_current_frame;
      [exact Hwf | apply c_cur_id_one | exact HW | apply c_cur_id_one | apply c_cur_one]].
  erewrite bind_ok;
    [|eapply lookup_current_plot;
      [exact Hwf | apply c_cur_id_one | exact HW | apply c_cur_id_one | apply c_cur_one
      | apply c_cur_id_one | apply c_cur_one]].
  rewrite (bind_ok _ _ _ _ _ HC).
  cbn [usr_crvs set_usr_crvs].
  erewrite bind_ok;
    [|apply for_list_get_curve with (Q := P);
      [apply cur_plot_simple_world | intros id; apply ids_found]].
  reflexivity.
Qed.

Let lid : string := fresh_id "Legend" [fid].

Lemma lid_fid : lid <> fid.
Proof.
  intros E. apply (fresh_id_fresh "Legend" [fid]). fold lid. rewrite E. now left.
Qed.

Lemma token_lid : token lid = true.
Proof. now apply fresh_id_token. Qed.

Lemma c_cur_two_snd {A} i1 (a1 : A) i2 a2 :
  i2 <> i1 -> c_cur (two i1 a1 i2 a2 i2) = Some a2.
Proof.
  intros H. unfold c_cur, two, c_get. simpl.
  apply String.eqb_neq in H. now rewrite H, String.eqb_refl.
Qed.

Lemma c_cur_id_two_snd {A} i1 (a1 : A) i2 a2 : c_cur_id (two i1 a1 i2 a2 i2) = Some i2.
Proof.
  unfold c_cur_id, two, c_get. simpl.
  destruct (String.eqb i2 i1); [reflexivity | now rewrite String.eqb_refl].
Qed.

Lemma c_put_cur_two_snd {A} i1 (a1 : A) i2 a2 b :
  i2 <> i1 -> c_put_cur b (two i1 a1 i2 a2 i2) = two i1 a1 i2 b i2.
Proof.
  intros H. unfold c_put_cur, c_put, two. simpl.
  apply String.eqb_neq in H. now rewrite H, String.eqb_refl.
Qed.

Lemma add_frame_simple x1 y1 x2 y2 attrs u out mv :
  add_frame x1 y1 x2 y2 attrs (SW u out mv)
  = (Ok tt, framed_world wid fid F0 (fresh_id (frame_stem attrs) [fid])
              (mkFrame attrs (x1, y1, x2, y2) (0, 0)%Z empty) u out mv).
Proof.
  unfold add_frame.
  erewrite on_window_ok; [|apply cur_window_simple_world | reflexivity].
  f_equal. unfold put_cur_window, SW, simple_world, with_windows. cbn [windows].
  now rewrite c_put_cur_one.
Qed.

Lemma wf_framed_world FL u out mv :
  wf_frame FL = true -> wf_world (framed_world wid fid F0 lid FL u out mv) = true.
Proof.
  intros H. unfold framed_world, wf_world, wf_items, one, two. simpl.
  unfold wf_window, wf_items. simpl. unfold wf_frame at 1, wf_items. simpl.
  now rewrite Twid, Tfid, Tpid, WP, token_lid, H.
Qed.

Lemma make_frame_simple self u out mv :
  _make_frame self (SW u out mv)
  = (Ok (set_frm lid self),
     framed_world wid fid F0 lid (legend_frame (List.length (lgnd self))) u out mv).
Proof.
  unfold _make_frame.
  erewrite bind_ok; [|apply add_frame_simple].
  change (framed_world wid fid F0 _ _ u out mv)
    with (framed_world wid fid F0 lid (legend_frame (List.length (lgnd self))) u out mv).
  erewrite bind_ok;
    [|eapply lookup_current_frame;
      [now apply wf_framed_world | apply c_cur_id_one | apply c_cur_one
      | apply c_cur_id_two_snd | apply c_cur_two_snd, lid_fid]].
  reflexivity.
Qed.

Lemma add_plot_framed attrs FL u out mv :
  frm_plots FL = empty ->
  add_plot attrs (framed_world wid fid F0 lid FL u out mv)
  = (Ok tt, legend_world wid fid F0 lid FL "plot1"
              (mkPlot attrs empty empty empty empty empty) u out mv).
Proof.
  intros HE. unfold add_plot.
  erewrite on_frame_ok;
    [|apply c_cur_one | apply c_cur_two_snd, lid_fid | reflexivity].
  f_equal. unfold put_cur_window, framed_world, legend_world, with_windows.
  cbn [windows]. rewrite c_put_cur_one. unfold win_put_frame. cbn [win_frames].
  rewrite c_put_cur_two_snd by apply lid_fid. rewrite HE. reflexivity.
Qed.

Ltac step_on_plot' :=
  erewrite bind_ok;
  [|apply (on_plot_legend_world _ _ _ _ _ _ lid_fid); reflexivity].

Lemma drawing_area_simple self u out mv :
  exists PLA PLB,
    _make_drawing_area self
      (framed_world wid fid F0 lid (legend_frame (List.length (lgnd self))) u out mv)
    = (Ok tt, legend_world wid fid F0 lid (legend_frame (List.length (lgnd self)))
                "plot1" PLA u out mv)
    /\ _background self
         (legend_world wid fid F0 lid (legend_frame (List.length (lgnd self)))
                       "plot1" PLA u out mv)
       = (Ok tt, legend_world wid fid F0 lid (legend_frame (List.length (lgnd self)))
                   "plot1" PLB u out mv)
    /\ plt_curves PLB = empty /\ plt_points PLB = empty /\ plt_labels PLB = empty
    /\ wf_plot PLB = true.
Proof.
  eexists. eexists. split; [|split].
  - unfold _make_drawing_area.
    erewrite bind_ok; [|apply add_plot_framed; reflexivity].
    unfold add_axis, hide_axis.
    step_on_plot'. step_on_plot'. step_on_plot'.
    apply (on_plot_legend_world _ _ _ _ _ _ lid_fid). reflexivity.
  - unfold _background, add_region.
    apply (on_plot_legend_world _ _ _ _ _ _ lid_fid). reflexivity.
  - repeat split; reflexivity.
Qed.

Lemma c_select_one {A} id (a : A) : c_select id (one id a) = Some (one id a).
Proof. unfold c_select, c_get, one. simpl. now rewrite String.eqb_refl. Qed.

Lemma c_select_two_fst {A} i1 (a1 : A) i2 a2 c :
  c_select i1 (two i1 a1 i2 a2 c) = Some (two i1 a1 i2 a2 i1).
Proof. unfold c_select, c_get, two. simpl. now rewrite String.eqb_refl. Qed.

Lemma c_cur_two_fst {A} i1 (a1 : A) i2 a2 : c_cur (two i1 a1 i2 a2 i1) = Some a1.
Proof. unfold c_cur, c_get, two. simpl. now rewrite String.eqb_refl. Qed.

Lemma c_cur_id_two_fst {A} i1 (a1 : A) i2 a2 : c_cur_id (two i1 a1 i2 a2 i1) = Some i1.
Proof. unfold c_cur_id, c_get, two. simpl. now rewrite String.eqb_refl. Qed.

Lemma c_put_cur_two_fst {A} i1 (a1 : A) i2 a2 b :
  c_put_cur b (two i1 a1 i2 a2 i1) = two i1 b i2 a2 i1.
Proof. unfold c_put_cur, c_put, two. simpl. now rewrite String.eqb_refl. Qed.

Lemma restore_legend_world {B} (k : M B) FL PL u out mv :
  bind (set_current_window wid)
       (fun _ => bind (set_current_frame fid)
                      (fun _ => bind (set_current_plot pid)
                                     (fun _ => bind close_undo_block (fun _ => k))))
       (legend_world wid fid F0 lid FL "plot1" PL (S u) out mv)
  = k (final_world wid fid F0 lid FL "plot1" PL u out mv).
Proof.
  erewrite bind_ok.
  2:{ unfold set_current_window, legend_world. cbn [windows].
      rewrite c_select_one. reflexivity. }
  erewrite bind_ok.
  2:{ unfold set_current_frame. eapply on_window_ok; [apply c_cur_one|].
      cbn [win_frames]. rewrite c_select_two_fst. reflexivity. }
  erewrite bind_ok.
  2:{ unfold set_current_plot. eapply on_frame_ok.
      - unfold put_cur_window, with_windows. cbn [windows].
        rewrite c_put_cur_one. apply c_cur_one.
      - apply c_cur_two_fst.
      - unfold F0 at 1. cbn [frm_plots with_plots]. rewrite c_select_one. reflexivity. }
  rewrite put_cur_window_twice.
  erewrite bind_ok; [|reflexivity]. f_equal.
  unfold put_cur_window, with_windows, final_world, legend_world.
  cbn [windows undo_open stdout move_ok pred]. rewrite c_put_cur_one.
  unfold win_put_frame. cbn [win_frames]. rewrite c_put_cur_two_fst.
  reflexivity.
Qed.

Lemma enumerate_nth {A} (suf : list A) : forall pre,
  Forall (fun e => nth_error (pre ++ suf) (fst e) = Some (snd e))
         (combine (seq (List.length pre) (List.length suf)) suf).
Proof.
  induction suf as [|x suf IH]; intros pre; simpl; constructor.
  - simpl. rewrite nth_error_app2 by lia. now rewrite Nat.sub_diag.
  - specialize (IH (pre ++ [x])). rewrite <- app_assoc, length_app in IH.
    simpl in IH. now rewrite Nat.add_1_r in IH.
Qed.

Lemma styles_of_length Q names :
  (forall id, In id names -> c_get id (plt_curves Q) <> None) ->
  List.length (styles_of Q names) = List.length names.
Proof.
  induction names as [|id names IH]; intros Hall; [reflexivity|].
  unfold styles_of in *. simpl. rewrite length_app, IH by (intros; apply Hall; now right).
  destruct (c_get id (plt_curves Q)) eqn:E; [reflexivity|].
  exfalso. apply (Hall id); [now left | assumption].
Qed.

Lemma enumerate_length {A} (l : list A) : List.length (enumerate l) = List.length l.
Proof. unfold enumerate. rewrite length_combine, length_seq. apply Nat.min_id. Qed.

Lemma init_simple_world reverse u out mv :
  items (plt_curves P) <> [] ->
  let lg := styles_of P (ids (items (plt_curves P))) in
  let n := List.length lg in
  exists PLB,
    __init__ reverse (SW u out mv)
    = (Ok (drawn_self n PLB
             (set_lgnd_lbls [] (set_lgnd_pnts [] (set_lgnd_crvs []
             (set_frm lid
                (set_lgnd lg
                   (set_usr_crvs (ids (items (plt_curves P)))
                      (set_orig_plot pid
                         (set_orig_frm fid
                            (set_orig_win wid (set__reverse reverse new_instance))))))))))),
       final_world wid fid F0 lid (legend_frame n) "plot1"
         (drawn_plot reverse n (enumerate lg) PLB) u
         (if Nat.leb 7 (List.length (items (plt_curves P)))
          then out ++ [large_warning] else out) mv)
    /\ plt_curves PLB = empty /\ plt_points PLB = empty /\ plt_labels PLB = empty
    /\ wf_plot PLB = true.
Proof.
  intros Hne lg n.
  set (out' := if Nat.leb 7 (List.length (items (plt_curves P)))
               then out ++ [large_warning] else out).
  set (self2 := set_frm lid _).
  destruct (drawing_area_simple self2 (S u) out' mv)
    as (PLA & PLB & Hrun1 & Hrun2 & H1 & H2 & H3 & H4).
  exists PLB. split; [|auto].
  destruct (lookups_simple_world u out mv) as (HW & HF & HP & HC).
  unfold __init__.
  rewrite (bind_ok _ _ _ _ _ HW). cbn [List.length Nat.eqb negb when]. rewrite (bind_ok _ _ _ _ _ (eq_refl : ret tt _ = _)).
  rewrite (bind_ok _ _ _ _ _ HF). cbn [List.length Nat.eqb negb when]. rewrite (bind_ok _ _ _ _ _ (eq_refl : ret tt _ = _)).
  rewrite (bind_ok _ _ _ _ _ HP). cbn [List.length Nat.eqb negb when]. rewrite (bind_ok _ _ _ _ _ (eq_refl : ret tt _ = _)).
  rewrite (bind_ok _ _ _ _ _ HC).
  unfold ids at 1. rewrite length_map.
  assert (Hz : Nat.eqb (List.length (items (plt_curves P))) 0 = false)
    by (destruct (items (plt_curves P)); [congruence | reflexivity]).
  rewrite Hz. cbn [when]. rewrite (bind_ok _ _ _ _ _ (eq_refl : ret tt _ = _)).
  rewrite (bind_ok _ _ _ _ _ HC).
  unfold ids at 1. rewrite length_map.
  assert (Hpr : when (Nat.leb 7 (List.length (items (plt_curves P)))) (print large_warning)
                     (SW u out mv) = (Ok tt, SW u out' mv)).
  { unfold out'. destruct (Nat.leb 7 (List.length (items (plt_curves P)))); reflexivity. }
  rewrite (bind_ok _ _ _ _ _ Hpr).
  rewrite (bind_ok _ _ _ _ _ (eq_refl : open_undo_block (SW u out' mv) = (Ok tt, SW (S u) out' mv))).
  rewrite (bind_ok _ _ _ _ _ (get_current_curves_simple _ _ _ _)).
  rewrite (bind_ok _ _ _ _ _ (make_frame_simple _ _ _ _)).
  fold lg. fold self2.
  rewrite (bind_ok _ _ _ _ _ Hrun1), (bind_ok _ _ _ _ _ Hrun2).
  unfold _draw.
  erewrite bind_ok.
  2:{ apply draw_loop; try assumption; try apply lid_fid; try apply token_lid; try reflexivity.
      - unfold F0, wf_frame, wf_items, one. simpl. now rewrite Tpid, WP.
      - apply (enumerate_nth lg []). }
  cbn [orig_win orig_frm orig_plot drawn_self set_lgnd_lbls set_lgnd_pnts set_lgnd_crvs
       self2 set_frm set_lgnd set_usr_crvs set_orig_plot set_orig_frm set_orig_win].
  rewrite restore_legend_world.
  change (lgnd (set_lgnd_lbls [] (set_lgnd_pnts [] (set_lgnd_crvs [] self2)))) with lg.
  change (_reverse (set_lgnd_lbls [] (set_lgnd_pnts [] (set_lgnd_crvs [] self2))))
    with reverse.
  change (lgnd self2) with lg.
  rewrite enumerate_length. reflexivity.
Qed.

End Construction.
Section Shape.
Import Legend.

Lemma length_one {A} (l : list A) : List.length l = 1 -> exists a, l = [a].
Proof. destruct l as [|a [|b l]]; try discriminate. eauto. Qed.

Lemma assoc_single {A} id k (a b : A) : assoc id [(k, a)] = Some b -> id = k /\ a = b.
Proof.
  simpl. destruct (String.eqb_spec id k); [|discriminate]. intros [= ->]. auto.
Qed.

Lemma c_cur_single {A} k (a b : A) o :
  c_cur (mkC [(k, a)] o) = Some b -> o = Some k /\ a = b.
Proof.
  unfold c_cur, c_get. simpl. destruct o as [id|]; [|discriminate].
  intros H. apply assoc_single in H as [-> ->]. auto.
Qed.

(** A world with exactly one window, frame and plot and with a focused
    plot has the shape of [simple_world]. *)
Lemma simple_shape (w : world) :
  List.length (all_windows w) = 1 ->
  List.length (all_frames w) = 1 ->
  List.length (all_plots w) = 1 ->
  cur_plot w <> None ->
  exists wid fid F pid P,
    w = simple_world wid fid F pid P (undo_open w) (stdout w) (move_ok w)
    /\ all_curves w = items (plt_curves P)
    /\ cur_plot w = Some P.
Proof.
  destruct w as [[wins wcur] u out mv].
  unfold all_plots, all_frames, all_windows, all_curves, all_plots, all_frames, all_windows.
  cbn [windows items undo_open stdout move_ok].
  intros Hw. apply length_one in Hw as [[wid [[frs fcur]]] ->].
  cbn [flat_map snd win_frames items]. rewrite !app_nil_r.
  intros Hf. apply length_one in Hf as [[fid [fa fb fs [pls pcur]]] ->].
  cbn [flat_map snd frm_plots items]. rewrite !app_nil_r.
  intros Hp. apply length_one in Hp as [[pid P] ->].
  cbn [flat_map snd]. rewrite !app_nil_r.
  intros Hc. unfold cur_plot, cur_window in Hc. cbn [windows] in Hc.
  destruct (c_cur (mkC [(wid, mkWindow (mkC [(fid, mkFrame fa fb fs (mkC [(pid, P)] pcur))] fcur))] wcur))
    as [W|] eqn:EW; [|congruence].
  apply c_cur_single in EW as [-> <-].
  unfold win_cur_plot, win_cur_frame in Hc. cbn [win_frames] in Hc.
  destruct (c_cur (mkC [(fid, mkFrame fa fb fs (mkC [(pid, P)] pcur))] fcur))
    as [F'|] eqn:EF; [|congruence].
  apply c_cur_single in EF as [-> <-]. cbn [frm_plots] in Hc.
  destruct (c_cur (mkC [(pid, P)] pcur)) as [P'|] eqn:EP; [|congruence].
  apply c_cur_single in EP as [-> <-].
  exists wid, fid, (mkFrame fa fb fs empty), pid, P. repeat split.
  unfold cur_plot, cur_window, win_cur_plot, win_cur_frame, c_cur, c_get.
  cbn [windows items cur assoc]. rewrite String.eqb_refl.
  cbn [win_frames items cur assoc]. rewrite String.eqb_refl.
  cbn [frm_plots items cur assoc]. now rewrite String.eqb_refl.
Qed.

Lemma wf_simple_world_inv wid fid F pid P u out mv :
  wf_world (simple_world wid fid F pid P u out mv) = true ->
  token wid = true /\ token fid = true /\ token pid = true /\ wf_plot P = true.
Proof.
  unfold simple_world, wf_world, wf_window, wf_frame, wf_items, one.
  cbn [windows items forallb fst snd win_frames frm_plots with_plots].
  rewrite !andb_true_r. intros H.
  apply andb_true_iff in H as [H1 H]. apply andb_true_iff in H as [H2 H].
  apply andb_true_iff in H as [H3 H]. auto.
Qed.

End Shape.
Section InitFacts.
Import Legend.

Lemma c_get_one {A} id (a : A) : c_get id (one id a) = Some a.
Proof. unfold c_get, one. simpl. now rewrite String.eqb_refl. Qed.

Lemma c_get_two_fst {A} i1 (a1 : A) i2 a2 c : c_get i1 (two i1 a1 i2 a2 c) = Some a1.
Proof. unfold c_get, two. simpl. now rewrite String.eqb_refl. Qed.

Lemma c_get_two_snd {A} i1 (a1 : A) i2 a2 c :
  i2 <> i1 -> c_get i2 (two i1 a1 i2 a2 c) = Some a2.
Proof.
  intros H. unfold c_get, two. simpl. apply String.eqb_neq in H.
  now rewrite H, String.eqb_refl.
Qed.

Lemma combine_nil_app {A B} (l : list A) (r : list B) : [] ++ combine l r = combine l r.
Proof. reflexivity. Qed.

Lemma styles_of_Forall2 Q names :
  (forall id, In id names -> c_get id (plt_curves Q) <> None) ->
  Forall2 (style_in Q) names (styles_of Q names).
Proof.
  induction names as [|id names IH]; intros Hall; [constructor|].
  unfold styles_of in *. simpl.
  destruct (c_get id (plt_curves Q)) as [c|] eqn:E;
    [|exfalso; apply (Hall id); [now left | assumption]].
  simpl. constructor.
  - unfold style_in. now rewrite E.
  - apply IH. intros; apply Hall; now right.
Qed.

Lemma wf_drawn_plot reverse n es PL :
  wf_plot PL = true -> wf_plot (drawn_plot reverse n es PL) = true.
Proof.
  revert PL. induction es as [|e es IH]; intros PL H.
  - unfold drawn_plot. simpl. now destruct PL.
  - specialize (IH _ (wf_draw_entry_plot reverse n e PL H)).
    unfold drawn_plot, draw_entry_plot in *. exact IH.
Qed.

Lemma wf_final_world wid fid F lid FL lpid PL u out mv :
  token wid = true -> token fid = true -> token lid = true -> token lpid = true ->
  wf_frame F = true -> wf_plot PL = true ->
  wf_world (final_world wid fid F lid FL lpid PL u out mv) = true.
Proof.
  intros H1 H2 H3 H4 H5 H6.
  unfold final_world, wf_world, wf_window, wf_items, one, two.
  cbn [windows items forallb fst snd win_frames].
  unfold wf_frame at 2. unfold wf_items, with_plots.
  cbn [frm_plots items forallb fst snd].
  now rewrite H1, H2, H3, H4, H5, H6.
Qed.

(** Everything the constructor establishes, in one statement. *)
Lemma init_facts (reverse : bool) (w : world) :
  wf_world w = true ->
  List.length (all_windows w) = 1 ->
  List.length (all_frames w) = 1 ->
  List.length (all_plots w) = 1 ->
  all_curves w <> [] ->
  cur_plot w <> None ->
  let N := List.length (all_curves w) in
  exists self w' P0 PL,
    __init__ reverse w = (Ok self, w')
    /\ wf_world w' = true
    /\ cur_plot w = Some P0
    /\ all_curves w = items (plt_curves P0)
    /\ focused_window w = Some (orig_win self)
    /\ focused_frame w = Some (orig_frm self)
    /\ focused_plot w = Some (orig_plot self)
    /\ stdout w' = (if Nat.leb 7 N then stdout w ++ [large_warning] else stdout w)
    /\ usr_crvs self = ids (all_curves w)
    /\ Forall2 (style_in P0) (usr_crvs self) (lgnd self)
    /\ lgnd_crvs self = new_ids "crv" [] N
    /\ lgnd_pnts self = new_ids "pnt" [] N
    /\ lgnd_lbls self = new_ids "lbl" [] N
    /\ NoDup (lgnd_crvs self) /\ NoDup (lgnd_pnts self) /\ NoDup (lgnd_lbls self)
    /\ frm self <> orig_frm self
    /\ legend_plot self w' = Some PL
    /\ source_plot self w' = Some P0
    /\ items (plt_curves PL)
       = combine (lgnd_crvs self) (map (overlay_curve reverse N) (enumerate (lgnd self)))
    /\ items (plt_points PL)
       = combine (lgnd_pnts self) (map (overlay_point reverse N) (enumerate (lgnd self)))
    /\ items (plt_labels PL)
       = combine (lgnd_lbls self) (map (overlay_label reverse N) (enumerate (lgnd self)))
    /\ List.length (lgnd self) = N
    /\ List.length (lgnd_crvs self) = N
    /\ List.length (lgnd_pnts self) = N
    /\ List.length (lgnd_lbls self) = N
    /\ _reverse self = reverse
    /\ focused_window w' = Some (orig_win self)
    /\ focused_frame w' = Some (orig_frm self)
    /\ focused_plot w' = Some (orig_plot self)
    /\ undo_open w' = undo_open w.
Proof.
  intros Hwf Hw Hf Hp Hc Hcur N.
  destruct (simple_shape w Hw Hf Hp Hcur) as (wid & fid & F & pid & P & Ew & Ec & EP).
  pose proof Hwf as Hwf'. rewrite Ew in Hwf'.
  destruct (wf_simple_world_inv _ _ _ _ _ _ _ _ Hwf') as (Twid & Tfid & Tpid & WP).
  assert (HneP : items (plt_curves P) <> []) by (now rewrite <- Ec).
  destruct (init_simple_world wid fid pid F P Twid Tfid Tpid WP reverse
              (undo_open w) (stdout w) (move_ok w) HneP)
    as (PLB & Hrun & B1 & B2 & B3 & B4).
  cbv zeta in Hrun. rewrite <- Ew in Hrun.
  assert (Hfound : forall id, In id (ids (items (plt_curves P))) ->
                              c_get id (plt_curves P) <> None)
    by (intros id; apply ids_found).
  assert (Hlen : List.length (styles_of P (ids (items (plt_curves P)))) = N).
  { rewrite styles_of_length by assumption. unfold N, ids. now rewrite length_map, Ec. }
  rewrite Hlen in Hrun.
  set (lid := fresh_id "Legend" [fid]) in *.
  assert (Hlid : lid <> fid) by (apply lid_fid).
  set (lg := styles_of P (ids (items (plt_curves P)))) in *.
  assert (Hes : List.length (enumerate lg) = N) by (now rewrite enumerate_length).
  assert (HN : List.length (items (plt_curves P)) = N) by (unfold N; now rewrite Ec).
  rewrite HN in Hrun.
  assert (F1 : focused_window w = Some wid) by (rewrite Ew; apply c_cur_id_one).
  assert (F2 : focused_frame w = Some fid).
  { rewrite Ew. unfold focused_frame, cur_window, simple_world. cbn [windows].
    rewrite c_cur_one. apply c_cur_id_one. }
  assert (F3 : focused_plot w = Some pid).
  { rewrite Ew. unfold focused_plot, cur_frame, cur_window, win_cur_frame, simple_world.
    cbn [windows]. rewrite c_cur_one. cbn [win_frames]. rewrite c_cur_one.
    apply c_cur_id_one. }
  eexists _, _, P, (drawn_plot reverse N (enumerate lg) PLB).
  split; [exact Hrun|].
  split.
  { apply wf_final_world; try assumption; try reflexivity.
    - now apply fresh_id_token.
    - unfold wf_frame, wf_items, one, with_plots. cbn [frm_plots items forallb fst snd].
      now rewrite Tpid, WP.
    - now apply wf_drawn_plot. }
  split; [exact EP|]. split; [exact Ec|].
  split; [exact F1|]. split; [exact F2|]. split; [exact F3|].
  split; [reflexivity|].
  split; [now rewrite Ec|].
  split; [now apply styles_of_Forall2|].
  unfold drawn_self.
  cbn [orig_win orig_frm orig_plot frm lgnd lgnd_crvs lgnd_pnts lgnd_lbls usr_crvs _reverse
       set_lgnd_lbls set_lgnd_pnts set_lgnd_crvs set_frm set_lgnd set_usr_crvs
       set_orig_plot set_orig_frm set_orig_win set__reverse new_instance app].
  rewrite B1, B2, B3. cbn [items empty ids map].
  split; [reflexivity|]. split; [reflexivity|]. split; [reflexivity|].
  split; [apply (new_ids_NoDup "crv" N []); constructor|].
  split; [apply (new_ids_NoDup "pnt" N []); constructor|].
  split; [apply (new_ids_NoDup "lbl" N []); constructor|].
  split; [exact Hlid|].
  unfold legend_plot, source_plot, find_frame, final_world, drawn_plot,
    focused_window, focused_frame, focused_plot, cur_frame, cur_window, win_cur_frame.
  cbn [orig_win orig_frm orig_plot frm lgnd lgnd_crvs lgnd_pnts lgnd_lbls usr_crvs _reverse
       windows undo_open stdout move_ok plt_curves plt_points plt_labels].
  repeat first
    [ rewrite c_get_one | rewrite c_get_two_fst | rewrite (c_get_two_snd _ _ _ _ _ Hlid)
    | rewrite c_cur_one | rewrite c_cur_id_one | rewrite c_cur_two_fst
    | rewrite c_cur_id_two_fst
    | progress cbn [win_frames with_plots frm_plots windows undo_open stdout move_ok] ].
  rewrite !add_all_items, !B1, !B2, !B3.
  cbn [items empty ids map app].
  rewrite !length_map, !Hes, !new_ids_length.
  repeat split; assumption.
Qed.

End InitFacts.
Section ConstructionClaims.
Import Legend.

Lemma has_focus_cur_plot w : has_focus w = true -> cur_plot w <> None.
Proof. unfold has_focus. now destruct (cur_plot w). Qed.

Lemma map_snd_combine {A B} (l : list A) (r : list B) :
  List.length l = List.length r -> map snd (combine l r) = r.
Proof.
  revert r. induction l as [|a l IH]; intros [|b r] H; simpl in *; try discriminate;
    [reflexivity|]. now rewrite IH by lia.
Qed.

Lemma map_fst_enumerate {A} (l : list A) : map fst (enumerate l) = seq 0 (List.length l).
Proof.
  unfold enumerate. generalize 0. induction l as [|a l IH]; intros k; simpl;
    [reflexivity|]. now rewrite IH.
Qed.

Lemma map_snd_enumerate {A} (l : list A) : map snd (enumerate l) = l.
Proof. unfold enumerate. apply map_snd_combine. apply length_seq. Qed.

(** C1. For every curve count [N] with [1 <= N <= 6], constructing the
    legend in a world with one window, one frame, one plot and [N] curves
    succeeds and creates exactly [N] overlay curves, [N] overlay points
    and [N] overlay labels; label [i] reads the decimal string of [i];
    the three recorded identifier sequences have length [N] and name the
    created objects in order; entry [i] carries the style of source
    curve [i].  Nothing is printed. *)
Theorem construction_creates_entries (reverse : bool) (w : world) (N : nat) :
  wf_world w = true ->
  List.length (all_windows w) = 1 ->
  List.length (all_frames w) = 1 ->
  List.length (all_plots w) = 1 ->
  List.length (all_curves w) = N ->
  has_focus w = true ->
  1 <= N <= 6 ->
  exists self w',
    __init__ reverse w = (Ok self, w')
    /\ entries_created w N self w'
    /\ stdout w' = stdout w.
Proof.
  intros Hwf Hw Hf Hp Hc Hfoc HN.
  assert (Hne : all_curves w <> []) by (destruct (all_curves w); simpl in *; [lia | discriminate]).
  destruct (init_facts reverse w Hwf Hw Hf Hp Hne (has_focus_cur_plot _ Hfoc))
    as (self & w' & P0 & PL & Hrun & _ & HP0 & _ & _ & _ & _ & Hout & Husr & Hst
        & _ & _ & _ & _ & _ & _ & _ & HPL & _ & Hcs & Hps & Hls & Hlg & L1 & L2 & L3 & _).
  rewrite Hc in *.
  assert (Hen : List.length (enumerate (lgnd self)) = N) by (now rewrite enumerate_length).
  exists self, w'. split; [exact Hrun|]. split.
  - exists PL, P0. rewrite Hcs, Hps, Hls.
    rewrite !length_combine, !length_map, !ids_combine, !Hen, L1, L2, L3, !Nat.min_id
      by (now rewrite length_map, Hen).
    repeat (split; [solve [assumption | reflexivity]|]).
    split; [|repeat (split; [solve [assumption | reflexivity]|]); split].
    + rewrite <- (map_map snd lbl_text), map_snd_combine by (now rewrite length_map, Hen).
      rewrite map_map. cbn [overlay_label lbl_text].
      rewrite <- (map_map fst str), map_fst_enumerate. now rewrite Hlg.
    + rewrite <- (map_map snd crv_attr), map_snd_combine by (now rewrite length_map, Hen).
      rewrite map_map. cbn [overlay_curve crv_attr].
      rewrite <- (map_map snd (set_symbol_style (PyStr "none"))). now rewrite map_snd_enumerate.
    + rewrite <- (map_map snd pnt_attr), map_snd_combine by (now rewrite length_map, Hen).
      rewrite map_map. cbn [overlay_point pnt_attr].
      rewrite <- (map_map snd (fun c => _get_point_properties (symbol c))).
      now rewrite map_snd_enumerate.
  - rewrite Hout. destruct (Nat.leb_spec 7 N); [lia | reflexivity].
Qed.

Lemma construction_creates_entries_witness :
  exists self w',
    __init__ false sample_world = (Ok self, w')
    /\ entries_created sample_world 2 self w'
    /\ stdout w' = stdout sample_world.
Proof.
  apply (construction_creates_entries false sample_world 2);
    try (vm_compute; reflexivity); lia.
Defined.

Lemma nth_error_combine {A B} (l : list A) (r : list B) i a b :
  nth_error l i = Some a -> nth_error r i = Some b ->
  nth_error (combine l r) i = Some (a, b).
Proof.
  revert r i. induction l as [|x l IH]; intros r i H1 H2; destruct r, i;
    simpl in *; try discriminate.
  - congruence.
  - now apply IH.
Qed.

Lemma nth_error_combine_seq {A} (l : list A) : forall k i a,
  nth_error l i = Some a ->
  nth_error (combine (seq k (List.length l)) l) i = Some (k + i, a).
Proof.
  induction l as [|x l IH]; intros k i a H; destruct i; simpl in *; try discriminate.
  - injection H as ->. now rewrite Nat.add_0_r.
  - rewrite (IH (S k) i a H). f_equal. f_equal. lia.
Qed.

Lemma nth_error_enumerate {A} (l : list A) i a :
  nth_error l i = Some a -> nth_error (enumerate l) i = Some (i, a).
Proof. intros H. unfold enumerate. now rewrite (nth_error_combine_seq l 0 i a H). Qed.

Lemma nth_error_lt {A} (l : list A) i :
  i < List.length l -> exists a, nth_error l i = Some a.
Proof.
  intros H. destruct (nth_error l i) eqn:E; [eauto|].
  apply nth_error_None in E. lia.
Qed.

Lemma Forall2_nth_error {A B} (R : A -> B -> Prop) l r i a b :
  Forall2 R l r -> nth_error l i = Some a -> nth_error r i = Some b -> R a b.
Proof.
  intros H. revert i. induction H; intros i H1 H2; destruct i; simpl in *;
    try discriminate.
  - congruence.
  - eauto.
Qed.

Lemma slot_value reverse N i :
  slot reverse N i = if reverse then Z.of_nat i else (Z.of_nat N - 1 - Z.of_nat i)%Z.
Proof. unfold slot. destruct reverse; simpl; lia. Qed.

(** C7. For every curve count [N] and every index [i] below [N], entry
    [i] of the overlay belongs to the [i]-th curve of the captured order
    whatever the reverse flag is, and the flag only changes the vertical
    coordinate: [N-1-i] when it is false, [i] when it is true. *)
Theorem reverse_only_changes_slot (reverse : bool) (w : world) (N : nat) :
  wf_world w = true ->
  List.length (all_windows w) = 1 ->
  List.length (all_frames w) = 1 ->
  List.length (all_plots w) = 1 ->
  List.length (all_curves w) = N ->
  has_focus w = true ->
  1 <= N ->
  exists self w',
    __init__ reverse w = (Ok self, w')
    /\ entries_placed reverse w N self w'.
Proof.
  intros Hwf Hw Hf Hp Hc Hfoc HN.
  assert (Hne : all_curves w <> []) by (destruct (all_curves w); simpl in *; [lia | discriminate]).
  destruct (init_facts reverse w Hwf Hw Hf Hp Hne (has_focus_cur_plot _ Hfoc))
    as (self & w' & P0 & PL & Hrun & _ & HP0 & _ & _ & _ & _ & _ & Husr & Hst
        & I1 & I2 & I3 & _ & _ & _ & _ & HPL & _ & Hcs & Hps & Hls & Hlg & L1 & L2 & L3 & _).
  rewrite Hc in *.
  exists self, w'. split; [exact Hrun|].
  exists PL, P0. repeat (split; [assumption|]).
  intros i Hi.
  destruct (nth_error_lt (lgnd self) i) as [st Est]; [lia|].
  destruct (nth_error_lt (usr_crvs self) i) as [src Esrc].
  { rewrite Husr. unfold ids. rewrite length_map. lia. }
  destruct (nth_error_lt (lgnd_crvs self) i) as [idc Ec]; [lia|].
  destruct (nth_error_lt (lgnd_pnts self) i) as [idp Ep]; [lia|].
  destruct (nth_error_lt (lgnd_lbls self) i) as [idl El]; [lia|].
  pose proof (nth_error_enumerate _ _ _ Est) as Een.
  exists src, st. split; [exact Esrc|]. split; [exact (Forall2_nth_error _ _ _ _ _ _ Hst Esrc Est)|].
  exists idc, (overlay_curve reverse N (i, st)),
         idp, (overlay_point reverse N (i, st)),
         idl, (overlay_label reverse N (i, st)).
  rewrite Hcs, Hps, Hls.
  repeat split; try assumption;
    try (apply nth_error_combine; [assumption | now apply map_nth_error]);
    cbn [overlay_curve overlay_point overlay_label crv_y pnt_y lbl_y fst];
    now rewrite slot_value.
Qed.

Lemma reverse_only_changes_slot_witness :
  exists self w',
    __init__ true sample_world = (Ok self, w')
    /\ entries_placed true sample_world 2 self w'.
Proof.
  apply (reverse_only_changes_slot true sample_world 2);
    try (vm_compute; reflexivity); lia.
Defined.

End ConstructionClaims.
Section Quiet.
Import Legend.
Local Open Scope py_scope.

Lemma bind_raise_inv {A B} (m : M A) (f : A -> M B) w e w' :
  bind m f w = (Raise e, w') ->
  m w = (Raise e, w') \/ exists a w1, m w = (Ok a, w1) /\ f a w1 = (Raise e, w').
Proof.
  unfold bind. destruct (m w) as [[a|e1|] w1]; intros H.
  - right. eauto.
  - left. injection H as <- <-. reflexivity.
  - discriminate.
Qed.

Lemma quiet_ret {A} (a : A) : quiet (ret a).
Proof. intros w e w' H. discriminate. Qed.

Lemma quiet_raise {A} e : is_nie e = false -> quiet (@raise A e).
Proof. intros He w e' w' [= <- _]. exact He. Qed.

Lemma quiet_bind {A B} (m : M A) (f : A -> M B) :
  quiet m -> (forall a, quiet (f a)) -> quiet (bind m f).
Proof.
  intros Hm Hf w e w' H. apply bind_raise_inv in H as [H|(a & w1 & _ & H)].
  - exact (Hm _ _ _ H).
  - exact (Hf _ _ _ _ H).
Qed.

Lemma quiet_item {A} (l : list A) i : quiet (item l i).
Proof. unfold item. destruct (nth_error l i); [apply quiet_ret | now apply quiet_raise]. Qed.

Lemma quiet_item_last {A} (l : list A) : quiet (item_last l).
Proof. destruct l; [now apply quiet_raise | apply quiet_ret]. Qed.

Lemma quiet_for_list {A B} (f : A -> M B) xs : (forall x, quiet (f x)) -> quiet (for_list f xs).
Proof.
  intros Hf. induction xs as [|x xs IH]; simpl; [apply quiet_ret|].
  apply quiet_bind; [apply Hf|]. intros y. apply quiet_bind; [exact IH|].
  intros ys. apply quiet_ret.
Qed.

Lemma quiet_for_each {A S} (xs : list A) (body : A -> S -> M S) :
  (forall x s, quiet (body x s)) -> forall s, quiet (for_each xs body s).
Proof.
  intros Hb. induction xs as [|x xs IH]; intros s; simpl; [apply quiet_ret|].
  apply quiet_bind; [apply Hb | exact IH].
Qed.

Lemma quiet_on_window {A} (f : window -> exn + A * window) :
  (forall W e, f W = inl e -> is_nie e = false) -> quiet (on_window f).
Proof.
  intros Hf w e w'. unfold on_window. destruct (cur_window w) as [W|]; [|now intros [= <- _]].
  destruct (f W) as [e1|[a W']] eqn:E; [|discriminate].
  intros [= <- _]. eauto.
Qed.

Lemma quiet_on_frame {A} (f : frame -> exn + A * frame) :
  (forall F e, f F = inl e -> is_nie e = false) -> quiet (on_frame f).
Proof.
  intros Hf w e w'. unfold on_frame. destruct (cur_frame w) as [F|]; [|now intros [= <- _]].
  destruct (f F) as [e1|[a F']] eqn:E; [|discriminate].
  intros [= <- _]. eauto.
Qed.

Lemma quiet_on_plot {A} (f : plot -> exn + A * plot) :
  (forall P e, f P = inl e -> is_nie e = false) -> quiet (on_plot f).
Proof.
  intros Hf w e w'. unfold on_plot. destruct (cur_plot w) as [P|]; [|now intros [= <- _]].
  destruct (f P) as [e1|[a P']] eqn:E; [|discriminate].
  intros [= <- _]. eauto.
Qed.

Lemma quiet_current name : quiet (_get_current_object_name name).
Proof.
  unfold _get_current_object_name. apply quiet_bind; [intros w e w'; discriminate|].
  intros [rep|]; [|now apply quiet_raise].
  apply quiet_bind; [apply quiet_item_last|]. intros l.
  apply quiet_bind; [apply quiet_item|]. intros a.
  apply quiet_bind; [apply quiet_item|]. intros b. apply quiet_ret.
Qed.

Lemma quiet_all name : quiet (_get_all_object_name name).
Proof.
  unfold _get_all_object_name. apply quiet_bind; [intros w e w'; discriminate|].
  intros [rep|]; [|now apply quiet_raise].
  apply quiet_bind; [|intros; apply quiet_ret].
  apply quiet_for_list. intros l.
  apply quiet_bind; [apply quiet_item|]. intros a. apply quiet_item.
Qed.

Lemma quiet_get_curve id : quiet (get_curve id).
Proof.
  intros w e w'. unfold get_curve. destruct (cur_plot w) as [P|]; [|now intros [= <- _]].
  destruct (c_get id (plt_curves P)); [discriminate | now intros [= <- _]].
Qed.

Lemma quiet_set_current_window id : quiet (set_current_window id).
Proof.
  intros w e w'. unfold set_current_window.
  destruct (c_select id (windows w)); [discriminate | now intros [= <- _]].
Qed.

Lemma apply_curve_arg_quiet a c e : apply_curve_arg a c = inl e -> is_nie e = false.
Proof.
  destruct a as [c'|s]; simpl; [discriminate|]. unfold apply_attr_string.
  destruct (split "=" s) as [|k [|v [|x l]]]; try (now intros [= <-]).
  repeat match goal with |- context [if ?b then _ else _] => destruct b end;
    try discriminate; now intros [= <-].
Qed.

Ltac quiet_f :=
  let X := fresh in let e := fresh in let H := fresh in
  intros X e H;
  repeat match type of H with
         | context [match ?x with _ => _ end] => destruct x eqn:?
         end;
  try discriminate;
  try (injection H as <-; reflexivity);
  eauto using apply_curve_arg_quiet.

Ltac quiet_tac :=
  repeat first
    [ apply quiet_ret
    | apply quiet_current
    | apply quiet_all
    | apply quiet_get_curve
    | apply quiet_set_current_window
    | apply quiet_item
    | apply quiet_for_list; intros
    | apply quiet_for_each; intros
    | apply quiet_bind; [|intros]
    | apply quiet_on_window; quiet_f
    | apply quiet_on_frame; quiet_f
    | apply quiet_on_plot; quiet_f
    | (intros ? ? ? ?; discriminate) ].

Lemma quiet_get_current_curves self : quiet (_get_current_curves self).
Proof. unfold _get_current_curves. quiet_tac. Qed.

Lemma quiet_make_frame self : quiet (_make_frame self).
Proof. unfold _make_frame, add_frame. quiet_tac. Qed.

Lemma quiet_make_drawing_area self : quiet (_make_drawing_area self).
Proof. unfold _make_drawing_area, add_plot, add_axis, hide_axis. quiet_tac. Qed.

Lemma quiet_background self : quiet (_background self).
Proof. unfold _background, add_region. quiet_tac. Qed.

Lemma quiet_draw self : quiet (_draw self).
Proof.
  unfold _draw. apply quiet_for_each. intros e s.
  unfold _draw_entry, add_curve, set_curve, add_point, add_label. quiet_tac.
Qed.

Lemma reads_only_bind {A B} (m : M A) (f : A -> M B) :
  reads_only m -> (forall a, reads_only (f a)) -> reads_only (bind m f).
Proof.
  intros Hm Hf w. unfold bind. specialize (Hm w).
  destruct (m w) as [[a|e|] w1]; simpl in *; subst; auto. apply Hf.
Qed.

Lemma reads_only_item {A} (l : list A) i : reads_only (item l i).
Proof. intros w. unfold item. now destruct (nth_error l i). Qed.

Lemma reads_only_for_list {A B} (f : A -> M B) xs :
  (forall x, reads_only (f x)) -> reads_only (for_list f xs).
Proof.
  intros Hf. induction xs as [|x xs IH]; simpl; [now intros w|].
  apply reads_only_bind; [apply Hf|]. intros y.
  apply reads_only_bind; [exact IH|]. now intros ys w.
Qed.

Lemma reads_only_all name : reads_only (_get_all_object_name name).
Proof.
  unfold _get_all_object_name. apply reads_only_bind; [now intros w|].
  intros [rep|]; [|now intros w].
  apply reads_only_bind; [|now intros ys w].
  apply reads_only_for_list. intros l.
  apply reads_only_bind; [apply reads_only_item|]. intros a. apply reads_only_item.
Qed.

(** A check of the constructor: a lookup over [info()] followed by a
    test that raises.  When it raises, the world is as before. *)
Lemma check_step {B} (name : string) (test : list string -> bool) (msg : string)
      (rest : M B) w e w' :
  bind (_get_all_object_name name)
       (fun v => bind (when (test v) (raise (NotImplementedError msg)))
                      (fun _ => rest)) w = (Raise e, w') ->
  w' = w \/ rest w = (Raise e, w').
Proof.
  intros H. pose proof (reads_only_all name w) as Hr.
  apply bind_raise_inv in H as [H|(v & w1 & Hv & H)].
  - rewrite H in Hr. now left.
  - rewrite Hv in Hr. simpl in Hr. subst w1.
    unfold when in H. destruct (test v).
    + injection H as _ <-. now left.
    + now right.
Qed.

(** C10. All precondition checks of the constructor come before the
    undo block is opened and before anything is created or the focus is
    moved: a construction that fails a precondition leaves the world,
    its undo depth included, exactly as it was. *)
Theorem precondition_failure_changes_nothing (reverse : bool) (w w' : world)
        (msg : string) :
  __init__ reverse w = (Raise (NotImplementedError msg), w') -> w' = w.
Proof.
  unfold __init__. intros H.
  apply check_step in H as [H|H]; [exact H|].
  apply check_step in H as [H|H]; [exact H|].
  apply check_step in H as [H|H]; [exact H|].
  apply check_step in H as [H|H]; [exact H|].
  exfalso. revert H.
  match goal with |- ?m w = _ -> _ => assert (Q : quiet m) end.
  { apply quiet_bind; [apply quiet_all|]. intros v.
    apply quiet_bind; [unfold when; destruct (Nat.leb 7 (List.length v)); quiet_tac|].
    intros _. apply quiet_bind; [quiet_tac|]. intros _.
    apply quiet_bind; [apply quiet_get_current_curves|]. intros s1.
    apply quiet_bind; [apply quiet_make_frame|]. intros s2.
    apply quiet_bind; [apply quiet_make_drawing_area|]. intros _.
    apply quiet_bind; [apply quiet_background|]. intros _.
    apply quiet_bind; [apply quiet_draw|]. intros s3.
    unfold set_current_frame, set_current_plot. quiet_tac. }
  intros H. specialize (Q _ _ _ H). discriminate.
Qed.

Lemma precondition_failure_changes_nothing_witness :
  snd (__init__ false curveless_world) = curveless_world.
Proof.
  apply (precondition_failure_changes_nothing false curveless_world _
           "Must have at least one curve.").
  vm_compute. reflexivity.
Defined.

End Quiet.

Section Preconditions.
Import Legend.
Local Open Scope py_scope.

Lemma lookup_all_window w :
  wf_world w = true -> all_windows w <> [] ->
  _get_all_object_name "Window" w = (Ok (ids (all_windows w)), w).
Proof.
  intros Hwf Hne.
  rewrite (lookup_all Window w Hwf Hne : _get_all_object_name "Window" _ = _).
  now rewrite names_of_window_info.
Qed.

Lemma lookup_all_frame w :
  wf_world w = true -> all_windows w <> [] ->
  _get_all_object_name "Frame" w = (Ok (ids (all_frames w)), w).
Proof.
  intros Hwf Hne.
  rewrite (lookup_all Frame w Hwf Hne : _get_all_object_name "Frame" _ = _).
  now rewrite names_of_frame_info.
Qed.

Lemma lookup_all_plot w :
  wf_world w = true -> all_windows w <> [] ->
  _get_all_object_name "Plot" w = (Ok (ids (all_plots w)), w).
Proof.
  intros Hwf Hne.
  rewrite (lookup_all Plot w Hwf Hne : _get_all_object_name "Plot" _ = _).
  now rewrite names_of_plot_info.
Qed.

Lemma lookup_all_curve w :
  wf_world w = true -> all_windows w <> [] ->
  _get_all_object_name "Curve" w = (Ok (ids (all_curves w)), w).
Proof.
  intros Hwf Hne.
  rewrite (lookup_all Curve w Hwf Hne : _get_all_object_name "Curve" _ = _).
  now rewrite names_of_curve_info.
Qed.

Lemma length_ids {A} (l : list (string * A)) : List.length (ids l) = List.length l.
Proof. apply length_map. Qed.

(** With a window but the wrong number of windows, frames or plots, or
    no curve, the constructor raises at the check concerned. *)
Lemma init_rejects (reverse : bool) (w : world) :
  wf_world w = true -> all_windows w <> [] ->
  List.length (all_windows w) <> 1 \/ List.length (all_frames w) <> 1
  \/ List.length (all_plots w) <> 1 \/ List.length (all_curves w) = 0 ->
  exists msg, __init__ reverse w = (Raise (NotImplementedError msg), w).
Proof.
  intros Hwf Hne Hbad. unfold __init__.
  rewrite (bind_ok _ _ _ _ _ (lookup_all_window w Hwf Hne)), length_ids.
  destruct (Nat.eqb_spec (List.length (all_windows w)) 1) as [E1|N1];
    [|eexists; reflexivity].
  cbn [negb when]. rewrite (bind_ok _ _ _ _ _ (eq_refl : ret tt _ = _)).
  rewrite (bind_ok _ _ _ _ _ (lookup_all_frame w Hwf Hne)), length_ids.
  destruct (Nat.eqb_spec (List.length (all_frames w)) 1) as [E2|N2];
    [|eexists; reflexivity].
  cbn [negb when]. rewrite (bind_ok _ _ _ _ _ (eq_refl : ret tt _ = _)).
  rewrite (bind_ok _ _ _ _ _ (lookup_all_plot w Hwf Hne)), length_ids.
  destruct (Nat.eqb_spec (List.length (all_plots w)) 1) as [E3|N3];
    [|eexists; reflexivity].
  cbn [negb when]. rewrite (bind_ok _ _ _ _ _ (eq_refl : ret tt _ = _)).
  rewrite (bind_ok _ _ _ _ _ (lookup_all_curve w Hwf Hne)), length_ids.
  destruct (Nat.eqb_spec (List.length (all_curves w)) 0) as [E4|N4];
    [eexists; reflexivity|].
  exfalso. destruct Hbad as [H|[H|[H|H]]]; contradiction.
Qed.

(** C8, as the code has it.  With no window at all the lookup itself
    fails with the not-found error.  With at least one window,
    construction fails with a precondition violation whenever the number
    of windows, of frames or of plots differs from one or there is no
    curve.  With one window, frame and plot in focus and seven curves or
    more it succeeds and prints the warning. *)
Theorem construction_preconditions (reverse : bool) (w : world) :
  wf_world w = true ->
  (all_windows w = [] ->
   __init__ reverse w = (Raise (RuntimeError (no_objects_msg "Window")), w))
  /\ (all_windows w <> [] ->
      List.length (all_windows w) <> 1 \/ List.length (all_frames w) <> 1
      \/ List.length (all_plots w) <> 1 \/ List.length (all_curves w) = 0 ->
      exists msg, __init__ reverse w = (Raise (NotImplementedError msg), w))
  /\ (List.length (all_windows w) = 1 -> List.length (all_frames w) = 1 ->
      List.length (all_plots w) = 1 -> has_focus w = true ->
      7 <= List.length (all_curves w) ->
      exists self w',
        __init__ reverse w = (Ok self, w')
        /\ stdout w' = stdout w ++ [large_warning]).
Proof.
  intros Hwf. split; [|split].
  - intros He. unfold __init__. apply bind_raise. now apply lookup_all_none.
  - now apply init_rejects.
  - intros Hw Hf Hp Hfoc H7.
    assert (Hne : all_curves w <> [])
      by (destruct (all_curves w); simpl in *; [lia | discriminate]).
    destruct (init_facts reverse w Hwf Hw Hf Hp Hne (has_focus_cur_plot _ Hfoc))
      as (self & w' & P0 & PL & Hrun & _ & _ & _ & _ & _ & _ & Hout & _).
    exists self, w'. split; [exact Hrun|].
    rewrite Hout. destruct (Nat.leb_spec 7 (List.length (all_curves w))); [reflexivity | lia].
Qed.

Lemma construction_preconditions_witness :
  exists self w',
    __init__ false seven_curve_world = (Ok self, w')
    /\ stdout w' = stdout seven_curve_world ++ [large_warning].
Proof.
  destruct (construction_preconditions false seven_curve_world) as (_ & _ & H);
    [vm_compute; reflexivity|].
  apply H; vm_compute; reflexivity.
Defined.

(** With no window the constructor does not report a violated
    precondition: the lookup raises its own not-found error. *)
Lemma construction_without_windows :
  List.length (all_windows empty_world) = 0
  /\ __init__ false empty_world
     = (Raise (RuntimeError "No Window objects to operate on"), empty_world).
Proof. split; reflexivity. Qed.

End Preconditions.
Section Identity.

Lemma c_put_cur_same {A} (c : container A) a : c_cur c = Some a -> c_put_cur a c = c.
Proof.
  intros H. destruct (c_cur_Some _ _ H) as (id & Hc & Hg & _).
  unfold c_put_cur, c_put. rewrite Hc. unfold c_get in Hg.
  rewrite (replace_same _ _ _ Hg), <- Hc. apply c_eta.
Qed.

Lemma put_cur_window_same w W : cur_window w = Some W -> put_cur_window W w = w.
Proof.
  intros H. unfold put_cur_window, with_windows. rewrite (c_put_cur_same _ _ H).
  now destruct w.
Qed.

Lemma win_put_frame_same W F : win_cur_frame W = Some F -> win_put_frame F W = W.
Proof.
  intros H. unfold win_put_frame. rewrite (c_put_cur_same _ _ H). now destruct W.
Qed.

Lemma win_put_plot_same W P : win_cur_plot W = Some P -> win_put_plot P W = W.
Proof.
  unfold win_cur_plot, win_put_plot. destruct (win_cur_frame W) as [F|] eqn:HF; [|discriminate].
  intros HP. unfold frm_put_plot. rewrite (c_put_cur_same _ _ HP).
  replace (with_plots (frm_plots F) F) with F by (now destruct F).
  now apply win_put_frame_same.
Qed.

Lemma nodupb_NoDup l : nodupb l = true -> NoDup l.
Proof.
  induction l as [|x l IH]; simpl; intros H; constructor;
    apply andb_true_iff in H as [Hx Hl]; [|auto].
  apply negb_true_iff in Hx. intros Hin. apply existsb_eqb_In in Hin. congruence.
Qed.

Lemma present_In {A} (c : container A) names id :
  present c names = true -> In id names -> c_get id c <> None.
Proof.
  unfold present. rewrite forallb_forall. intros H Hin. specialize (H _ Hin).
  now destruct (c_get id c).
Qed.

Lemma c_get_put_ne {A} (c : container A) id id' a :
  c_get id' c <> None -> c_get id' (c_put id a c) <> None.
Proof.
  intros H. destruct (String.eqb_spec id' id) as [->|Hne].
  - rewrite c_get_put_same by assumption. discriminate.
  - now rewrite c_get_put_other.
Qed.

End Identity.

Section Relabel.
Import Legend.
Local Open Scope py_scope.

Lemma set_label_text_ok w W P id v l :
  cur_window w = Some W -> win_cur_plot W = Some P ->
  c_get id (plt_labels P) = Some l ->
  set_label_text id v w
  = (Ok tt, put_cur_window
              (win_put_plot
                 (with_labels (c_put id (mkHLabel (lbl_x l) (lbl_y l) v (lbl_attr l))
                                     (plt_labels P)) P) W) w).
Proof.
  intros HW HP Hl. unfold set_label_text.
  eapply on_plot_ok; [eassumption | eassumption | now rewrite Hl].
Qed.

Lemma label_loop pairs : forall w W P,
  cur_window w = Some W -> win_cur_plot W = Some P ->
  (forall p, In p pairs -> c_get (fst p) (plt_labels P) <> None) ->
  for_each pairs (fun p _ => set_label_text (fst p) (snd p)) tt w
  = (Ok tt, put_cur_window
              (win_put_plot (with_labels (set_texts pairs (plt_labels P)) P) W) w).
Proof.
  induction pairs as [|[id v] pairs IH]; intros w W P HW HP Hall.
  - simpl. unfold ret.
    replace (with_labels (plt_labels P) P) with P by (now destruct P).
    now rewrite (win_put_plot_same _ _ HP), (put_cur_window_same _ _ HW).
  - cbn [for_each fst snd].
    destruct (c_get id (plt_labels P)) as [l|] eqn:El;
      [|exfalso; apply (Hall (id, v)); [now left | exact El]].
    rewrite (bind_ok _ _ _ _ _ (set_label_text_ok _ _ _ _ v _ HW HP El)).
    rewrite (IH _ _ _ (cur_window_put _ _ _ HW) (win_cur_plot_put _ _ _ HP)).
    + rewrite put_cur_window_twice, (win_put_plot_twice _ _ _ _ HP).
      cbn [set_texts fst snd plt_labels with_labels]. rewrite El. reflexivity.
    + intros p Hp. cbn [plt_labels with_labels]. apply c_get_put_ne.
      apply Hall. now right.
Qed.

Lemma set_texts_other pairs : forall c id,
  ~ In id (map fst pairs) -> c_get id (set_texts pairs c) = c_get id c.
Proof.
  induction pairs as [|[i v] pairs IH]; intros c id Hn; [reflexivity|].
  cbn [set_texts fst snd]. rewrite IH by (intros H; apply Hn; now right).
  destruct (c_get i c); [|reflexivity].
  apply c_get_put_other. intros ->. apply Hn. now left.
Qed.

Lemma set_texts_cur pairs : forall c, cur (set_texts pairs c) = cur c.
Proof.
  induction pairs as [|[i v] pairs IH]; intros c; [reflexivity|].
  cbn [set_texts fst snd]. rewrite IH. now destruct (c_get i c).
Qed.

(** After relabelling, a label named in the pairs has the text paired
    with it, at the place it had. *)
Lemma set_texts_get pairs : forall c id v,
  NoDup (map fst pairs) -> In (id, v) pairs ->
  (forall p, In p pairs -> c_get (fst p) c <> None) ->
  exists l0, c_get id c = Some l0
             /\ c_get id (set_texts pairs c)
                = Some (mkHLabel (lbl_x l0) (lbl_y l0) v (lbl_attr l0)).
Proof.
  induction pairs as [|[i x] pairs IH]; intros c id v Hnd Hin Hall; [destruct Hin|].
  cbn [map fst] in Hnd. inversion Hnd as [|? ? Hi Hnd']; subst.
  cbn [set_texts fst snd].
  destruct (c_get i c) as [li|] eqn:Ei;
    [|exfalso; apply (Hall (i, x)); [now left | exact Ei]].
  destruct Hin as [[= -> ->]|Hin].
  - exists li. split; [exact Ei|].
    rewrite set_texts_other by assumption.
    apply c_get_put_same. congruence.
  - assert (Hne : id <> i).
    { intros ->. apply Hi. now apply (in_map fst) in Hin. }
    destruct (IH (c_put i (mkHLabel (lbl_x li) (lbl_y li) x (lbl_attr li)) c) id v Hnd' Hin)
      as (l0 & H0 & H1).
    { intros p Hp. apply c_get_put_ne. apply Hall. now right. }
    rewrite c_get_put_other in H0 by assumption. eauto.
Qed.

Lemma set_current_frame_ok w W id F :
  cur_window w = Some W -> c_get id (win_frames W) = Some F ->
  set_current_frame id w
  = (Ok tt, put_cur_window (mkWindow (mkC (items (win_frames W)) (Some id))) w).
Proof.
  intros HW HF. unfold set_current_frame.
  eapply on_window_ok; [eassumption|]. now rewrite (c_select_Some _ _ _ HF).
Qed.

(** What [label] does to the focused window when the counts agree. *)
Lemma label_run self vals w wid W old Fold FL PL :
  wf_world w = true ->
  cur (windows w) = Some wid -> c_get wid (windows w) = Some W ->
  cur (win_frames W) = Some old -> c_get old (win_frames W) = Some Fold ->
  c_get (frm self) (win_frames W) = Some FL -> c_cur (frm_plots FL) = Some PL ->
  List.length vals = List.length (lgnd_lbls self) ->
  (forall id, In id (lgnd_lbls self) -> c_get id (plt_labels PL) <> None) ->
  label self vals w
  = (Ok tt,
     put_cur_window
       (mkWindow
          (mkC (replace (frm self)
                  (frm_put_plot
                     (with_labels (set_texts (combine (lgnd_lbls self) vals) (plt_labels PL)) PL)
                     FL)
                  (items (win_frames W)))
               (Some old)))
       w).
Proof.
  intros Hwf Hc HW Hco Hold HFL HPL Hlen Hall.
  destruct (c_cur_of_id _ _ _ Hc HW) as [HcW Hfw].
  destruct (c_cur_of_id _ _ _ Hco Hold) as [HcF HfF].
  unfold label. rewrite Hlen, Nat.eqb_refl. cbn [negb when].
  rewrite (bind_ok _ _ _ _ _ (eq_refl : ret tt _ = _)).
  set (w1 := mkWorld (windows w) (S (undo_open w)) (stdout w) (move_ok w)).
  rewrite (bind_ok _ _ _ _ _ (eq_refl : open_undo_block w = (Ok tt, w1))).
  assert (HW1 : cur_window w1 = Some W) by exact HcW.
  erewrite bind_ok;
    [|eapply (lookup_current_frame w1 wid W old Fold); try eassumption; exact Hwf].
  rewrite (bind_ok _ _ _ _ _ (set_current_frame_ok _ _ _ _ HW1 HFL)).
  set (W1 := mkWindow (mkC (items (win_frames W)) (Some (frm self)))).
  assert (HF1 : win_cur_frame W1 = Some FL) by exact HFL.
  assert (HP1 : win_cur_plot W1 = Some PL) by (unfold win_cur_plot; now rewrite HF1).
  erewrite bind_ok.
  2:{ apply (label_loop _ _ W1 PL); [now apply (cur_window_put _ W) | exact HP1 |].
      intros [i v] Hp. apply Hall. now apply in_combine_l in Hp. }
  rewrite put_cur_window_twice.
  set (PL' := with_labels _ PL).
  assert (E2 : win_put_plot PL' W1
               = mkWindow (mkC (replace (frm self) (frm_put_plot PL' FL)
                                        (items (win_frames W))) (Some (frm self)))).
  { unfold win_put_plot. rewrite HF1. reflexivity. }
  rewrite E2.
  erewrite bind_ok.
  2:{ eapply set_current_frame_ok with (F := match c_get old (win_frames (mkWindow (mkC (replace (frm self) (frm_put_plot PL' FL) (items (win_frames W))) (Some (frm self))))) with Some F => F | None => Fold end).
      - now apply (cur_window_put _ W).
      - cbn [win_frames].
        destruct (c_get old (mkC (replace (frm self) (frm_put_plot PL' FL) (items (win_frames W))) (Some (frm self)))) eqn:E; [reflexivity|].
        exfalso. revert E. apply (c_get_put_ne (win_frames W) (frm self) old). congruence. }
  rewrite put_cur_window_twice. reflexivity.
Qed.

End Relabel.

(** ** Relabelling *)

Section Focus.

Import Legend.

Lemma focus_frames w wid old :
  focused_window w = Some wid -> focused_frame w = Some old ->
  exists W Fold,
    cur (windows w) = Some wid /\ c_get wid (windows w) = Some W
    /\ cur_window w = Some W
    /\ cur (win_frames W) = Some old /\ c_get old (win_frames W) = Some Fold.
Proof.
  intros Hw Hf. apply c_cur_id_get in Hw as [Hc [W HW]].
  assert (HcW : cur_window w = Some W) by (unfold cur_window, c_cur; now rewrite Hc).
  unfold focused_frame in Hf. rewrite HcW in Hf.
  apply c_cur_id_get in Hf as [Hco [Fold Hold]].
  exists W, Fold. auto.
Qed.

Lemma legend_plot_inv self w W PL :
  c_get (orig_win self) (windows w) = Some W -> legend_plot self w = Some PL ->
  exists FL, c_get (frm self) (win_frames W) = Some FL /\ c_cur (frm_plots FL) = Some PL.
Proof.
  intros HW. unfold legend_plot, find_frame. rewrite HW.
  destruct (c_get (frm self) (win_frames W)) as [FL|]; [|discriminate]. eauto.
Qed.

Lemma find_frame_put w wid W W' id :
  cur (windows w) = Some wid -> c_get wid (windows w) = Some W ->
  find_frame wid id (put_cur_window W' w) = c_get id (win_frames W').
Proof.
  intros Hc HW. unfold find_frame, put_cur_window, with_windows, c_put_cur. cbn [windows].
  rewrite Hc, c_get_put_same by congruence. reflexivity.
Qed.

Lemma c_get_with_frame_same W id F old :
  c_get id (win_frames W) <> None ->
  c_get id (win_frames (with_frame id F old W)) = Some F.
Proof. intros H. now apply assoc_replace_same. Qed.

Lemma c_get_with_frame_other W id id' F old :
  id' <> id ->
  c_get id' (win_frames (with_frame id F old W)) = c_get id' (win_frames W).
Proof. intros H. now apply assoc_replace_other. Qed.

Lemma nth_error_combine_both {A B} (l : list A) (r : list B) i a b :
  nth_error l i = Some a -> nth_error r i = Some b -> In (a, b) (combine l r).
Proof.
  revert r i. induction l as [|x l IH]; intros [|y r] [|i]; simpl; try discriminate.
  - intros [= ->] [= ->]. now left.
  - intros Ha Hb. right. eauto.
Qed.

Lemma map_fst_combine {A B} (l : list A) (r : list B) :
  List.length l = List.length r -> map fst (combine l r) = l.
Proof.
  revert r. induction l as [|x l IH]; intros [|y r]; simpl; try discriminate; auto.
  intros [= H]. now rewrite IH.
Qed.

Lemma nth_error_same_length {A B} (l : list A) (r : list B) i b :
  List.length l = List.length r -> nth_error r i = Some b ->
  exists a, nth_error l i = Some a.
Proof.
  intros Hlen Hb. destruct (nth_error l i) eqn:E; [eauto|].
  apply nth_error_None in E. assert (nth_error r i <> None) by congruence.
  apply nth_error_Some in H. lia.
Qed.

(** C4. Relabelling with a sequence whose length differs from the number
    of legend entries raises the count-mismatch [RuntimeError] before
    any host call: the world, and every label in it, is unchanged. *)
Theorem relabel_count_mismatch (self : instance) (vals : list string) (w : world) :
  List.length vals <> List.length (lgnd_lbls self) ->
  label self vals w
  = (Raise (RuntimeError "Number of labels does not match the number of curves"), w).
Proof.
  intros Hne. unfold label.
  apply Nat.eqb_neq in Hne. rewrite Hne. reflexivity.
Qed.

Lemma relabel_count_mismatch_witness :
  label sample_legend ["only one"] legend_sample_world
  = (Raise (RuntimeError "Number of labels does not match the number of curves"),
     legend_sample_world).
Proof. apply relabel_count_mismatch. vm_compute. discriminate. Defined.

(** C5. Relabelling with as many strings as the legend has entries
    succeeds and gives label [i] the [i]-th string, at the place and with
    the attributes it had; the legend's window is the focused one, its
    frame and plot hold the recorded labels, which are distinct. *)
Theorem relabel_sets_texts (self : instance) (vals : list string) (w : world)
  (old : string) (PL : plot) :
  wf_world w = true ->
  focused_window w = Some (orig_win self) ->
  focused_frame w = Some old ->
  legend_plot self w = Some PL ->
  present (plt_labels PL) (lgnd_lbls self) = true ->
  nodupb (lgnd_lbls self) = true ->
  List.length vals = List.length (lgnd_lbls self) ->
  exists w',
    label self vals w = (Ok tt, w')
    /\ forall i v, nth_error vals i = Some v ->
         exists l0, label_at self w i = Some l0
                    /\ label_at self w' i
                       = Some (mkHLabel (lbl_x l0) (lbl_y l0) v (lbl_attr l0)).
Proof.
  intros Hwf Hfw Hff HPL Hpres Hnd Hlen.
  destruct (focus_frames _ _ _ Hfw Hff) as (W & Fold & Hc & HW & HcW & Hco & Hold).
  destruct (legend_plot_inv _ _ _ _ HW HPL) as (FL & HFL & HcPL).
  assert (Hall : forall id, In id (lgnd_lbls self) -> c_get id (plt_labels PL) <> None)
    by (intros id Hin; now apply (present_In (plt_labels PL) (lgnd_lbls self))).
  eexists. split.
  { apply (label_run self vals w (orig_win self) W old Fold FL PL); assumption. }
  intros i v Hv.
  destruct (nth_error_same_length (lgnd_lbls self) vals i v (eq_sym Hlen) Hv) as [id Hid].
  destruct (set_texts_get (combine (lgnd_lbls self) vals) (plt_labels PL) id v) as (l0 & H0 & H1).
  - rewrite map_fst_combine by congruence. now apply nodupb_NoDup.
  - eapply nth_error_combine_both; eassumption.
  - intros [j x] Hp. apply Hall. now apply in_combine_l in Hp.
  - exists l0. unfold label_at. rewrite HPL, Hid. split; [exact H0|].
    unfold legend_plot.
    rewrite (find_frame_put _ (orig_win self) W) by assumption.
    match goal with
    | |- context [mkWindow (mkC (replace (frm self) ?F (items (win_frames W))) (Some old))] =>
        change (mkWindow (mkC (replace (frm self) F (items (win_frames W))) (Some old)))
          with (with_frame (frm self) F old W)
    end.
    rewrite c_get_with_frame_same by congruence.
    unfold frm_put_plot, with_plots. cbn [frm_plots].
    rewrite (c_cur_put_cur _ _ _ HcPL). exact H1.
Qed.

Lemma relabel_sets_texts_witness :
  exists w',
    label sample_legend ["first"; "second"] legend_sample_world = (Ok tt, w')
    /\ forall i v, nth_error ["first"; "second"] i = Some v ->
         exists l0, label_at sample_legend legend_sample_world i = Some l0
                    /\ label_at sample_legend w' i
                       = Some (mkHLabel (lbl_x l0) (lbl_y l0) v (lbl_attr l0)).
Proof.
  apply (relabel_sets_texts sample_legend ["first"; "second"] legend_sample_world "frm1"
           (match legend_plot sample_legend legend_sample_world with
            | Some P => P
            | None => sample_plot
            end)); vm_compute; reflexivity.
Defined.

End Focus.

(** ** Assertions on the runs of the host calls *)

Section Triples.

Import Legend.
Local Open Scope py_scope.

Lemma triple_ret {A} (P : world -> Prop) (a : A) (Q : A -> world -> Prop) :
  (forall w, P w -> Q a w) -> triple P (ret a) Q.
Proof. intros H w b w' HP [= <- <-]. auto. Qed.

Lemma triple_raise {A} (P : world -> Prop) e (Q : A -> world -> Prop) :
  triple P (raise e) Q.
Proof. intros w a w' _ H. discriminate. Qed.

Lemma triple_bind {A B} (P : world -> Prop) (m : M A) (f : A -> M B)
      (Q : A -> world -> Prop) (R : B -> world -> Prop) :
  triple P m Q -> (forall a, triple (Q a) (f a) R) -> triple P (bind m f) R.
Proof.
  intros Hm Hf w b w' HP H. unfold bind in H.
  destruct (m w) as [[a|e|] w1] eqn:E; try discriminate.
  eapply Hf; [eapply Hm; eassumption | exact H].
Qed.

Lemma triple_conseq {A} (P P' : world -> Prop) (m : M A) (Q Q' : A -> world -> Prop) :
  (forall w, P' w -> P w) -> triple P m Q -> (forall a w, Q a w -> Q' a w) ->
  triple P' m Q'.
Proof. intros HP H HQ w a w' Hw Hr. eapply HQ, H; eauto. Qed.

Lemma triple_when (P : world -> Prop) (c : bool) e :
  triple P (when c (raise e)) (fun _ => P).
Proof. destruct c; [apply triple_raise | apply triple_ret; auto]. Qed.

Lemma triple_for_each_from {A} (I : list A -> world -> Prop) (body : A -> unit -> M unit) xs :
  forall done,
    (forall pre x post, xs = pre ++ x :: post ->
       triple (I (done ++ pre)) (body x tt) (fun _ => I (done ++ pre ++ [x]))) ->
    triple (I done) (for_each xs body tt) (fun _ => I (done ++ xs)).
Proof.
  induction xs as [|x xs IH]; intros done H.
  - apply triple_ret. intros w. now rewrite app_nil_r.
  - cbn [for_each]. eapply triple_bind.
    + specialize (H [] x xs eq_refl). rewrite app_nil_r in H. exact H.
    + intros []. cbn beta. eapply triple_conseq; [| apply (IH (done ++ [x])) |].
      * intros w Hw. exact Hw.
      * intros pre y post E.
        specialize (H (x :: pre) y post (f_equal (cons x) E)).
        rewrite <- !app_assoc. exact H.
      * intros a w. cbn beta. now rewrite <- app_assoc.
Qed.

(** The loop rule, with an invariant that knows the entries done. *)
Lemma triple_for_each_prefix {A} (I : list A -> world -> Prop) (body : A -> unit -> M unit) xs :
  (forall pre x post, xs = pre ++ x :: post ->
     triple (I pre) (body x tt) (fun _ => I (pre ++ [x]))) ->
  triple (I []) (for_each xs body tt) (fun _ => I xs).
Proof. intros H. apply (triple_for_each_from I body xs []). exact H. Qed.

Lemma triple_for_each {A} (I : world -> Prop) (body : A -> unit -> M unit) xs :
  (forall x, In x xs -> triple I (body x tt) (fun _ => I)) ->
  triple I (for_each xs body tt) (fun _ => I).
Proof.
  intros H. apply (triple_for_each_prefix (fun _ => I)).
  intros pre x post E. apply H. subst xs. apply in_elt.
Qed.

Lemma triple_same_windows {A} (P : world -> Prop) (m : M A) :
  on_windows P ->
  (forall w a w', m w = (Ok a, w') -> windows w' = windows w) ->
  triple P m (fun _ => P).
Proof. intros HP Hm w a w' Hw Hr. eapply HP; [eapply Hm|]; eassumption. Qed.

Lemma triple_reads_only {A} (P : world -> Prop) (m : M A) :
  reads_only m -> triple P m (fun _ => P).
Proof. intros Hm w a w' Hw Hr. specialize (Hm w). rewrite Hr in Hm. now subst. Qed.

Lemma on_windows_window_has wid Q : on_windows (window_has wid Q).
Proof. intros w w' E (W & H & HQ). exists W. now rewrite E. Qed.

Lemma on_windows_in_window wid Q : on_windows (in_window wid Q).
Proof.
  intros w w' E [Hc H]. split; [now rewrite E|].
  now apply (on_windows_window_has wid Q w).
Qed.

Lemma in_window_cur wid Q w :
  in_window wid Q w ->
  exists W, cur (windows w) = Some wid /\ c_get wid (windows w) = Some W
            /\ cur_window w = Some W /\ Q W.
Proof.
  intros [Hc (W & HW & HQ)]. exists W. repeat split; try assumption.
  now apply (c_cur_of_id _ _ _ Hc HW).
Qed.

Lemma in_window_put wid (Q : window -> Prop) w W W' :
  cur (windows w) = Some wid -> c_get wid (windows w) = Some W -> Q W' ->
  in_window wid Q (put_cur_window W' w).
Proof.
  intros Hc HW HQ. unfold in_window, window_has, put_cur_window, with_windows.
  cbn [windows]. rewrite cur_put_cur. split; [exact Hc|].
  exists W'. split; [|exact HQ].
  unfold c_put_cur. rewrite Hc. apply c_get_put_same. congruence.
Qed.

Lemma in_window_weaken wid (Q Q' : window -> Prop) w :
  (forall W, Q W -> Q' W) -> in_window wid Q w -> in_window wid Q' w.
Proof. intros H [Hc (W & HW & HQ)]. split; [exact Hc|]. exists W. auto. Qed.

Lemma triple_on_window {A} wid (Q : window -> Prop) (Q' : A -> window -> Prop)
      (f : window -> exn + A * window) :
  (forall W a W', Q W -> f W = inr (a, W') -> Q' a W') ->
  triple (in_window wid Q) (on_window f) (fun a => in_window wid (Q' a)).
Proof.
  intros H w a w' HI Hr.
  destruct (in_window_cur _ _ _ HI) as (W & Hc & HW & HcW & HQ).
  unfold on_window in Hr. rewrite HcW in Hr.
  destruct (f W) as [e|[a' W']] eqn:E; [discriminate|].
  injection Hr as <- <-. apply (in_window_put wid _ w W); eauto.
Qed.

Lemma triple_on_frame {A} wid (Q : window -> Prop) (Q' : A -> window -> Prop)
      (f : frame -> exn + A * frame) :
  (forall W F a F', Q W -> win_cur_frame W = Some F -> f F = inr (a, F') ->
                    Q' a (win_put_frame F' W)) ->
  triple (in_window wid Q) (on_frame f) (fun a => in_window wid (Q' a)).
Proof.
  intros H w a w' HI Hr.
  destruct (in_window_cur _ _ _ HI) as (W & Hc & HW & HcW & HQ).
  unfold on_frame, cur_frame in Hr. rewrite HcW in Hr.
  destruct (win_cur_frame W) as [F|] eqn:HF; [|discriminate].
  destruct (f F) as [e|[a' F']] eqn:E; [discriminate|].
  injection Hr as <- <-. unfold put_cur_frame. rewrite HcW.
  apply (in_window_put wid _ w W); eauto.
Qed.

Lemma triple_on_plot {A} wid (Q : window -> Prop) (Q' : A -> window -> Prop)
      (f : plot -> exn + A * plot) :
  (forall W F P a P', Q W -> win_cur_frame W = Some F -> c_cur (frm_plots F) = Some P ->
                      f P = inr (a, P') ->
                      Q' a (win_put_frame (frm_put_plot P' F) W)) ->
  triple (in_window wid Q) (on_plot f) (fun a => in_window wid (Q' a)).
Proof.
  intros H w a w' HI Hr.
  destruct (in_window_cur _ _ _ HI) as (W & Hc & HW & HcW & HQ).
  unfold on_plot, cur_plot in Hr. rewrite HcW in Hr. unfold win_cur_plot in Hr.
  destruct (win_cur_frame W) as [F|] eqn:HF; [|discriminate].
  destruct (c_cur (frm_plots F)) as [P|] eqn:HP; [|discriminate].
  destruct (f P) as [e|[a' P']] eqn:E; [discriminate|].
  injection Hr as <- <-. unfold put_cur_plot. rewrite HcW.
  unfold win_put_plot. rewrite HF.
  apply (in_window_put wid _ w W); eauto.
Qed.

Lemma triple_set_current_window wid (Q : window -> Prop) :
  triple (window_has wid Q) (set_current_window wid) (fun _ => in_window wid Q).
Proof.
  intros w a w' (W & HW & HQ) Hr. unfold set_current_window, c_select in Hr.
  rewrite HW in Hr. injection Hr as _ <-.
  split; [reflexivity|]. exists W. split; [exact HW | exact HQ].
Qed.

Lemma triple_set_current_frame wid (Q : window -> Prop) id :
  triple (in_window wid Q) (set_current_frame id)
         (fun _ => in_window wid (fun W' =>
            exists W, Q W /\ c_get id (win_frames W) <> None
                      /\ W' = mkWindow (mkC (items (win_frames W)) (Some id)))).
Proof.
  apply triple_on_window. intros W a W' HQ Hf. unfold c_select in Hf.
  destruct (c_get id (win_frames W)) eqn:E; [|discriminate].
  injection Hf as _ <-. exists W. repeat split; [exact HQ | congruence].
Qed.

Lemma triple_move_frame wid (Q Q' : window -> Prop) cid x y r :
  (forall W F s, Q W -> win_cur_frame W = Some F -> Q' (win_put_frame (with_shift s F) W)) ->
  triple (in_window wid Q) (move_frame cid x y r) (fun _ => in_window wid Q').
Proof.
  intros H w a w' HI Hr.
  destruct (in_window_cur _ _ _ HI) as (W & Hc & HW & HcW & HQ).
  unfold move_frame, cur_frame in Hr. rewrite HcW in Hr.
  destruct (win_cur_frame W) as [F|] eqn:HF; [|discriminate].
  destruct (coord_sys cid) as [[|]|]; try discriminate.
  destruct (Z.eqb r 1); try discriminate.
  destruct (move_ok w _); [|discriminate].
  injection Hr as _ <-. unfold put_cur_frame. rewrite HcW.
  apply (in_window_put wid _ w W); eauto.
Qed.

Lemma triple_get_curve wid (Q : window -> Prop) id :
  triple (in_window wid Q) (get_curve id)
         (fun c => in_window wid (fun W =>
            Q W /\ exists P, win_cur_plot W = Some P /\ style_in P id c)).
Proof.
  intros w a w' HI Hr.
  destruct (in_window_cur _ _ _ HI) as (W & Hc & HW & HcW & HQ).
  unfold get_curve, cur_plot in Hr. rewrite HcW in Hr.
  destruct (win_cur_plot W) as [P|] eqn:HP; [|discriminate].
  destruct (c_get id (plt_curves P)) as [c|] eqn:E; [|discriminate].
  injection Hr as <- <-. split; [exact Hc|]. exists W. split; [exact HW|].
  split; [exact HQ|]. exists P. split; [exact HP|]. unfold style_in. now rewrite E.
Qed.

Lemma triple_print (P : world -> Prop) s : on_windows P -> triple P (print s) (fun _ => P).
Proof. intros HP. apply triple_same_windows; [exact HP|]. now intros w a w' [= _ <-]. Qed.

Lemma triple_open_undo_block (P : world -> Prop) :
  on_windows P -> triple P open_undo_block (fun _ => P).
Proof. intros HP. apply triple_same_windows; [exact HP|]. now intros w a w' [= _ <-]. Qed.

Lemma triple_close_undo_block (P : world -> Prop) :
  on_windows P -> triple P close_undo_block (fun _ => P).
Proof. intros HP. apply triple_same_windows; [exact HP|]. now intros w a w' [= _ <-]. Qed.

Lemma triple_try_except {A} (P : world -> Prop) (m : M A) h (Q : A -> world -> Prop) :
  triple P m Q ->
  (forall w e w', P w -> m w = (Raise e, w') -> forall a w'', h e w' = (Ok a, w'') -> Q a w'') ->
  triple P (try_except m h) Q.
Proof.
  intros Hm Hh w a w' HP Hr. unfold try_except in Hr.
  destruct (m w) as [[b|e|] w1] eqn:E.
  - eapply Hm; [exact HP|]. now rewrite E.
  - eapply Hh; eassumption.
  - discriminate.
Qed.

End Triples.

(** ** The focus across the operations *)

Section FocusKept.

Import Legend.
Local Open Scope py_scope.

Lemma keep_refl W : frames_keep W W.
Proof. now intros id. Qed.

Lemma keep_select W0 W id :
  frames_keep W0 W -> frames_keep W0 (mkWindow (mkC (items (win_frames W)) (Some id))).
Proof. intros H i. exact (H i). Qed.

Lemma keep_put_frame W0 W F F' :
  frames_keep W0 W -> win_cur_frame W = Some F -> cur_plot_id F' = cur_plot_id F ->
  frames_keep W0 (win_put_frame F' W).
Proof.
  intros H HF E id. rewrite <- (H id).
  destruct (c_cur_Some _ _ HF) as (fc & Hc & Hg & _).
  unfold win_put_frame, c_put_cur. cbn [win_frames]. rewrite Hc.
  destruct (String.eqb_spec id fc) as [->|Hne].
  - rewrite c_get_put_same, Hg by congruence. cbn. now rewrite E.
  - now rewrite c_get_put_other.
Qed.

Lemma cur_plot_id_put_plot P F : cur_plot_id (frm_put_plot P F) = cur_plot_id F.
Proof. apply c_cur_id_put_cur. Qed.

Lemma keep_put_plot W0 W F P :
  frames_keep W0 W -> win_cur_frame W = Some F ->
  frames_keep W0 (win_put_frame (frm_put_plot P F) W).
Proof. intros H HF. eapply keep_put_frame; eauto using cur_plot_id_put_plot. Qed.

Variables (wid : string) (W0 : window).

Local Abbreviation kept := (focus_kept wid W0).

Lemma kept_on_windows : on_windows kept.
Proof. apply on_windows_in_window. Qed.

Lemma kept_set_current_frame id :
  triple kept (set_current_frame id)
         (fun _ => in_window wid (fun W => frames_keep W0 W
                                            /\ cur (win_frames W) = Some id
                                            /\ c_get id (win_frames W) <> None)).
Proof.
  eapply triple_conseq; [| apply triple_set_current_frame |]; [intros w H; exact H|].
  intros a w. apply in_window_weaken. intros W' (W & HK & Hid & ->).
  split; [now apply keep_select|]. split; [reflexivity | exact Hid].
Qed.

Lemma kept_set_current_frame' id : triple kept (set_current_frame id) (fun _ => kept).
Proof.
  eapply triple_conseq; [| apply kept_set_current_frame |]; [intros w H; exact H|].
  intros a w. apply in_window_weaken. now intros W (H & _).
Qed.

Lemma kept_on_plot {A} (f : plot -> exn + A * plot) : triple kept (on_plot f) (fun _ => kept).
Proof.
  apply (triple_on_plot wid (frames_keep W0) (fun _ => frames_keep W0)).
  intros W F P a P' HK HF _ _. now apply keep_put_plot.
Qed.

Lemma kept_get_curve id : triple kept (get_curve id) (fun _ => kept).
Proof.
  eapply triple_conseq; [| apply triple_get_curve |]; [intros w H; exact H|].
  intros a w. apply in_window_weaken. now intros W (H & _).
Qed.

Lemma kept_my_move_frame x y : triple kept (my_move_frame x y) (fun _ => kept).
Proof.
  unfold my_move_frame. apply triple_try_except.
  - apply triple_move_frame. intros W F s HK HF.
    eapply keep_put_frame; [eassumption | eassumption | reflexivity].
  - intros w e w' Hk Hr a w'' Hp.
    assert (Hw : w' = w).
    { unfold move_frame in Hr. destruct (cur_frame w); [|now injection Hr].
      destruct (coord_sys _) as [[|]|]; try (now injection Hr).
      destruct (Z.eqb 1 1); try (now injection Hr).
      destruct (move_ok w _); [discriminate | now injection Hr]. }
    subst w'. injection Hp as _ <-. now apply (kept_on_windows w).
Qed.

Lemma kept_move_key key : triple kept (move_key key) (fun _ => kept).
Proof.
  unfold move_key. eapply triple_bind; [apply triple_reads_only, reads_only_item|].
  intros keyval. cbn beta.
  assert (Hd : forall (k : string -> M ctl),
             (forall s, triple kept (k s) (fun _ => kept)) ->
             triple kept (bind (lift (decode_ascii (lower keyval))) k) (fun _ => kept)).
  { intros k Hk. eapply triple_bind; [|exact Hk].
    destruct (decode_ascii (lower keyval)); [apply triple_raise | apply triple_ret; auto]. }
  assert (Hm : forall x y, triple kept (my_move_frame x y ;; ret Continue) (fun _ => kept)).
  { intros x y. eapply triple_bind; [apply kept_my_move_frame|].
    intros u. apply triple_ret. auto. }
  apply Hd. intros k1. destruct (String.eqb k1 "w"); [apply Hm|].
  apply Hd. intros k2. destruct (String.eqb k2 "s"); [apply Hm|].
  apply Hd. intros k3. destruct (String.eqb k3 "a"); [apply Hm|].
  apply Hd. intros k4. destruct (String.eqb k4 "d"); [apply Hm|].
  apply Hd. intros k5. destruct (String.eqb k5 "q"); apply triple_ret; auto.
Qed.

Lemma kept_move_loop pending : triple kept (move_loop pending) (fun _ => kept).
Proof.
  induction pending as [|key rest IH]; cbn [move_loop].
  - intros w a w' _ H. discriminate.
  - apply triple_bind with (Q := fun _ => kept);
      [apply triple_ret; intros w H; exact H|].
    intros kr. cbn beta. eapply triple_bind; [apply kept_move_key|].
    intros [|]; [exact IH | apply triple_ret; auto].
Qed.

(** The tail the three operations share: make [old] the current frame
    again and close the undo block. *)
Lemma kept_restore old :
  triple kept (set_current_frame old ;; close_undo_block)
         (fun _ => in_window wid (fun W => frames_keep W0 W
                                            /\ cur (win_frames W) = Some old
                                            /\ c_get old (win_frames W) <> None)).
Proof.
  eapply triple_bind; [apply kept_set_current_frame|].
  intros u. apply triple_close_undo_block, on_windows_in_window.
Qed.

Hypotheses (w0 : world) (old : string) (Fold : frame).
Hypothesis Hcur : cur (windows w0) = Some wid.
Hypothesis HW0 : c_get wid (windows w0) = Some W0.
Hypothesis Hold_cur : cur (win_frames W0) = Some old.
Hypothesis Hold : c_get old (win_frames W0) = Some Fold.

Lemma kept_initially w : windows w = windows w0 -> kept w.
Proof.
  intros E. split; [now rewrite E|]. exists W0. rewrite E. split; [exact HW0 | apply keep_refl].
Qed.

Lemma focus_of_kept w' :
  in_window wid (fun W => frames_keep W0 W /\ cur (win_frames W) = Some old
                          /\ c_get old (win_frames W) <> None) w' ->
  same_focus w0 w'.
Proof.
  intros [Hc (W & HW & HK & Hco & Hne)].
  destruct (c_get old (win_frames W)) as [F|] eqn:HF; [clear Hne | congruence].
  destruct (c_cur_of_id _ _ _ Hc HW) as [HcW Hfw].
  destruct (c_cur_of_id _ _ _ Hcur HW0) as [HcW0 Hfw0].
  destruct (c_cur_of_id _ _ _ Hco HF) as [HcF HfF].
  destruct (c_cur_of_id _ _ _ Hold_cur Hold) as [HcF0 HfF0].
  change (cur_window w' = Some W) in HcW. change (cur_window w0 = Some W0) in HcW0.
  unfold same_focus, focused_window, focused_frame, focused_plot, cur_frame, win_cur_frame.
  rewrite HcW, HcW0, Hfw, Hfw0, HfF, HfF0, HcF, HcF0.
  repeat split. specialize (HK old). rewrite HF, Hold in HK. now injection HK.
Qed.

Hypothesis Hwf : wf_world w0 = true.

Lemma lookup_frame_initially :
  triple (fun w => windows w = windows w0) (_get_current_object_name "Frame")
         (fun r w => r = old /\ windows w = windows w0).
Proof.
  intros w a w' E Hr.
  destruct (c_cur_of_id _ _ _ Hcur HW0) as [HcW0 Hfw0].
  destruct (c_cur_of_id _ _ _ Hold_cur Hold) as [HcF0 HfF0].
  rewrite (lookup_current_frame w wid W0 old Fold) in Hr.
  - injection Hr as <- <-. auto.
  - unfold wf_world. rewrite E. exact Hwf.
  - unfold focused_window. rewrite E. exact Hfw0.
  - unfold cur_window. rewrite E. exact HcW0.
  - exact HfF0.
  - exact HcF0.
Qed.

(** An operation that opens the undo block, notes the current frame,
    does work that keeps the invariant, and restores the frame, gives
    the focus back. *)
Lemma framed_operation (wrap : M unit -> M unit) :
  (forall k R, triple kept k R -> triple kept (wrap k) R) ->
  triple (fun w => windows w = windows w0)
         (open_undo_block ;;
          old_frame <- _get_current_object_name "Frame" ;;
          wrap (set_current_frame old_frame ;; close_undo_block))
         (fun _ w' => same_focus w0 w').
Proof.
  intros Hwrap.
  eapply triple_bind; [apply triple_open_undo_block; intros w w' E H; congruence|].
  intros u. eapply triple_bind; [apply lookup_frame_initially|].
  intros r w a w' [-> E] Hr.
  assert (T : triple kept (wrap (set_current_frame old ;; close_undo_block))
                     (fun _ w' => same_focus w0 w')).
  { apply Hwrap. eapply triple_conseq; [| apply (kept_restore old) |];
      [intros w1 H; exact H|].
    intros b w1. apply focus_of_kept. }
  eapply T; [apply kept_initially; exact E | exact Hr].
Qed.

End FocusKept.

Section FocusRestored.

Import Legend.
Local Open Scope py_scope.

Lemma has_focus_frames w :
  has_focus w = true ->
  exists wid W old Fold,
    cur (windows w) = Some wid /\ c_get wid (windows w) = Some W
    /\ cur (win_frames W) = Some old /\ c_get old (win_frames W) = Some Fold.
Proof.
  intros H. apply has_focus_cur_plot in H. unfold cur_plot in H.
  destruct (cur_window w) as [W|] eqn:HW; [|congruence].
  unfold win_cur_plot in H.
  destruct (win_cur_frame W) as [F|] eqn:HF; [|congruence].
  destruct (c_cur_Some _ _ HW) as (wid & Hc & Hg & _).
  destruct (c_cur_Some _ _ HF) as (old & Hco & Hgo & _).
  exists wid, W, old, F. auto.
Qed.

Lemma kept_label_loop wid W0 (pairs : list (string * string)) :
  triple (focus_kept wid W0)
         (for_each pairs (fun p _ => set_label_text (fst p) (snd p)) tt)
         (fun _ => focus_kept wid W0).
Proof. apply triple_for_each. intros p _. apply kept_on_plot. Qed.

(** One entry of [update] keeps the invariant when the frame the legend
    was built over has the plot it was built over as its current one. *)
Lemma kept_update_entry self W0 e :
  (forall F, c_get (orig_frm self) (win_frames W0) = Some F ->
             cur_plot_id F = Some (orig_plot self)) ->
  triple (focus_kept (orig_win self) W0) (_update_entry self e tt)
         (fun _ => focus_kept (orig_win self) W0).
Proof.
  intros Hsrc. destruct e as [[usr lgn] lpt]. cbn [_update_entry].
  eapply triple_bind.
  { eapply triple_conseq; [| apply triple_set_current_window |];
      [intros w H; exact (proj2 H) | intros a w H; exact H]. }
  intros u1. eapply triple_bind; [apply kept_set_current_frame|].
  intros u2. eapply triple_bind.
  { apply (triple_on_frame (orig_win self) _ (fun _ => frames_keep W0)).
    intros W F a F' (HK & Hc & Hne) HF Hf.
    eapply keep_put_frame; [exact HK | exact HF |].
    unfold c_select in Hf.
    destruct (c_get (orig_plot self) (frm_plots F)) as [P|] eqn:HP; [|discriminate].
    injection Hf as _ <-.
    assert (HgF : c_get (orig_frm self) (win_frames W) = Some F).
    { unfold win_cur_frame, c_cur in HF. now rewrite Hc in HF. }
    pose proof (HK (orig_frm self)) as HKf. rewrite HgF in HKf.
    destruct (c_get (orig_frm self) (win_frames W0)) as [F0|] eqn:HF0; [|discriminate].
    injection HKf as HKf. rewrite HKf, (Hsrc F0 eq_refl).
    unfold cur_plot_id, c_cur_id, with_plots. cbn [frm_plots cur].
    unfold c_get in *. cbn [items]. now rewrite HP. }
  intros u3. eapply triple_bind; [apply kept_get_curve|].
  intros cc. cbn beta. eapply triple_bind; [apply kept_set_current_frame'|].
  intros u4. eapply triple_bind; [apply kept_on_plot|].
  intros u5. eapply triple_bind; [apply kept_on_plot|].
  intros u6. apply kept_on_plot.
Qed.

Lemma source_in_focus_inv self w W0 :
  source_in_focus self w = true -> cur (windows w) = Some (orig_win self) ->
  c_get (orig_win self) (windows w) = Some W0 ->
  forall F, c_get (orig_frm self) (win_frames W0) = Some F ->
            cur_plot_id F = Some (orig_plot self).
Proof.
  unfold source_in_focus, find_frame. intros H Hc HW F HF.
  destruct (focused_window w); [|discriminate].
  rewrite HW, HF in H. apply andb_true_iff in H as [_ H].
  destruct (cur_plot_id F) as [p|]; [|discriminate].
  apply String.eqb_eq in H. now subst.
Qed.

Lemma source_in_focus_window self w :
  source_in_focus self w = true -> focused_window w = Some (orig_win self).
Proof.
  unfold source_in_focus. destruct (focused_window w) as [wid|]; [|discriminate].
  destruct (find_frame _ _ w); [|discriminate].
  intros H. apply andb_true_iff in H as [H _]. apply String.eqb_eq in H. now subst.
Qed.

Section Operations.

Variables (wid : string) (W0 : window) (w0 : world) (old : string) (Fold : frame).
Hypothesis Hcur : cur (windows w0) = Some wid.
Hypothesis HW0 : c_get wid (windows w0) = Some W0.
Hypothesis Hold_cur : cur (win_frames W0) = Some old.
Hypothesis Hold : c_get old (win_frames W0) = Some Fold.
Hypothesis Hwf : wf_world w0 = true.

Lemma label_focus self vals :
  triple (fun w => windows w = windows w0) (label self vals)
         (fun _ w' => same_focus w0 w').
Proof.
  unfold label. eapply triple_bind; [apply triple_when|]. intros u.
  apply (framed_operation wid W0 w0 old Fold Hcur HW0 Hold_cur Hold Hwf
           (fun k => set_current_frame (frm self) ;;
                     for_each (combine (lgnd_lbls self) vals)
                              (fun p _ => set_label_text (fst p) (snd p)) tt ;;
                     k)).
  intros k R Hk. eapply triple_bind; [apply kept_set_current_frame'|].
  intros u1. eapply triple_bind; [apply kept_label_loop|].
  intros u2. exact Hk.
Qed.

Lemma move_focus self pending :
  triple (fun w => windows w = windows w0) (move self pending)
         (fun _ w' => same_focus w0 w').
Proof.
  unfold move.
  assert (Hp : forall s, triple (fun w => windows w = windows w0) (print s)
                                (fun _ w => windows w = windows w0)).
  { intros s. apply triple_print. intros w w' E H. congruence. }
  do 6 (eapply triple_bind; [apply Hp|]; intros ?).
  apply (framed_operation wid W0 w0 old Fold Hcur HW0 Hold_cur Hold Hwf
           (fun k => set_current_frame (frm self) ;; move_loop pending ;; k)).
  intros k R Hk. eapply triple_bind; [apply kept_set_current_frame'|].
  intros u1. eapply triple_bind; [apply kept_move_loop|].
  intros u2. exact Hk.
Qed.

Lemma update_focus self :
  wid = orig_win self ->
  (forall F, c_get (orig_frm self) (win_frames W0) = Some F ->
             cur_plot_id F = Some (orig_plot self)) ->
  triple (fun w => windows w = windows w0) (update self)
         (fun _ w' => same_focus w0 w').
Proof.
  intros Ewid Hsrc. unfold update.
  apply (framed_operation wid W0 w0 old Fold Hcur HW0 Hold_cur Hold Hwf
           (fun k => for_each (zip3 (usr_crvs self) (lgnd_crvs self) (lgnd_pnts self))
                              (_update_entry self) tt ;; k)).
  intros k R Hk. eapply triple_bind; [|intros u; exact Hk].
  apply triple_for_each. intros e _. subst wid. now apply kept_update_entry.
Qed.

End Operations.



End FocusRestored.

(** ** Resynchronising *)

Section Resync.

Import Legend.
Local Open Scope py_scope.

Lemma triple_pure {A} (phi : Prop) (P : world -> Prop) (m : M A) (Q : A -> world -> Prop) :
  (phi -> triple P m Q) -> triple (fun w => phi /\ P w) m Q.
Proof. intros H w a w' [Hphi HP]. now apply H. Qed.

Lemma in_window_pure wid (Q : window -> Prop) (phi : Prop) w :
  in_window wid (fun W => Q W /\ phi) w -> phi /\ in_window wid Q w.
Proof.
  intros [Hc (W & HW & HQ & Hphi)]. split; [exact Hphi|].
  split; [exact Hc|]. exists W. auto.
Qed.

Lemma reads_only_item_last {A} (l : list A) : reads_only (item_last l).
Proof. intros w. unfold item_last. now destruct l. Qed.

Lemma reads_only_current name : reads_only (_get_current_object_name name).
Proof.
  unfold _get_current_object_name. apply reads_only_bind; [now intros w|].
  intros [rep|]; [|now intros w].
  apply reads_only_bind; [apply reads_only_item_last|]. intros ff.
  apply reads_only_bind; [apply reads_only_item|]. intros a.
  apply reads_only_bind; [apply reads_only_item|]. now intros b w.
Qed.

Lemma in_zip3 {A B C} (a : list A) (b : list B) (c : list C) x y z :
  In (x, y, z) (zip3 a b c) -> In x a /\ In y b /\ In z c.
Proof.
  unfold zip3. intros H. pose proof (in_combine_r _ _ _ _ H) as Hz.
  apply in_combine_l in H. pose proof (in_combine_r _ _ _ _ H) as Hy.
  apply in_combine_l in H. auto.
Qed.

Lemma NoDup_zip3 {A B C} (a : list A) (b : list B) (c : list C) :
  NoDup b -> NoDup c ->
  NoDup (map (fun e => snd (fst e)) (zip3 a b c)) /\ NoDup (map snd (zip3 a b c)).
Proof.
  revert b c. induction a as [|x a IH]; intros [|y b] [|z c] Hb Hc;
    try (split; constructor).
  - inversion Hb; inversion Hc; subst.
    intros H. apply in_map_iff in H as ([[x' y'] z'] & E & H). cbn in E. subst y'.
    now apply in_zip3 in H.
  - inversion Hb; inversion Hc; subst. now apply (IH b c).
  - inversion Hb; inversion Hc; subst.
    intros H. apply in_map_iff in H as ([[x' y'] z'] & E & H). cbn in E. subst z'.
    now apply in_zip3 in H.
  - inversion Hb; inversion Hc; subst. now apply (IH b c).
Qed.

Lemma nth_error_zip3 {A B C} (a : list A) (b : list B) (c : list C) i x y z :
  nth_error a i = Some x -> nth_error b i = Some y -> nth_error c i = Some z ->
  In (x, y, z) (zip3 a b c).
Proof.
  unfold zip3. revert b c i.
  induction a as [|x0 a IH]; intros [|y0 b] [|z0 c] [|i]; simpl; try discriminate.
  - intros [= ->] [= ->] [= ->]. now left.
  - intros Hx Hy Hz. right. eauto.
Qed.

Variables (self : instance) (P0 PL0 : plot).
Hypothesis Hlf : frm self <> orig_frm self.

Local Abbreviation wid := (orig_win self).
Local Abbreviation fid := (orig_frm self).
Local Abbreviation pid := (orig_plot self).
Local Abbreviation lid := (frm self).
Local Abbreviation state := (legend_state self P0).

Lemma state_select (R : plot -> Prop) W id :
  state R W -> state R (mkWindow (mkC (items (win_frames W)) (Some id))).
Proof. intros H. exact H. Qed.

(** A call that moves the current frame of some window leaves the state
    of the legend's window as it is. *)
Lemma state_set_current_frame (R : plot -> Prop) id :
  triple (window_has wid (state R)) (set_current_frame id)
         (fun _ => window_has wid (state R)).
Proof.
  intros w a w' (W & HW & HS) Hr. unfold set_current_frame, on_window in Hr.
  destruct (cur_window w) as [Wc|] eqn:HWc; [|discriminate].
  destruct (c_select id (win_frames Wc)) as [c|] eqn:Hsel; [|discriminate].
  injection Hr as _ <-.
  unfold c_select in Hsel. destruct (c_get id (win_frames Wc)); [|discriminate].
  injection Hsel as <-.
  destruct (c_cur_Some _ _ HWc) as (wc & Hc & Hg & _).
  unfold window_has, put_cur_window, with_windows, c_put_cur. cbn [windows]. rewrite Hc.
  destruct (String.eqb_spec wid wc) as [E|Hne].
  - rewrite <- E in *. rewrite c_get_put_same by congruence.
    eexists. split; [reflexivity|]. apply state_select. congruence.
  - rewrite c_get_put_other by assumption. eauto.
Qed.

(** Selecting the source plot, once its frame is the current one. *)
Lemma state_set_current_plot (R : plot -> Prop) :
  triple (in_window wid (fun W' =>
            exists W, state R W /\ c_get fid (win_frames W) <> None
                      /\ W' = mkWindow (mkC (items (win_frames W)) (Some fid))))
         (set_current_plot pid)
         (fun _ => in_window wid (fun W => state R W /\ win_cur_plot W = Some P0)).
Proof.
  apply (triple_on_frame wid _ (fun _ W => state R W /\ win_cur_plot W = Some P0)).
  intros W' F a F' (W & HS & Hne & ->) HF Hf.
  destruct HS as [(F0 & HF0 & HP0) (FL & PL & HFL & HPL & HR)].
  assert (F = F0).
  { unfold win_cur_frame, c_cur in HF. cbn [win_frames cur] in HF.
    unfold c_get in *. cbn [items] in HF. congruence. }
  subst F. unfold c_select in Hf. rewrite HP0 in Hf. injection Hf as _ <-.
  set (F' := with_plots (mkC (items (frm_plots F0)) (Some pid)) F0).
  assert (E : win_put_frame F' (mkWindow (mkC (items (win_frames W)) (Some fid)))
              = mkWindow (c_put fid F' (mkC (items (win_frames W)) (Some fid))))
    by reflexivity.
  rewrite E. clear E.
  assert (G1 : c_get fid (c_put fid F' (mkC (items (win_frames W)) (Some fid))) = Some F').
  { apply c_get_put_same. unfold c_get in *. cbn [items]. congruence. }
  unfold legend_state. cbn [win_frames]. split.
  - split.
    + exists F'. split; [exact G1 | exact HP0].
    + exists FL, PL. split; [|auto].
      rewrite c_get_put_other by exact Hlf. exact HFL.
  - unfold win_cur_plot, win_cur_frame. cbn [win_frames].
    assert (Hcur : c_cur (c_put fid F' (mkC (items (win_frames W)) (Some fid))) = Some F')
      by exact G1.
    rewrite Hcur. exact HP0.
Qed.

(** A call on the current plot, when the legend's frame is current. *)
Lemma state_on_plot {A} (R R' : plot -> Prop) (f : plot -> exn + A * plot) :
  (forall P a P', R P -> f P = inr (a, P') -> R' P') ->
  triple (in_window wid (fun W => state R W /\ cur (win_frames W) = Some lid))
         (on_plot f)
         (fun _ => in_window wid (fun W => state R' W /\ cur (win_frames W) = Some lid)).
Proof.
  intros H.
  apply (triple_on_plot wid _ (fun _ W => state R' W /\ cur (win_frames W) = Some lid)).
  intros W F P a P' [HS Hc] HF HP Hf.
  destruct HS as [(F0 & HF0 & HP0) (FL & PL & HFL & HPL & HR)].
  assert (F = FL) by (unfold win_cur_frame, c_cur in HF; rewrite Hc in HF; congruence).
  subst F. assert (P = PL) by congruence. subst P.
  unfold win_put_frame, c_put_cur. rewrite Hc.
  unfold legend_state. cbn [win_frames].
  split; [|exact Hc]. split.
  - exists F0. split; [|exact HP0]. rewrite c_get_put_other by congruence. exact HF0.
  - exists (frm_put_plot P' FL), P'. split; [apply c_get_put_same; congruence|].
    split; [|eauto]. unfold frm_put_plot, with_plots. cbn [frm_plots].
    now apply (c_cur_put_cur _ _ PL).
Qed.

Lemma synced_curves done PL lgn c :
  (forall e, In e done -> snd (fst e) <> lgn) ->
  synced P0 PL0 done PL -> synced P0 PL0 done (with_curves (c_put lgn c (plt_curves PL)) PL).
Proof.
  intros Hfresh [Hl Hd]. split; [exact Hl|].
  rewrite Forall_forall in *. intros e He. destruct (Hd e He) as (st & H1 & H2 & H3).
  exists st. split; [exact H1|]. split; [|exact H3].
  cbn [plt_curves with_curves]. rewrite c_get_put_other; [exact H2|]. now apply Hfresh.
Qed.

(** One entry of [update]. *)
Lemma state_update_entry done e :
  (forall e', In e' done -> snd (fst e') <> snd (fst e)) ->
  (forall e', In e' done -> snd e' <> snd e) ->
  triple (window_has wid (state (synced P0 PL0 done)))
         (_update_entry self e tt)
         (fun _ => window_has wid (state (synced P0 PL0 (done ++ [e])))).
Proof.
  intros Hfc Hfp. destruct e as [[usr lgn] lpt]. cbn [fst snd] in Hfc, Hfp.
  cbn [_update_entry].
  eapply triple_bind; [apply triple_set_current_window|]. intros u1.
  (* the binds associate to the right: peel them one by one *)
  eapply triple_bind; [apply triple_set_current_frame|]. intros u2.
  eapply triple_bind; [apply state_set_current_plot|].
  intros u3. eapply triple_bind; [apply triple_get_curve|]. intros cc. cbn beta.
  eapply triple_conseq with
    (P := fun w => style_in P0 usr cc /\ in_window wid (state (synced P0 PL0 done)) w)
    (Q := fun _ => window_has wid (state (synced P0 PL0 (done ++ [(usr, lgn, lpt)])))).
  { intros w Hw. apply in_window_pure. revert Hw. apply in_window_weaken.
    intros W [[HS HP] (P & HP' & Hst)]. split; [exact HS|]. congruence. }
  2:{ intros a w H. exact H. }
  apply triple_pure. intros Hst.
  eapply triple_bind.
  { eapply triple_conseq; [| apply triple_set_current_frame |]; [intros w H; exact H|].
    intros a w. apply in_window_weaken with
      (Q' := fun W => state (synced P0 PL0 done) W /\ cur (win_frames W) = Some lid).
    intros W' (W & HS & Hne & ->). split; [now apply state_select | reflexivity]. }
  intros u4. eapply triple_bind.
  { apply (state_on_plot (synced P0 PL0 done)
             (fun PL => synced P0 PL0 done PL
                        /\ option_map crv_attr (c_get lgn (plt_curves PL)) = Some cc)).
    intros P a P' HR Hf.
    destruct (c_get lgn (plt_curves P)) as [c|] eqn:Hc; [|discriminate].
    cbn [apply_curve_arg] in Hf. injection Hf as _ <-.
    split; [now apply synced_curves|].
    cbn [plt_curves with_curves]. rewrite c_get_put_same by congruence. reflexivity. }
  intros u5. eapply triple_bind.
  { apply (state_on_plot _
             (fun PL => synced P0 PL0 done PL
                        /\ option_map crv_attr (c_get lgn (plt_curves PL))
                           = Some (set_symbol_style (PyStr "none") cc))).
    intros P a P' [HR Hcc] Hf.
    destruct (c_get lgn (plt_curves P)) as [c|] eqn:Hc; [|discriminate].
    change (apply_curve_arg (AttrString "symbol.style=none") (crv_attr c))
      with (@inr exn _ (set_symbol_style (PyStr "none") (crv_attr c))) in Hf.
    injection Hf as _ <-.
    split; [now apply synced_curves|].
    cbn [plt_curves with_curves]. rewrite c_get_put_same by congruence.
    cbn in Hcc. injection Hcc as ->. reflexivity. }
  intros u6.
  eapply triple_conseq; [intros w H; exact H | |].
  { apply (state_on_plot _ (synced P0 PL0 (done ++ [(usr, lgn, lpt)]))).
    intros P a P' [[Hl Hd] Hcc] Hf.
    destruct (c_get lpt (plt_points P)) as [p|] eqn:Hp; [|discriminate].
    injection Hf as _ <-. split; [exact Hl|].
    apply Forall_app. split.
    - rewrite Forall_forall in *. intros e He. destruct (Hd e He) as (st & H1 & H2 & H3).
      exists st. split; [exact H1|]. split; [exact H2|].
      cbn [plt_points with_points]. rewrite c_get_put_other; [exact H3|]. now apply Hfp.
    - constructor; [|constructor]. exists cc. cbn [fst snd].
      split; [exact Hst|]. split; [exact Hcc|].
      cbn [plt_points with_points]. rewrite c_get_put_same by congruence. reflexivity. }
  intros a w [_ (W & HW & HS & _)]. exists W. auto.
Qed.

Lemma state_update_loop xs :
  NoDup (map (fun e => snd (fst e)) xs) -> NoDup (map snd xs) ->
  triple (window_has wid (state (synced P0 PL0 [])))
         (for_each xs (_update_entry self) tt)
         (fun _ => window_has wid (state (synced P0 PL0 xs))).
Proof.
  intros Hc Hp.
  apply (triple_for_each_prefix
           (fun done => window_has wid (state (synced P0 PL0 done)))).
  intros pre x post E. subst xs. rewrite !map_app in Hc, Hp. cbn [map] in Hc, Hp.
  apply NoDup_remove_2 in Hc, Hp.
  apply state_update_entry.
  - intros e' He' Eq. apply Hc. apply in_or_app. left.
    rewrite <- Eq. now apply (in_map (fun e => snd (fst e))).
  - intros e' He' Eq. apply Hp. apply in_or_app. left.
    rewrite <- Eq. now apply in_map.
Qed.

End Resync.

Section ResyncClaims.

Import Legend.
Local Open Scope py_scope.





End ResyncClaims.

(** ** The lookups, by the text of the report *)

Section LookupClaims.

Import Legend.
Local Open Scope py_scope.



End LookupClaims.

(** ** The keys of the interactive loop *)

Section Keys.

Import Legend.
Local Open Scope py_scope.

Lemma is_ascii_lower_byte c : is_ascii_byte (lower_byte c) = is_ascii_byte c.
Proof. destruct c as [[] [] [] [] [] [] [] []]; reflexivity. Qed.

Lemma all_ascii_lower s : all_ascii (lower s) = all_ascii s.
Proof.
  induction s as [|c s IH]; [reflexivity|].
  cbn [lower all_ascii]. now rewrite is_ascii_lower_byte, IH.
Qed.

(** C9, where the code departs from it.  A key value that holds a byte
    of 128 or more is not ignored: decoding it raises
    [UnicodeDecodeError], which nothing catches, so the loop is left at
    once, with the keys that follow unread and the world as it was at
    that key. *)
Theorem non_ascii_key_aborts_loop (key : pick) (kv : string) (rest : list pick)
        (w : world) :
  nth_error (pick_keys key) 0 = Some kv -> all_ascii kv = false ->
  exists msg, move_loop (key :: rest) w = (Raise (UnicodeDecodeError msg), w).
Proof.
  intros Hk Ha. eexists. cbn [move_loop get_pick].
  rewrite (bind_ok _ _ _ _ _ (eq_refl : ret (key, rest) w = _)). cbn [fst].
  apply bind_raise. unfold move_key.
  rewrite (bind_ok _ _ _ _ _ (item_ok _ _ _ w Hk)).
  apply bind_raise. unfold decode_ascii. rewrite all_ascii_lower, Ha. reflexivity.
Qed.

Lemma non_ascii_key_aborts_loop_witness :
  exists msg,
    move_loop [key_press byte_e9; key_press "w"; key_press "q"] legend_sample_world
    = (Raise (UnicodeDecodeError msg), legend_sample_world).
Proof.
  apply (non_ascii_key_aborts_loop (key_press byte_e9) byte_e9); vm_compute; reflexivity.
Defined.

(** The same at the level of [move]: with the key value [0xE9] first,
    the call ends in the error, the keys [w] and [q] that follow are
    never read, the undo block is left open and the legend's frame is
    left as the current one. *)
Lemma move_aborted_by_non_ascii_key :
  let r := move sample_legend [key_press byte_e9; key_press "w"; key_press "q"]
                legend_sample_world in
  fst r = Raise (UnicodeDecodeError
                   "'ascii' codec can't decode byte: ordinal not in range(128)")
  /\ undo_open (snd r) = S (undo_open legend_sample_world)
  /\ focused_frame legend_sample_world = Some (orig_frm sample_legend)
  /\ focused_frame (snd r) = Some (frm sample_legend)
  /\ frm sample_legend <> orig_frm sample_legend.
Proof. vm_compute. repeat split; try reflexivity. discriminate. Qed.

(** The keys the loop recognises, for a key value that decodes: [w],
    [s], [a] and [d], in either case, move the current frame by the
    offset of the key when the host accepts the move, and print the
    host's error when it refuses; [q] ends the loop; any other key
    changes nothing; the loop goes on in every case but [q]. *)
Theorem recognised_keys (key : pick) (kv k : string) (w : world) (F : frame) :
  nth_error (pick_keys key) 0 = Some kv ->
  decode_ascii (lower kv) = inr k ->
  cur_frame w = Some F ->
  match offset_of k with
  | Some (x, y) =>
      let s := (fst (frm_shift F) + x, snd (frm_shift F) + y)%Z in
      move_key key w
      = (Ok Continue, if move_ok w s then put_cur_frame (with_shift s F) w else refused w)
  | None =>
      move_key key w = (Ok (if String.eqb k "q" then Break else Continue), w)
  end.
Proof.
  intros Hk Hd HF. unfold move_key.
  rewrite (bind_ok _ _ _ _ _ (item_ok _ _ _ w Hk)). rewrite Hd. cbn [lift].
  assert (Hm : forall x y,
             (my_move_frame x y ;; ret Continue) w
             = (Ok Continue,
                if move_ok w (fst (frm_shift F) + x, snd (frm_shift F) + y)%Z
                then put_cur_frame
                       (with_shift (fst (frm_shift F) + x, snd (frm_shift F) + y)%Z F) w
                else refused w)).
  { intros x y. unfold bind, my_move_frame, try_except, move_frame. rewrite HF.
    cbn [coord_sys Z.eqb Pos.eqb].
    destruct (move_ok w _); reflexivity. }
  unfold offset_of.
  rewrite (bind_ok _ _ _ _ _ (eq_refl : ret k w = _)).
  destruct (String.eqb k "w"); [apply Hm|].
  rewrite (bind_ok _ _ _ _ _ (eq_refl : ret k w = _)).
  destruct (String.eqb k "s"); [apply Hm|].
  rewrite (bind_ok _ _ _ _ _ (eq_refl : ret k w = _)).
  destruct (String.eqb k "a"); [apply Hm|].
  rewrite (bind_ok _ _ _ _ _ (eq_refl : ret k w = _)).
  destruct (String.eqb k "d"); [apply Hm|].
  rewrite (bind_ok _ _ _ _ _ (eq_refl : ret k w = _)).
  destruct (String.eqb k "q"); reflexivity.
Qed.

Lemma recognised_keys_witness :
  exists F,
    cur_frame legend_focused_world = Some F
    /\ move_key (key_press "W") legend_focused_world
       = (Ok Continue,
          put_cur_frame
            (with_shift (fst (frm_shift F) + 0, snd (frm_shift F) + 5)%Z F)
            legend_focused_world).
Proof.
  eexists. split; [vm_compute; reflexivity|].
  match goal with
  | |- ?G =>
      exact (recognised_keys (key_press "W") "W" "w" legend_focused_world _
               eq_refl eq_refl eq_refl <: G)
  end.
Defined.

End Keys.

Section UndoBlock.

Import Legend.
Local Open Scope py_scope.

(** The constructor closes the undo block it opens: in a world with one
    window, one frame and one plot in focus and at least one curve, the
    depth of open undo blocks after the construction is the one before
    it. *)
Theorem construction_closes_undo_block (reverse : bool) (w : world) :
  wf_world w = true ->
  List.length (all_windows w) = 1 -> List.length (all_frames w) = 1 ->
  List.length (all_plots w) = 1 -> 1 <= List.length (all_curves w) ->
  has_focus w = true ->
  exists self w', __init__ reverse w = (Ok self, w') /\ undo_open w' = undo_open w.
Proof.
  intros Hwf Hw Hf Hp Hc Hfoc.
  assert (Hne : all_curves w <> [])
    by (destruct (all_curves w); simpl in *; [lia | discriminate]).
  destruct (init_facts reverse w Hwf Hw Hf Hp Hne (has_focus_cur_plot _ Hfoc))
    as (self & w' & P0 & PL & Hrun & H).
  exists self, w'. split; [exact Hrun|].
  repeat match type of H with _ /\ _ => destruct H as [_ H] end. exact H.
Qed.

Lemma construction_closes_undo_block_witness :
  exists self w',
    __init__ true sample_world = (Ok self, w') /\ undo_open w' = undo_open sample_world.
Proof.
  apply (construction_closes_undo_block true sample_world);
    first [vm_compute; reflexivity | simpl; lia].
Defined.

End UndoBlock.

(** ** The layout the constructor leaves *)

Section Layout.

Import Legend.
Local Open Scope py_scope.

Variables (wid fid pid : string) (F : frame) (P : plot).
Hypotheses (Twid : token wid = true) (Tfid : token fid = true)
           (Tpid : token pid = true) (WP : wf_plot P = true).

Local Abbreviation F0 := (with_plots (one pid P) F).
Local Abbreviation lid := (fresh_id "Legend" [fid]).

Lemma drawing_area_layout self u out mv :
  let n := List.length (lgnd self) in
  _make_drawing_area self (framed_world wid fid F0 lid (legend_frame n) u out mv)
  = (Ok tt,
     legend_world wid fid F0 lid (legend_frame n) "plot1"
       (mkPlot legend_plot_attrs (plt_axes (legend_area n)) empty empty empty empty)
       u out mv)
  /\ _background self
       (legend_world wid fid F0 lid (legend_frame n) "plot1"
          (mkPlot legend_plot_attrs (plt_axes (legend_area n)) empty empty empty empty)
          u out mv)
     = (Ok tt, legend_world wid fid F0 lid (legend_frame n) "plot1" (legend_area n) u out mv).
Proof.
  intros n. split.
  - unfold _make_drawing_area.
    erewrite bind_ok; [|apply add_plot_framed; reflexivity].
    unfold add_axis, hide_axis.
    erewrite bind_ok; [|apply (on_plot_legend_world _ _ _ _ _ _ (lid_fid fid)); reflexivity].
    erewrite bind_ok; [|apply (on_plot_legend_world _ _ _ _ _ _ (lid_fid fid)); reflexivity].
    erewrite bind_ok; [|apply (on_plot_legend_world _ _ _ _ _ _ (lid_fid fid)); reflexivity].
    apply (on_plot_legend_world _ _ _ _ _ _ (lid_fid fid)). reflexivity.
  - unfold _background, add_region.
    apply (on_plot_legend_world _ _ _ _ _ _ (lid_fid fid)). reflexivity.
Qed.

(** The run of the constructor over a world with one window, frame and
    plot, with the legend's plot spelled out. *)
Lemma init_simple_world_area reverse u out mv :
  items (plt_curves P) <> [] ->
  let lg := styles_of P (ids (items (plt_curves P))) in
  let n := List.length lg in
  __init__ reverse (simple_world wid fid F pid P u out mv)
  = (Ok (drawn_self n (legend_area n)
           (set_lgnd_lbls [] (set_lgnd_pnts [] (set_lgnd_crvs []
           (set_frm lid
              (set_lgnd lg
                 (set_usr_crvs (ids (items (plt_curves P)))
                    (set_orig_plot pid
                       (set_orig_frm fid
                          (set_orig_win wid (set__reverse reverse new_instance))))))))))),
     final_world wid fid F0 lid (legend_frame n) "plot1"
       (drawn_plot reverse n (enumerate lg) (legend_area n)) u
       (if Nat.leb 7 (List.length (items (plt_curves P)))
        then out ++ [large_warning] else out) mv).
Proof.
  intros Hne lg n.
  set (out' := if Nat.leb 7 (List.length (items (plt_curves P)))
               then out ++ [large_warning] else out).
  set (self2 := set_frm lid _).
  destruct (drawing_area_layout self2 (S u) out' mv) as (Hrun1 & Hrun2).
  cbv zeta in Hrun1, Hrun2.
  change (List.length (lgnd self2)) with n in Hrun1, Hrun2.
  destruct (lookups_simple_world wid fid pid F P Twid Tfid Tpid WP u out mv)
    as (HW & HF & HP & HC).
  unfold __init__.
  rewrite (bind_ok _ _ _ _ _ HW). cbn [List.length Nat.eqb negb when].
  rewrite (bind_ok _ _ _ _ _ (eq_refl : ret tt _ = _)).
  rewrite (bind_ok _ _ _ _ _ HF). cbn [List.length Nat.eqb negb when].
  rewrite (bind_ok _ _ _ _ _ (eq_refl : ret tt _ = _)).
  rewrite (bind_ok _ _ _ _ _ HP). cbn [List.length Nat.eqb negb when].
  rewrite (bind_ok _ _ _ _ _ (eq_refl : ret tt _ = _)).
  rewrite (bind_ok _ _ _ _ _ HC).
  unfold ids at 1. rewrite length_map.
  assert (Hz : Nat.eqb (List.length (items (plt_curves P))) 0 = false)
    by (destruct (items (plt_curves P)); [congruence | reflexivity]).
  rewrite Hz. cbn [when]. rewrite (bind_ok _ _ _ _ _ (eq_refl : ret tt _ = _)).
  rewrite (bind_ok _ _ _ _ _ HC).
  unfold ids at 1. rewrite length_map.
  assert (Hpr : when (Nat.leb 7 (List.length (items (plt_curves P)))) (print large_warning)
                     (simple_world wid fid F pid P u out mv)
                = (Ok tt, simple_world wid fid F pid P u out' mv)).
  { unfold out'. destruct (Nat.leb 7 (List.length (items (plt_curves P)))); reflexivity. }
  rewrite (bind_ok _ _ _ _ _ Hpr).
  rewrite (bind_ok _ _ _ _ _
             (eq_refl : open_undo_block (simple_world wid fid F pid P u out' mv)
                        = (Ok tt, simple_world wid fid F pid P (S u) out' mv))).
  rewrite (bind_ok _ _ _ _ _
             (get_current_curves_simple wid fid pid F P Twid Tfid Tpid WP _ _ _ _)).
  rewrite (bind_ok _ _ _ _ _ (make_frame_simple wid fid pid F P Twid Tfid Tpid WP _ _ _ _)).
  fold lg. fold self2.
  change (List.length (lgnd self2)) with n.
  rewrite (bind_ok _ _ _ _ _ Hrun1), (bind_ok _ _ _ _ _ Hrun2).
  unfold _draw.
  erewrite bind_ok.
  2:{ apply draw_loop; try assumption; try apply lid_fid; try apply token_lid;
        try reflexivity.
      - unfold wf_frame, wf_items, one. simpl. now rewrite Tpid, WP.
      - apply (enumerate_nth lg []). }
  cbn [orig_win orig_frm orig_plot drawn_self set_lgnd_lbls set_lgnd_pnts set_lgnd_crvs
       self2 set_frm set_lgnd set_usr_crvs set_orig_plot set_orig_frm set_orig_win].
  rewrite restore_legend_world.
  change (lgnd (set_lgnd_lbls [] (set_lgnd_pnts [] (set_lgnd_crvs [] self2)))) with lg.
  change (_reverse (set_lgnd_lbls [] (set_lgnd_pnts [] (set_lgnd_crvs [] self2))))
    with reverse.
  rewrite enumerate_length. reflexivity.
Qed.

End Layout.

Section Shape2.

Import Legend.
Local Open Scope py_scope.

(** The world the constructor starts from and the world it leaves, in
    full. *)
Lemma init_shape (reverse : bool) (w : world) :
  wf_world w = true ->
  List.length (all_windows w) = 1 ->
  List.length (all_frames w) = 1 ->
  List.length (all_plots w) = 1 ->
  all_curves w <> [] ->
  cur_plot w <> None ->
  let N := List.length (all_curves w) in
  exists wid fid pid F P self,
    w = simple_world wid fid F pid P (undo_open w) (stdout w) (move_ok w)
    /\ __init__ reverse w
       = (Ok self,
          final_world wid fid (with_plots (one pid P) F) (frm self) (legend_frame N) "plot1"
            (drawn_plot reverse N (enumerate (lgnd self)) (legend_area N))
            (undo_open w)
            (if Nat.leb 7 N then stdout w ++ [large_warning] else stdout w)
            (move_ok w))
    /\ orig_win self = wid /\ orig_frm self = fid /\ frm self <> fid
    /\ List.length (lgnd self) = N
    /\ token wid = true /\ token fid = true /\ token pid = true /\ wf_plot P = true
    /\ token (frm self) = true.
Proof.
  intros Hwf Hw Hf Hp Hc Hcur N.
  destruct (simple_shape w Hw Hf Hp Hcur) as (wid & fid & F & pid & P & Ew & Ec & EP).
  pose proof Hwf as Hwf'. rewrite Ew in Hwf'.
  destruct (wf_simple_world_inv _ _ _ _ _ _ _ _ Hwf') as (Twid & Tfid & Tpid & WP).
  assert (HneP : items (plt_curves P) <> []) by (now rewrite <- Ec).
  pose proof (init_simple_world_area wid fid pid F P Twid Tfid Tpid WP reverse
                (undo_open w) (stdout w) (move_ok w) HneP) as Hrun.
  cbv zeta in Hrun. rewrite <- Ew in Hrun.
  assert (Hfound : forall id, In id (ids (items (plt_curves P))) ->
                              c_get id (plt_curves P) <> None)
    by (intros id; apply ids_found).
  assert (Hlen : List.length (styles_of P (ids (items (plt_curves P)))) = N).
  { rewrite styles_of_length by assumption. unfold N, ids. now rewrite length_map, Ec. }
  assert (HN : List.length (items (plt_curves P)) = N) by (unfold N; now rewrite Ec).
  rewrite Hlen, HN in Hrun.
  exists wid, fid, pid, F, P. eexists. split; [exact Ew|].
  split; [exact Hrun|].
  cbn [orig_win orig_frm frm lgnd drawn_self set_lgnd_lbls set_lgnd_pnts set_lgnd_crvs
       set_frm set_lgnd set_usr_crvs set_orig_plot set_orig_frm set_orig_win].
  repeat split; try assumption; try reflexivity.
  - apply lid_fid.
  - apply token_lid.
Qed.

End Shape2.

Section LayoutClaims.

Import Legend.
Local Open Scope py_scope.

Lemma curves_nonempty w : 1 <= List.length (all_curves w) -> all_curves w <> [].
Proof. destruct (all_curves w); simpl; [lia | discriminate]. Qed.

Lemma frame_height_below (n : nat) :
  n <= 5 ->
  (0.9 - Qmin (inject_Z (Z.of_nat n) * 0.075) 0.4 == 0.9 - inject_Z (Z.of_nat n) * 0.075)%Q.
Proof.
  intros H. rewrite Q.min_l; [reflexivity|].
  unfold Qle, Qmult, inject_Z. cbn [Qnum Qden]. lia.
Qed.

Lemma frame_height_capped (n : nat) :
  6 <= n -> (0.9 - Qmin (inject_Z (Z.of_nat n) * 0.075) 0.4 == 0.5)%Q.
Proof.
  intros H. rewrite Q.min_r; [reflexivity|].
  unfold Qle, Qmult, inject_Z. cbn [Qnum Qden]. lia.
Qed.



(** The drawing area [_make_drawing_area] and [_background] create, as
    the constructor leaves it: a plot with margins of 0.01 and the open
    style, a hidden X axis from 0 to 3 and a hidden Y axis from -1 to
    [N], and one forest-green, half-opaque region over exactly that
    extent. *)
Theorem construction_area_layout (reverse : bool) (w : world) :
  wf_world w = true ->
  List.length (all_windows w) = 1 -> List.length (all_frames w) = 1 ->
  List.length (all_plots w) = 1 -> 1 <= List.length (all_curves w) ->
  has_focus w = true ->
  let top := inject_Z (Z.of_nat (List.length (all_curves w))) in
  exists self w' PL,
    __init__ reverse w = (Ok self, w')
    /\ legend_plot self w' = Some PL
    /\ plt_attr PL = legend_plot_attrs
    /\ map snd (items (plt_axes PL))
       = [ mkHAxis X_AXIS 0 0 3 legend_axis_attrs false;
           mkHAxis Y_AXIS 0 (-1) top legend_axis_attrs false ]
    /\ map snd (items (plt_regions PL))
       = [ mkHRegion [0; 3; 3; 0]%Q [-1; -1; top; top]%Q legend_region_attrs ].
Proof.
  intros Hwf Hw Hf Hp Hc Hfoc top.
  destruct (init_shape reverse w Hwf Hw Hf Hp (curves_nonempty _ Hc)
              (has_focus_cur_plot _ Hfoc))
    as (wid & fid & pid & F & P & self & Ew & Hrun & E1 & E2 & Hlf & _).
  eexists self, _, _. split; [exact Hrun|].
  unfold legend_plot, find_frame, final_world. cbn [windows]. rewrite E1, c_get_one.
  cbn [win_frames]. rewrite (c_get_two_snd _ _ _ _ _ Hlf).
  cbn [with_plots frm_plots]. rewrite c_cur_one.
  repeat split; reflexivity.
Qed.

Lemma construction_area_layout_witness :
  exists self w' PL,
    __init__ true sample_world = (Ok self, w')
    /\ legend_plot self w' = Some PL
    /\ plt_attr PL = legend_plot_attrs
    /\ map snd (items (plt_axes PL))
       = [ mkHAxis X_AXIS 0 0 3 legend_axis_attrs false;
           mkHAxis Y_AXIS 0 (-1) (inject_Z (Z.of_nat 2)) legend_axis_attrs false ]
    /\ map snd (items (plt_regions PL))
       = [ mkHRegion [0; 3; 3; 0]%Q
             [-1; -1; inject_Z (Z.of_nat 2); inject_Z (Z.of_nat 2)]%Q
             legend_region_attrs ].
Proof.
  apply (construction_area_layout true sample_world);
    first [vm_compute; reflexivity | simpl; lia].
Defined.

(** The constructor adds and changes nothing else: the window is the
    one there was, its first frame is the frame there was with its plot
    and curves as they were, and the only additions are the legend's
    frame, its plot and the overlay objects in it. *)
Theorem construction_keeps_what_existed (reverse : bool) (w : world) :
  wf_world w = true ->
  List.length (all_windows w) = 1 -> List.length (all_frames w) = 1 ->
  List.length (all_plots w) = 1 -> 1 <= List.length (all_curves w) ->
  has_focus w = true ->
  exists self w' FL PL,
    __init__ reverse w = (Ok self, w')
    /\ find_frame (orig_win self) (frm self) w' = Some FL
    /\ legend_plot self w' = Some PL
    /\ ids (all_windows w') = ids (all_windows w)
    /\ all_frames w' = all_frames w ++ [(frm self, FL)]
    /\ all_plots w' = all_plots w ++ items (frm_plots FL)
    /\ all_curves w' = all_curves w ++ items (plt_curves PL)
    /\ move_ok w' = move_ok w.
Proof.
  intros Hwf Hw Hf Hp Hc Hfoc.
  destruct (init_shape reverse w Hwf Hw Hf Hp (curves_nonempty _ Hc)
              (has_focus_cur_plot _ Hfoc))
    as (wid & fid & pid & F & P & self & Ew & Hrun & E1 & E2 & Hlf & _).
  eexists self, _, _, _. split; [exact Hrun|].
  unfold legend_plot, find_frame, final_world. cbn [windows]. rewrite E1, c_get_one.
  cbn [win_frames]. rewrite (c_get_two_snd _ _ _ _ _ Hlf).
  cbn [with_plots frm_plots]. rewrite c_cur_one.
  split; [reflexivity|]. split; [reflexivity|].
  assert (A1 : all_windows w = [(wid, mkWindow (one fid (with_plots (one pid P) F)))])
    by (rewrite Ew; reflexivity).
  assert (A2 : all_frames w = [(fid, with_plots (one pid P) F)])
    by (rewrite Ew; reflexivity).
  assert (A3 : all_plots w = [(pid, P)]) by (rewrite Ew; reflexivity).
  assert (A4 : all_curves w = items (plt_curves P))
    by (rewrite Ew; unfold all_curves, all_plots, all_frames, all_windows, simple_world, one;
        cbn [windows items flat_map snd win_frames frm_plots with_plots app];
        now rewrite !app_nil_r).
  rewrite A1, A2, A3, A4.
  unfold all_curves, all_plots, all_frames, all_windows, one, two.
  cbn [windows items flat_map snd win_frames frm_plots with_plots app ids map fst move_ok].
  rewrite !app_nil_r. repeat split; reflexivity.
Qed.

Lemma construction_keeps_what_existed_witness :
  exists self w' FL PL,
    __init__ false sample_world = (Ok self, w')
    /\ find_frame (orig_win self) (frm self) w' = Some FL
    /\ legend_plot self w' = Some PL
    /\ ids (all_windows w') = ids (all_windows sample_world)
    /\ all_frames w' = all_frames sample_world ++ [(frm self, FL)]
    /\ all_plots w' = all_plots sample_world ++ items (frm_plots FL)
    /\ all_curves w' = all_curves sample_world ++ items (plt_curves PL)
    /\ move_ok w' = move_ok sample_world.
Proof.
  apply (construction_keeps_what_existed false sample_world);
    first [vm_compute; reflexivity | simpl; lia].
Defined.

(** A legend cannot be built twice: once the constructor has succeeded
    there are two frames, so a second construction stops at the frame
    check with [NotImplementedError] and changes nothing. *)
Theorem second_construction_rejected (reverse again : bool) (w : world) :
  wf_world w = true ->
  List.length (all_windows w) = 1 -> List.length (all_frames w) = 1 ->
  List.length (all_plots w) = 1 -> 1 <= List.length (all_curves w) ->
  has_focus w = true ->
  exists self w',
    __init__ reverse w = (Ok self, w')
    /\ __init__ again w'
       = (Raise (NotImplementedError "Must have one and only one frame"), w').
Proof.
  intros Hwf Hw Hf Hp Hc Hfoc.
  destruct (init_shape reverse w Hwf Hw Hf Hp (curves_nonempty _ Hc)
              (has_focus_cur_plot _ Hfoc))
    as (wid & fid & pid & F & P & self & Ew & Hrun & E1 & E2 & Hlf & _ & Twid & Tfid
        & Tpid & WP & Tlid).
  eexists self, _. split; [exact Hrun|].
  match goal with |- __init__ again ?w1 = _ => set (w' := w1) end.
  assert (Hwf' : wf_world w' = true).
  { apply wf_final_world; try assumption; try reflexivity.
    - unfold wf_frame, wf_items, one, with_plots. cbn [frm_plots items forallb fst snd].
      now rewrite Tpid, WP.
    - apply wf_drawn_plot. reflexivity. }
  assert (Hne : all_windows w' <> []) by discriminate.
  unfold __init__.
  rewrite (bind_ok _ _ _ _ _ (lookup_all_window w' Hwf' Hne)).
  change (ids (all_windows w')) with [wid]. cbn [List.length Nat.eqb negb when].
  rewrite (bind_ok _ _ _ _ _ (eq_refl : ret tt _ = _)).
  rewrite (bind_ok _ _ _ _ _ (lookup_all_frame w' Hwf' Hne)).
  reflexivity.
Qed.

Lemma second_construction_rejected_witness :
  exists self w',
    __init__ false sample_world = (Ok self, w')
    /\ __init__ true w'
       = (Raise (NotImplementedError "Must have one and only one frame"), w').
Proof.
  apply (second_construction_rejected false true sample_world);
    first [vm_compute; reflexivity | simpl; lia].
Defined.

End LayoutClaims.

(** ** What the operations leave alone *)

Section Keeps.

Import Legend.
Local Open Scope py_scope.

Context {X : Type} (obs : world -> X).
Hypothesis obs_windows : forall c w, obs (with_windows c w) = obs w.

Lemma keeps_ret {A} (a : A) : keeps obs (ret a).
Proof. now intros w. Qed.

Lemma keeps_raise {A} e : keeps obs (@raise A e).
Proof. now intros w. Qed.

Lemma keeps_bind {A B} (m : M A) (f : A -> M B) :
  keeps obs m -> (forall a, keeps obs (f a)) -> keeps obs (bind m f).
Proof.
  intros Hm Hf w. unfold bind. specialize (Hm w).
  destruct (m w) as [[a|e|] w1]; cbn [snd] in *; [|assumption|assumption].
  now rewrite Hf.
Qed.

Lemma keeps_reads_only {A} (m : M A) : reads_only m -> keeps obs m.
Proof. intros H w. now rewrite H. Qed.

Lemma keeps_when c e : keeps obs (when c (raise e)).
Proof. destruct c; [apply keeps_raise | apply keeps_ret]. Qed.

Lemma keeps_for_each {A S} (xs : list A) (body : A -> S -> M S) :
  (forall x s, keeps obs (body x s)) -> forall s, keeps obs (for_each xs body s).
Proof.
  intros H. induction xs as [|x xs IH]; intros s; cbn [for_each]; [apply keeps_ret|].
  apply keeps_bind; auto.
Qed.

Lemma keeps_put_cur_window W w : obs (put_cur_window W w) = obs w.
Proof. apply obs_windows. Qed.

Lemma keeps_on_window {A} (f : window -> exn + A * window) : keeps obs (on_window f).
Proof.
  intros w. unfold on_window. destruct (cur_window w) as [W|]; [|reflexivity].
  destruct (f W) as [e|[a W']]; [reflexivity | apply keeps_put_cur_window].
Qed.

Lemma keeps_on_frame {A} (f : frame -> exn + A * frame) : keeps obs (on_frame f).
Proof.
  intros w. unfold on_frame. destruct (cur_frame w) as [F|]; [|reflexivity].
  destruct (f F) as [e|[a F']]; [reflexivity|]. cbn [snd]. unfold put_cur_frame.
  destruct (cur_window w); [apply keeps_put_cur_window | reflexivity].
Qed.

Lemma keeps_on_plot {A} (f : plot -> exn + A * plot) : keeps obs (on_plot f).
Proof.
  intros w. unfold on_plot. destruct (cur_plot w) as [P|]; [|reflexivity].
  destruct (f P) as [e|[a P']]; [reflexivity|]. cbn [snd]. unfold put_cur_plot.
  destruct (cur_window w); [apply keeps_put_cur_window | reflexivity].
Qed.

Lemma keeps_set_current_window id : keeps obs (set_current_window id).
Proof.
  intros w. unfold set_current_window.
  destruct (c_select id (windows w)); [apply obs_windows | reflexivity].
Qed.

Lemma keeps_get_curve id : keeps obs (get_curve id).
Proof.
  intros w. unfold get_curve. destruct (cur_plot w) as [P|]; [|reflexivity].
  now destruct (c_get id (plt_curves P)).
Qed.

Lemma keeps_current name : keeps obs (_get_current_object_name name).
Proof. apply keeps_reads_only, reads_only_current. Qed.

Lemma keeps_label_loop (pairs : list (string * string)) :
  keeps obs (for_each pairs (fun p _ => set_label_text (fst p) (snd p)) tt).
Proof. apply keeps_for_each. intros p s. apply keeps_on_plot. Qed.

Lemma keeps_update_entry self e : keeps obs (_update_entry self e tt).
Proof.
  destruct e as [[usr lgn] lpt]. cbn [_update_entry].
  apply keeps_bind; [apply keeps_set_current_window|]. intros _.
  apply keeps_bind; [apply keeps_on_window|]. intros _.
  apply keeps_bind; [apply keeps_on_frame|]. intros _.
  apply keeps_bind; [apply keeps_get_curve|]. intros cc.
  apply keeps_bind; [apply keeps_on_window|]. intros _.
  apply keeps_bind; [apply keeps_on_plot|]. intros _.
  apply keeps_bind; [apply keeps_on_plot|]. intros _.
  apply keeps_on_plot.
Qed.

Lemma keeps_update_loop self xs :
  keeps obs (for_each xs (_update_entry self) tt).
Proof. apply keeps_for_each. intros e []. apply keeps_update_entry. Qed.

Hypothesis obs_print : forall s, keeps obs (print s).

Lemma keeps_move_frame cid x y r : keeps obs (move_frame cid x y r).
Proof.
  intros w. unfold move_frame. destruct (cur_frame w) as [F|]; [|reflexivity].
  destruct (coord_sys cid) as [[|]|]; try reflexivity.
  destruct (Z.eqb r 1); try reflexivity.
  destruct (move_ok w _); [|reflexivity]. cbn [snd]. unfold put_cur_frame.
  destruct (cur_window w); [apply keeps_put_cur_window | reflexivity].
Qed.

Lemma keeps_my_move_frame x y : keeps obs (my_move_frame x y).
Proof.
  intros w. unfold my_move_frame, try_except.
  pose proof (keeps_move_frame (mkChipsId (Some PIXEL)) x y 1 w) as H.
  destruct (move_frame _ x y 1 w) as [[a|e|] w1]; cbn [snd] in *; try assumption.
  now rewrite obs_print.
Qed.

Lemma keeps_move_key key : keeps obs (move_key key).
Proof.
  unfold move_key. apply keeps_bind; [apply keeps_reads_only, reads_only_item|].
  intros keyval.
  assert (Hd : forall (k : string -> M ctl),
             (forall s, keeps obs (k s)) ->
             keeps obs (bind (lift (decode_ascii (lower keyval))) k)).
  { intros k Hk. apply keeps_bind; [|exact Hk].
    destruct (decode_ascii (lower keyval)); [apply keeps_raise | apply keeps_ret]. }
  assert (Hm : forall x y, keeps obs (my_move_frame x y ;; ret Continue)).
  { intros x y. apply keeps_bind; [apply keeps_my_move_frame|]. intros u. apply keeps_ret. }
  apply Hd. intros k1. destruct (String.eqb k1 "w"); [apply Hm|].
  apply Hd. intros k2. destruct (String.eqb k2 "s"); [apply Hm|].
  apply Hd. intros k3. destruct (String.eqb k3 "a"); [apply Hm|].
  apply Hd. intros k4. destruct (String.eqb k4 "d"); [apply Hm|].
  apply Hd. intros k5. destruct (String.eqb k5 "q"); apply keeps_ret.
Qed.

Lemma keeps_move_loop pending : keeps obs (move_loop pending).
Proof.
  induction pending as [|key rest IH]; cbn [move_loop].
  - now intros w.
  - apply keeps_bind; [apply keeps_ret|]. intros kr.
    apply keeps_bind; [apply keeps_move_key|].
    intros [|]; [exact IH | apply keeps_ret].
Qed.

End Keeps.

Section UndoDiscipline.

Import Legend.
Local Open Scope py_scope.

Lemma closes_close_undo_block : closes close_undo_block.
Proof. now intros w. Qed.

Lemma closes_bind {A B} (m : M A) (f : A -> M B) :
  keeps undo_open m -> (forall a, closes (f a)) -> closes (bind m f).
Proof.
  intros Hm Hf w. unfold bind. specialize (Hm w).
  destruct (m w) as [[a|e|] w1]; cbn [fst snd] in *; [|assumption|assumption].
  rewrite Hf. now rewrite Hm.
Qed.

Lemma undo_windows c w : undo_open (with_windows c w) = undo_open w.
Proof. reflexivity. Qed.

Lemma undo_print s : keeps undo_open (print s).
Proof. now intros w. Qed.

(** An operation that opens the undo block and then closes it as its
    last step. *)
Lemma opened_then_closed (rest : M unit) w :
  closes rest ->
  undo_open (snd ((open_undo_block ;; rest) w))
  = match fst ((open_undo_block ;; rest) w) with
    | Ok _ => undo_open w
    | _ => S (undo_open w)
    end.
Proof.
  intros H. unfold bind, open_undo_block. rewrite H. cbn [undo_open].
  now destruct (fst (rest _)).
Qed.

(** The undo block of relabel, resync and reposition is closed exactly
    when the operation returns: after a normal return the depth of open
    undo blocks is what it was, and after an error, or while the loop
    still waits for a key, the block the operation opened is left
    open. *)
Theorem undo_block_closed_on_return_only (op : operation) (w : world) :
  opens_block op = true ->
  undo_open (snd (run op w))
  = match fst (run op w) with
    | Ok _ => undo_open w
    | _ => S (undo_open w)
    end.
Proof.
  intros Hop. destruct op as [reverse|self vals|self|self pending];
    cbn [opens_block] in Hop; [discriminate| | |]; cbn [run].
  - unfold label. rewrite Hop. cbn [negb when].
    change (bind (ret tt) ?k w) with (k tt w). cbn beta.
    apply opened_then_closed.
    apply closes_bind; [apply keeps_current|]. intros old.
    apply closes_bind; [apply keeps_on_window, undo_windows|]. intros _.
    apply closes_bind; [apply keeps_label_loop, undo_windows|]. intros _.
    apply closes_bind; [apply keeps_on_window, undo_windows|]. intros _.
    apply closes_close_undo_block.
  - unfold update. apply opened_then_closed.
    apply closes_bind; [apply keeps_current|]. intros old.
    apply closes_bind; [apply keeps_update_loop, undo_windows|]. intros _.
    apply closes_bind; [apply keeps_on_window, undo_windows|]. intros _.
    apply closes_close_undo_block.
  - unfold move.
    do 6 (match goal with
          | |- context [bind (print ?s) ?k ?w0] =>
              change (bind (print s) k w0) with (k tt (snd (print s w0)))
          end; cbn beta).
    rewrite opened_then_closed; [reflexivity|].
    apply closes_bind; [apply keeps_current|]. intros old.
    apply closes_bind; [apply keeps_on_window, undo_windows|]. intros _.
    apply closes_bind; [apply keeps_move_loop; [apply undo_windows | apply undo_print]|].
    intros _.
    apply closes_bind; [apply keeps_on_window, undo_windows|]. intros _.
    apply closes_close_undo_block.
Qed.

End UndoDiscipline.

Section UndoDisciplineWitness.

Import Legend.

Lemma undo_block_closed_on_return_only_witness :
  fst (run (Relabel sample_legend ["a"; "b"]) sample_world)
  = Raise (ChipsError "no such frame")
  /\ undo_open (snd (run (Relabel sample_legend ["a"; "b"]) sample_world))
     = S (undo_open sample_world).
Proof.
  split; [vm_compute; reflexivity|].
  exact (undo_block_closed_on_return_only (Relabel sample_legend ["a"; "b"]) sample_world
           eq_refl).
Defined.

End UndoDisciplineWitness.

(** ** The legend's frame at work *)

Section InFrame.

Import Legend.
Local Open Scope py_scope.

Lemma c_map_put {A B} (g : A -> B) (c : container A) id a a' :
  c_get id c = Some a -> g a' = g a -> c_map g (c_put id a' c) = c_map g c.
Proof.
  unfold c_map, c_put, c_get. cbn [items cur]. intros Hg E. f_equal.
  induction (items c) as [|[k b] l IH]; [reflexivity|].
  cbn [assoc replace] in *. destruct (String.eqb id k).
  - injection Hg as ->. cbn [map fst snd]. now rewrite E.
  - cbn [map fst snd]. now rewrite IH.
Qed.

Lemma c_map_put_cur {A B} (g : A -> B) (c : container A) a a' :
  c_cur c = Some a -> g a' = g a -> c_map g (c_put_cur a' c) = c_map g c.
Proof.
  intros Hc E. destruct (c_cur_Some _ _ Hc) as (id & Hid & Hg & _).
  unfold c_put_cur. rewrite Hid. now apply (c_map_put g c id a).
Qed.

Variables (w0 : world) (W0 : window) (lid : string) (FL : frame).
Hypothesis HW0 : cur_window w0 = Some W0.
Hypothesis HFL : c_get lid (win_frames W0) = Some FL.

Local Abbreviation at_legend := (in_frame w0 W0 lid).
Local Abbreviation WL F :=
  (mkWindow (mkC (replace lid F (items (win_frames W0))) (Some lid))).

Lemma in_frame_cur (R : frame -> Prop) w :
  at_legend R w ->
  exists FL1,
    windows w = c_put_cur (WL FL1) (windows w0) /\ move_ok w = move_ok w0 /\ R FL1
    /\ cur_window w = Some (WL FL1) /\ win_cur_frame (WL FL1) = Some FL1.
Proof.
  intros (FL1 & Hw & Hm & HR). exists FL1. repeat split; try assumption.
  - unfold cur_window. rewrite Hw. now apply (c_cur_put_cur _ _ W0).
  - unfold win_cur_frame, c_cur. cbn [win_frames cur].
    apply assoc_replace_same. unfold c_get in HFL. congruence.
Qed.

Lemma in_frame_put (R R' : frame -> Prop) w F' :
  at_legend R w -> R' F' -> at_legend R' (put_cur_frame F' w).
Proof.
  intros HI HR'. destruct (in_frame_cur _ _ HI) as (FL1 & Hw & Hm & _ & HcW & HcF).
  exists F'. unfold put_cur_frame. rewrite HcW.
  unfold put_cur_window, with_windows. cbn [windows move_ok].
  rewrite Hw, c_put_cur_twice. split; [|auto].
  f_equal. unfold win_put_frame, c_put_cur, c_put. cbn [win_frames cur items].
  now rewrite replace_replace.
Qed.

Lemma in_frame_same (R : frame -> Prop) w w' :
  windows w' = windows w -> move_ok w' = move_ok w -> at_legend R w -> at_legend R w'.
Proof. intros E1 E2 (FL1 & Hw & Hm & HR). exists FL1. rewrite E1, E2. auto. Qed.

Lemma in_frame_weaken (R R' : frame -> Prop) w :
  (forall F, R F -> R' F) -> at_legend R w -> at_legend R' w.
Proof. intros H (FL1 & Hw & Hm & HR). exists FL1. auto. Qed.

Lemma in_frame_on_frame {A} (R : frame -> Prop) (R' : A -> frame -> Prop)
      (f : frame -> exn + A * frame) :
  (forall F a F', R F -> f F = inr (a, F') -> R' a F') ->
  triple (at_legend R) (on_frame f) (fun a => at_legend (R' a)).
Proof.
  intros H w a w' HI Hr.
  destruct (in_frame_cur _ _ HI) as (FL1 & Hw & Hm & HR & HcW & HcF).
  unfold on_frame, cur_frame in Hr. rewrite HcW, HcF in Hr.
  destruct (f FL1) as [e|[a' F']] eqn:E; [discriminate|].
  injection Hr as <- <-. eapply in_frame_put; eauto.
Qed.

Lemma in_frame_on_plot {A} (R : frame -> Prop) (R' : A -> frame -> Prop)
      (f : plot -> exn + A * plot) :
  (forall F P a P', R F -> c_cur (frm_plots F) = Some P -> f P = inr (a, P') ->
                    R' a (frm_put_plot P' F)) ->
  triple (at_legend R) (on_plot f) (fun a => at_legend (R' a)).
Proof.
  intros H w a w' HI Hr.
  destruct (in_frame_cur _ _ HI) as (FL1 & Hw & Hm & HR & HcW & HcF).
  unfold on_plot, cur_plot in Hr. rewrite HcW in Hr. unfold win_cur_plot in Hr.
  rewrite HcF in Hr.
  destruct (c_cur (frm_plots FL1)) as [P|] eqn:HP; [|discriminate].
  destruct (f P) as [e|[a' P']] eqn:E; [discriminate|].
  injection Hr as <- <-.
  assert (Ep : put_cur_plot P' w = put_cur_frame (frm_put_plot P' FL1) w).
  { unfold put_cur_plot, put_cur_frame. rewrite HcW. unfold win_put_plot. now rewrite HcF. }
  rewrite Ep. eapply in_frame_put; eauto.
Qed.

Lemma in_frame_move_frame (R R' : frame -> Prop) cid x y r :
  (forall F, R F ->
     R' (with_shift (fst (frm_shift F) + x, snd (frm_shift F) + y)%Z F)) ->
  triple (at_legend R) (move_frame cid x y r) (fun _ => at_legend R').
Proof.
  intros H w a w' HI Hr.
  destruct (in_frame_cur _ _ HI) as (FL1 & Hw & Hm & HR & HcW & HcF).
  unfold move_frame, cur_frame in Hr. rewrite HcW, HcF in Hr.
  destruct (coord_sys cid) as [[|]|]; try discriminate.
  destruct (Z.eqb r 1); try discriminate.
  destruct (move_ok w _); [|discriminate].
  injection Hr as _ <-. eapply in_frame_put; eauto.
Qed.

Lemma in_frame_print (R : frame -> Prop) s :
  triple (at_legend R) (print s) (fun _ => at_legend R).
Proof. intros w a w' HI [= _ <-]. now apply (in_frame_same R w). Qed.

(** Entering the legend's frame from the world [w0], and leaving it. *)
Lemma in_frame_enter w :
  windows w = windows w0 -> move_ok w = move_ok w0 ->
  forall a w', set_current_frame lid w = (Ok a, w') -> at_legend (fun F => F = FL) w'.
Proof.
  intros Ew Em a w' Hr. unfold set_current_frame, on_window, cur_window in Hr.
  rewrite Ew in Hr. change (c_cur (windows w0)) with (cur_window w0) in Hr.
  rewrite HW0 in Hr. unfold c_select in Hr. rewrite HFL in Hr.
  injection Hr as _ <-. exists FL.
  unfold put_cur_window, with_windows. cbn [windows move_ok]. rewrite Ew.
  split; [|auto]. rewrite replace_same; [reflexivity | exact HFL].
Qed.

Lemma in_frame_leave (R : frame -> Prop) old w a w' :
  at_legend R w -> set_current_frame old w = (Ok a, w') ->
  exists FL1,
    R FL1
    /\ windows w'
       = c_put_cur (mkWindow (mkC (replace lid FL1 (items (win_frames W0))) (Some old)))
                   (windows w0)
    /\ move_ok w' = move_ok w0.
Proof.
  intros HI Hr. destruct (in_frame_cur _ _ HI) as (FL1 & Hw & Hm & HR & HcW & HcF).
  unfold set_current_frame, on_window in Hr. rewrite HcW in Hr.
  destruct (c_select old _) as [c|] eqn:Hsel; [|discriminate].
  unfold c_select in Hsel. destruct (c_get old _); [|discriminate].
  injection Hsel as <-. injection Hr as _ <-.
  exists FL1. split; [exact HR|].
  unfold put_cur_window, with_windows. cbn [windows move_ok win_frames items].
  now rewrite Hw, c_put_cur_twice.
Qed.

End InFrame.

Section OnlyTexts.

Import Legend.
Local Open Scope py_scope.

Lemma bind_ok_inv {A B} (m : M A) (f : A -> M B) w b w' :
  bind m f w = (Ok b, w') -> exists a w1, m w = (Ok a, w1) /\ f a w1 = (Ok b, w').
Proof.
  unfold bind. destruct (m w) as [[a|e|] w1]; try discriminate. eauto.
Qed.

Lemma set_current_frame_inv id w a w' :
  set_current_frame id w = (Ok a, w') ->
  exists W F, cur_window w = Some W /\ c_get id (win_frames W) = Some F.
Proof.
  unfold set_current_frame, on_window. destruct (cur_window w) as [W|]; [|discriminate].
  unfold c_select. destruct (c_get id (win_frames W)) as [F|] eqn:E; [|discriminate].
  eauto.
Qed.

Lemma world_eta w c u out mv :
  windows w = c -> undo_open w = u -> stdout w = out -> move_ok w = mv ->
  w = mkWorld c u out mv.
Proof. destruct w. cbn. now intros -> -> -> ->. Qed.

Lemma stdout_windows c w : stdout (with_windows c w) = stdout w.
Proof. reflexivity. Qed.

Lemma label_silent self vals : keeps stdout (label self vals).
Proof.
  unfold label. apply keeps_bind; [apply keeps_when|]. intros _.
  apply keeps_bind; [now intros w|]. intros _.
  apply keeps_bind; [apply keeps_current|]. intros old.
  apply keeps_bind; [apply keeps_on_window, stdout_windows|]. intros _.
  apply keeps_bind; [apply keeps_label_loop, stdout_windows|]. intros _.
  apply keeps_bind; [apply keeps_on_window, stdout_windows|]. intros _.
  now intros w.
Qed.

Lemma blank_frame_put_plot F P P' :
  c_cur (frm_plots F) = Some P -> blank_plot P' = blank_plot P ->
  blank_frame (frm_put_plot P' F) = blank_frame F.
Proof.
  intros HP E. unfold blank_frame, frm_put_plot, with_plots. cbn [frm_plots frm_attr frm_box frm_shift].
  now rewrite (c_map_put_cur blank_plot _ P P' HP E).
Qed.

Lemma blank_plot_put_label P id l l' :
  c_get id (plt_labels P) = Some l -> blank_label l' = blank_label l ->
  blank_plot (with_labels (c_put id l' (plt_labels P)) P) = blank_plot P.
Proof.
  intros Hl E. unfold blank_plot, with_labels.
  cbn [plt_labels plt_attr plt_axes plt_curves plt_points plt_regions].
  now rewrite (c_map_put blank_label _ id l l' Hl E).
Qed.

Section Run.

Variables (w0 : world) (W0 : window) (wid old : string) (Fold : frame).
Hypothesis Hwf : wf_world w0 = true.
Hypothesis Hcur : cur (windows w0) = Some wid.
Hypothesis HW : c_get wid (windows w0) = Some W0.
Hypothesis Hold_cur : cur (win_frames W0) = Some old.
Hypothesis Hold : c_get old (win_frames W0) = Some Fold.

Lemma cur_window_w0 : cur_window w0 = Some W0.
Proof. now apply (c_cur_of_id _ _ _ Hcur HW). Qed.

(** The course the operations on the legend's frame share: the frame
    [lid] is made current, [body] works in it, and the frame that was
    current is made current again. *)
Lemma in_frame_operation (lid : string) (body : M unit) (R : frame -> frame -> Prop) w' :
  (forall FL, c_get lid (win_frames W0) = Some FL ->
     triple (in_frame w0 W0 lid (fun F => F = FL)) body
            (fun _ => in_frame w0 W0 lid (R FL))) ->
  (open_undo_block ;;
   old_frame <- _get_current_object_name "Frame" ;;
   set_current_frame lid ;;
   body ;;
   set_current_frame old_frame ;;
   close_undo_block) w0 = (Ok tt, w') ->
  exists FL FL',
    c_get lid (win_frames W0) = Some FL /\ R FL FL'
    /\ windows w' = c_put_cur (mkWindow (c_put lid FL' (win_frames W0))) (windows w0)
    /\ move_ok w' = move_ok w0.
Proof.
  intros Hbody Hrun.
  destruct (c_cur_of_id _ _ _ Hcur HW) as [HcW Hfw].
  destruct (c_cur_of_id _ _ _ Hold_cur Hold) as [HcF HfF].
  set (w1 := mkWorld (windows w0) (S (undo_open w0)) (stdout w0) (move_ok w0)) in *.
  rewrite (bind_ok _ _ _ _ _ (eq_refl : open_undo_block w0 = (Ok tt, w1))) in Hrun.
  erewrite bind_ok in Hrun;
    [|eapply (lookup_current_frame w1 wid W0 old Fold); try eassumption; exact Hwf].
  apply bind_ok_inv in Hrun as (u1 & w2 & E1 & Hrun).
  destruct (set_current_frame_inv _ _ _ _ E1) as (W & FL & HcW1 & HFL).
  assert (W = W0) by (change (c_cur (windows w0) = Some W) in HcW1; congruence). subst W.
  pose proof (in_frame_enter w0 W0 lid FL cur_window_w0 HFL w1 eq_refl eq_refl _ _ E1) as HI.
  apply bind_ok_inv in Hrun as (u2 & w3 & E2 & Hrun).
  pose proof (Hbody FL HFL _ _ _ HI E2) as HI3.
  apply bind_ok_inv in Hrun as (u3 & w4 & E3 & Hrun).
  destruct (in_frame_leave w0 W0 lid FL cur_window_w0 HFL _ old _ _ _ HI3 E3)
    as (FL' & HR & Hw4 & Hm4).
  injection Hrun as <-. exists FL, FL'. repeat split; try assumption.
  cbn [windows]. rewrite Hw4. unfold c_put. now rewrite Hold_cur.
Qed.

End Run.

Lemma focus_of_world w :
  has_focus w = true ->
  exists wid W old Fold,
    cur (windows w) = Some wid /\ c_get wid (windows w) = Some W
    /\ cur (win_frames W) = Some old /\ c_get old (win_frames W) = Some Fold
    /\ cur_window w = Some W.
Proof.
  intros H. destruct (has_focus_frames w H) as (wid & W & old & Fold & Hc & HW & Hco & Hold).
  exists wid, W, old, Fold. repeat split; try assumption.
  now apply (c_cur_of_id _ _ _ Hc HW).
Qed.

(** Relabelling changes label texts and nothing else: when it returns,
    the world is the one it was called in except for the legend's frame
    in the focused window, and that frame is as it was once label texts
    are disregarded; nothing is printed and no undo block is left
    open. *)
Theorem relabel_changes_only_label_texts (self : instance) (vals : list string)
        (w w' : world) :
  wf_world w = true -> has_focus w = true ->
  label self vals w = (Ok tt, w') ->
  exists W FL FL',
    cur_window w = Some W
    /\ c_get (frm self) (win_frames W) = Some FL
    /\ w' = put_cur_window (mkWindow (c_put (frm self) FL' (win_frames W))) w
    /\ blank_frame FL' = blank_frame FL.
Proof.
  intros Hwf Hfoc Hrun.
  destruct (focus_of_world w Hfoc) as (wid & W & old & Fold & Hc & HW & Hco & Hold & HcW).
  pose proof (label_silent self vals w) as Hout. rewrite Hrun in Hout. cbn [snd] in Hout.
  assert (Hundo : undo_open w' = undo_open w).
  { unfold label in Hrun. destruct (Nat.eqb _ _); [|discriminate].
    cbn [negb when] in Hrun. change (bind (ret tt) ?k w) with (k tt w) in Hrun.
    cbn beta in Hrun.
    pose proof (opened_then_closed
                  (old <- _get_current_object_name "Frame" ;;
                   set_current_frame (frm self) ;;
                   for_each (combine (lgnd_lbls self) vals)
                            (fun p _ => set_label_text (fst p) (snd p)) tt ;;
                   set_current_frame old ;; close_undo_block) w) as Hc'.
    rewrite Hrun in Hc'. apply Hc'.
    apply closes_bind; [apply keeps_current|]. intros o.
    apply closes_bind; [apply keeps_on_window, undo_windows|]. intros _.
    apply closes_bind; [apply keeps_label_loop, undo_windows|]. intros _.
    apply closes_bind; [apply keeps_on_window, undo_windows|]. intros _.
    apply closes_close_undo_block. }
  unfold label in Hrun. destruct (Nat.eqb _ _); [|discriminate].
  cbn [negb when] in Hrun. change (bind (ret tt) ?k w) with (k tt w) in Hrun.
  cbn beta in Hrun.
  destruct (in_frame_operation w W wid old Fold Hwf Hc HW Hco Hold (frm self)
              (for_each (combine (lgnd_lbls self) vals)
                        (fun p _ => set_label_text (fst p) (snd p)) tt)
              (fun FL FL' => blank_frame FL' = blank_frame FL) w')
    as (FL & FL' & HFL & HR & Hw' & Hm'); [|exact Hrun|].
  { intros FL HFL.
    eapply triple_conseq with
      (P := in_frame w W (frm self) (fun F => blank_frame F = blank_frame FL));
      [| apply triple_for_each_prefix with
           (I := fun _ => in_frame w W (frm self)
                            (fun F => blank_frame F = blank_frame FL))
       | intros a w1 H; exact H].
    { intros w1. apply in_frame_weaken. now intros F ->. }
    intros pre p post _.
    apply (in_frame_on_plot w W (frm self) FL HcW HFL).
    intros F P a P' HF HP Hf.
    destruct (c_get (fst p) (plt_labels P)) as [l|] eqn:Hl; [|discriminate].
    injection Hf as _ <-. rewrite <- HF.
    apply (blank_frame_put_plot F P); [exact HP|].
    now apply (blank_plot_put_label P (fst p) l). }
  exists W, FL, FL'. repeat split; try assumption.
  unfold put_cur_window, with_windows. now apply world_eta.
Qed.

Lemma relabel_changes_only_label_texts_witness :
  exists W FL FL',
    cur_window legend_sample_world = Some W
    /\ c_get (frm sample_legend) (win_frames W) = Some FL
    /\ snd (label sample_legend ["first"; "second"] legend_sample_world)
       = put_cur_window (mkWindow (c_put (frm sample_legend) FL' (win_frames W)))
                        legend_sample_world
    /\ blank_frame FL' = blank_frame FL.
Proof.
  apply (relabel_changes_only_label_texts sample_legend ["first"; "second"]);
    vm_compute; reflexivity.
Defined.

End OnlyTexts.

(** ** Repositioning *)

Section Reposition.

Import Legend.
Local Open Scope py_scope.

(** One turn of the loop, by the key. *)
Lemma move_key_by_offset key kv k w :
  nth_error (pick_keys key) 0 = Some kv ->
  decode_ascii (lower kv) = inr k ->
  move_key key w
  = match offset_of k with
    | Some (x, y) => (my_move_frame x y ;; ret Continue) w
    | None => (Ok (if String.eqb k "q" then Break else Continue), w)
    end.
Proof.
  intros Hk Hd. unfold move_key.
  rewrite (bind_ok _ _ _ _ _ (item_ok _ _ _ w Hk)). rewrite Hd. cbn [lift].
  unfold offset_of.
  rewrite (bind_ok _ _ _ _ _ (eq_refl : ret k w = _)).
  destruct (String.eqb k "w"); [reflexivity|].
  rewrite (bind_ok _ _ _ _ _ (eq_refl : ret k w = _)).
  destruct (String.eqb k "s"); [reflexivity|].
  rewrite (bind_ok _ _ _ _ _ (eq_refl : ret k w = _)).
  destruct (String.eqb k "a"); [reflexivity|].
  rewrite (bind_ok _ _ _ _ _ (eq_refl : ret k w = _)).
  destruct (String.eqb k "d"); [reflexivity|].
  rewrite (bind_ok _ _ _ _ _ (eq_refl : ret k w = _)).
  destruct (String.eqb k "q"); reflexivity.
Qed.

Lemma move_key_ok_inv key w c w' :
  move_key key w = (Ok c, w') ->
  exists kv k, nth_error (pick_keys key) 0 = Some kv /\ decode_ascii (lower kv) = inr k.
Proof.
  intros H. unfold move_key, item in H.
  destruct (nth_error (pick_keys key) 0) as [kv|] eqn:Ek; [|discriminate].
  rewrite (bind_ok _ _ _ _ _ (eq_refl : ret kv w = _)) in H.
  destruct (decode_ascii (lower kv)) as [e|k] eqn:Ed; [discriminate|].
  exists kv, k. split; [reflexivity | exact Ed].
Qed.

Lemma decode_ascii_inr b k : decode_ascii b = inr k -> k = b.
Proof. unfold decode_ascii. destruct (all_ascii b); [now intros [= <-] | discriminate]. Qed.

Lemma move_loop_ends_on_q pending : forall w w',
  move_loop pending w = (Ok tt, w') ->
  exists key kv,
    In key pending /\ nth_error (pick_keys key) 0 = Some kv /\ lower kv = "q".
Proof.
  induction pending as [|key rest IH]; intros w w' H; cbn [move_loop] in H.
  - discriminate.
  - rewrite (bind_ok _ _ _ _ _ (eq_refl : get_pick (key :: rest) w = (Ok (key, rest), w))) in H.
    cbn [fst] in H. apply bind_ok_inv in H as (c & w1 & Hk & H).
    destruct (move_key_ok_inv _ _ _ _ Hk) as (kv & k & Hkv & Hd).
    destruct c.
    + destruct (IH _ _ H) as (key' & kv' & Hin & Hn & Hq).
      exists key', kv'. repeat split; auto. now right.
    + exists key, kv. split; [now left|]. split; [exact Hkv|].
      rewrite (move_key_by_offset _ _ _ _ Hkv Hd) in Hk.
      apply decode_ascii_inr in Hd. subst k.
      destruct (offset_of (lower kv)) as [[x y]|].
      * apply bind_ok_inv in Hk as (u & w2 & _ & Hk). discriminate.
      * destruct (String.eqb_spec (lower kv) "q"); [assumption | discriminate].
Qed.

(** The interactive loop returns only on [q]: when reposition returns,
    one of the keys it was given has a key value that is [q] or [Q]
    (lower-cased: [q]). *)
Theorem reposition_returns_only_on_q (self : instance) (pending : list pick)
        (w w' : world) :
  move self pending w = (Ok tt, w') ->
  exists key kv,
    In key pending /\ nth_error (pick_keys key) 0 = Some kv /\ lower kv = "q".
Proof.
  intros H. unfold move in H.
  do 7 (apply bind_ok_inv in H as (? & ? & _ & H)).
  apply bind_ok_inv in H as (old & w1 & _ & H).
  apply bind_ok_inv in H as (u1 & w2 & _ & H).
  apply bind_ok_inv in H as (u2 & w3 & Hl & _).
  destruct u2. eapply move_loop_ends_on_q. exact Hl.
Qed.

Lemma reposition_returns_only_on_q_witness :
  exists key kv,
    In key [key_press "w"; key_press "Q"; key_press "s"]
    /\ nth_error (pick_keys key) 0 = Some kv /\ lower kv = "q".
Proof.
  apply (reposition_returns_only_on_q sample_legend
           [key_press "w"; key_press "Q"; key_press "s"] legend_sample_world
           (snd (move sample_legend [key_press "w"; key_press "Q"; key_press "s"]
                      legend_sample_world))).
  vm_compute. reflexivity.
Defined.

Section Loop.

Variables (w0 : world) (W0 : window) (lid : string) (FL : frame).
Hypothesis HW0 : cur_window w0 = Some W0.
Hypothesis HFL : c_get lid (win_frames W0) = Some FL.

Local Abbreviation at_legend := (in_frame w0 W0 lid).
Local Abbreviation moved_by := (moved w0 FL).

Lemma in_frame_my_move_frame dx dy x y :
  triple (at_legend (moved_by dx dy)) (my_move_frame x y)
         (fun _ => at_legend (moved_by (dx + x) (dy + y))).
Proof.
  unfold my_move_frame. apply triple_try_except.
  - apply (in_frame_move_frame w0 W0 lid FL HW0 HFL).
    intros F (s & -> & Hs). eexists. split; [reflexivity|].
    intros Ha. rewrite (Hs Ha). cbn [frm_shift with_shift fst snd]. f_equal; lia.
  - intros w e w1 HI Hr a w2 Hp.
    destruct (in_frame_cur w0 W0 lid FL HW0 HFL _ _ HI)
      as (F & Hw & Hm & HR & HcW & HcF).
    assert (Hna : ~ (forall p, move_ok w0 p = true) /\ w1 = w).
    { unfold move_frame, cur_frame in Hr. rewrite HcW, HcF in Hr.
      cbn [coord_sys Z.eqb Pos.eqb] in Hr.
      destruct (move_ok w _) eqn:Em; [discriminate|].
      injection Hr as _ <-. split; [|reflexivity].
      intros Ha. rewrite Hm, Ha in Em. discriminate. }
    destruct Hna as [Hna ->]. injection Hp as _ <-.
    apply (in_frame_same w0 W0 lid _ w); [reflexivity | reflexivity |].
    revert HI. apply in_frame_weaken. intros F' (s & -> & _).
    exists s. split; [reflexivity|]. intros Ha. now elim Hna.
Qed.

Lemma in_frame_move_loop pending : forall dx dy,
  triple (at_legend (moved_by dx dy)) (move_loop pending)
         (fun _ => at_legend (fun F =>
            exists d, net_offset pending = Some d
                      /\ moved_by (dx + fst d) (dy + snd d) F)).
Proof.
  induction pending as [|key rest IH]; intros dx dy w u w' HI H; cbn [move_loop] in H.
  - discriminate.
  - rewrite (bind_ok _ _ _ _ _ (eq_refl : get_pick (key :: rest) w = (Ok (key, rest), w))) in H.
    cbn [fst] in H. apply bind_ok_inv in H as (c & w1 & Hk & H).
    destruct (move_key_ok_inv _ _ _ _ Hk) as (kv & k & Hkv & Hd).
    rewrite (move_key_by_offset _ _ _ _ Hkv Hd) in Hk.
    cbn [net_offset]. rewrite Hkv, Hd.
    destruct (offset_of k) as [[x y]|].
    + apply bind_ok_inv in Hk as (u1 & w2 & Hm & Hk). injection Hk as <- <-.
      pose proof (in_frame_my_move_frame dx dy x y _ _ _ HI Hm) as HI2.
      specialize (IH _ _ _ _ _ HI2 H). revert IH. apply in_frame_weaken.
      intros F (d & Hn & HF). rewrite Hn. eexists. split; [reflexivity|].
      cbn [fst snd]. now rewrite !Z.add_assoc.
    + injection Hk as <- <-. destruct (String.eqb k "q").
      * assert (E : w' = w) by (unfold ret in H; now injection H). subst w'.
        revert HI. apply in_frame_weaken.
        intros F HF. exists (0, 0)%Z. split; [reflexivity|].
        cbn [fst snd]. now rewrite !Z.add_0_r.
      * exact (IH _ _ _ _ _ HI H).
Qed.

End Loop.

(** The run of [move] from the world after its six lines of help. *)
Lemma move_run self pending w w' :
  move self pending w = (Ok tt, w') ->
  exists out,
    (open_undo_block ;;
     old_frame <- _get_current_object_name "Frame" ;;
     set_current_frame (frm self) ;;
     move_loop pending ;;
     set_current_frame old_frame ;;
     close_undo_block) (mkWorld (windows w) (undo_open w) out (move_ok w)) = (Ok tt, w').
Proof.
  intros H. unfold move in H.
  do 6 (match type of H with
        | bind (print ?s) ?k ?w0 = _ =>
            rewrite (bind_ok _ _ _ _ _ (eq_refl : print s w0 = _)) in H
        end).
  eexists. exact H.
Qed.

(** Repositioning changes the position of the legend's frame and
    nothing else among the host's objects: when it returns, the windows
    are the ones it was called with except that the legend's frame, in
    the focused window, has a new displacement; no undo block is left
    open.  The keys held a [q], and if the host accepts every move the
    new displacement is the old one plus the sum of the offsets of the
    movement keys pressed before it. *)
Theorem reposition_moves_only_the_legend (self : instance) (pending : list pick)
        (w w' : world) :
  wf_world w = true -> has_focus w = true ->
  move self pending w = (Ok tt, w') ->
  exists W FL s d,
    cur_window w = Some W
    /\ c_get (frm self) (win_frames W) = Some FL
    /\ windows w'
       = c_put_cur (mkWindow (c_put (frm self) (with_shift s FL) (win_frames W)))
                   (windows w)
    /\ undo_open w' = undo_open w
    /\ move_ok w' = move_ok w
    /\ net_offset pending = Some d
    /\ ((forall p, move_ok w p = true) ->
        s = (fst (frm_shift FL) + fst d, snd (frm_shift FL) + snd d)%Z).
Proof.
  intros Hwf Hfoc Hrun.
  destruct (focus_of_world w Hfoc) as (wid & W & old & Fold & Hc & HW & Hco & Hold & HcW).
  destruct (move_run _ _ _ _ Hrun) as (out & Hrun6).
  set (w6 := mkWorld (windows w) (undo_open w) out (move_ok w)) in *.
  assert (Hundo : undo_open w' = undo_open w).
  { pose proof (opened_then_closed
                  (old <- _get_current_object_name "Frame" ;;
                   set_current_frame (frm self) ;;
                   move_loop pending ;;
                   set_current_frame old ;; close_undo_block) w6) as Hc'.
    rewrite Hrun6 in Hc'. apply Hc'.
    apply closes_bind; [apply keeps_current|]. intros o.
    apply closes_bind; [apply keeps_on_window, undo_windows|]. intros _.
    apply closes_bind; [apply keeps_move_loop; [apply undo_windows | apply undo_print]|].
    intros _.
    apply closes_bind; [apply keeps_on_window, undo_windows|]. intros _.
    apply closes_close_undo_block. }
  destruct (in_frame_operation w6 W wid old Fold Hwf Hc HW Hco Hold (frm self)
              (move_loop pending)
              (fun FL F => exists d, net_offset pending = Some d
                                     /\ moved w6 FL (fst d) (snd d) F) w')
    as (FL & FL' & HFL & (d & Hd & s & -> & Hs) & Hw' & Hm'); [|exact Hrun6|].
  { intros FL HFL.
    eapply triple_conseq with (P := in_frame w6 W (frm self) (moved w6 FL 0 0));
      [| apply (in_frame_move_loop w6 W (frm self) FL HcW HFL pending 0 0)
       | intros a w1 H; exact H].
    intros w1. apply in_frame_weaken. intros F ->. exists (frm_shift FL).
    split; [now destruct FL|]. intros _. destruct (frm_shift FL). cbn. f_equal; lia. }
  exists W, FL, s, d. repeat split; try assumption.
Qed.

Lemma reposition_moves_only_the_legend_witness :
  exists W FL s d,
    cur_window free_legend_world = Some W
    /\ c_get (frm sample_legend) (win_frames W) = Some FL
    /\ windows (snd (move sample_legend
                          [key_press "w"; key_press "D"; key_press "x"; key_press "s";
                           key_press "q"] free_legend_world))
       = c_put_cur (mkWindow (c_put (frm sample_legend) (with_shift s FL) (win_frames W)))
                   (windows free_legend_world)
    /\ undo_open (snd (move sample_legend
                            [key_press "w"; key_press "D"; key_press "x"; key_press "s";
                             key_press "q"] free_legend_world))
       = undo_open free_legend_world
    /\ move_ok (snd (move sample_legend
                          [key_press "w"; key_press "D"; key_press "x"; key_press "s";
                           key_press "q"] free_legend_world))
       = move_ok free_legend_world
    /\ net_offset [key_press "w"; key_press "D"; key_press "x"; key_press "s";
                   key_press "q"] = Some d
    /\ ((forall p, move_ok free_legend_world p = true) ->
        s = (fst (frm_shift FL) + fst d, snd (frm_shift FL) + snd d)%Z).
Proof.
  apply (reposition_moves_only_the_legend sample_legend
           [key_press "w"; key_press "D"; key_press "x"; key_press "s"; key_press "q"]
           free_legend_world);
    vm_compute; reflexivity.
Defined.

End Reposition.

Section ResyncPlaces.

Import Legend.
Local Open Scope py_scope.

Variables (self : instance) (P0 : plot).
Hypothesis Hlf : frm self <> orig_frm self.

(** One entry of [update], for a property of the legend's plot that
    restyling a curve or a point keeps. *)
Lemma state_update_entry_keeps (R : plot -> Prop) e :
  (forall P id c a, R P -> c_get id (plt_curves P) = Some c ->
     R (with_curves (c_put id (mkHCurve (crv_x c) (crv_y c) a) (plt_curves P)) P)) ->
  (forall P id p a, R P -> c_get id (plt_points P) = Some p ->
     R (with_points (c_put id (mkHPoint (pnt_x p) (pnt_y p) a) (plt_points P)) P)) ->
  triple (window_has (orig_win self) (legend_state self P0 R))
         (_update_entry self e tt)
         (fun _ => window_has (orig_win self) (legend_state self P0 R)).
Proof.
  intros Hc Hp. destruct e as [[usr lgn] lpt]. cbn [_update_entry].
  eapply triple_bind; [apply triple_set_current_window|]. intros u1.
  eapply triple_bind; [apply triple_set_current_frame|]. intros u2.
  eapply triple_bind; [apply (state_set_current_plot self P0 Hlf)|].
  intros u3. eapply triple_bind; [apply triple_get_curve|]. intros cc. cbn beta.
  eapply triple_bind.
  { eapply triple_conseq; [| apply triple_set_current_frame |]; [intros w H; exact H|].
    intros a w. apply in_window_weaken with
      (Q' := fun W => legend_state self P0 R W /\ cur (win_frames W) = Some (frm self)).
    intros W' (W & [[HS _] _] & Hne & ->). split; [exact HS | reflexivity]. }
  intros u4. eapply triple_bind.
  { apply (state_on_plot self P0 Hlf R R). intros P a P' HR Hf.
    destruct (c_get lgn (plt_curves P)) as [c|] eqn:E; [|discriminate].
    cbn [apply_curve_arg] in Hf. injection Hf as _ <-. now apply Hc. }
  intros u5. eapply triple_bind.
  { apply (state_on_plot self P0 Hlf R R). intros P a P' HR Hf.
    destruct (c_get lgn (plt_curves P)) as [c|] eqn:E; [|discriminate].
    destruct (apply_curve_arg _ (crv_attr c)) as [e|c']; [discriminate|].
    injection Hf as _ <-. now apply Hc. }
  intros u6. eapply triple_conseq; [intros w H; exact H | |].
  { apply (state_on_plot self P0 Hlf R R). intros P a P' HR Hf.
    destruct (c_get lpt (plt_points P)) as [p|] eqn:E; [|discriminate].
    injection Hf as _ <-. now apply Hp. }
  intros a w [_ (W & HW & HS & _)]. exists W. auto.
Qed.

End ResyncPlaces.

Section ResyncPlacesClaim.

Import Legend.
Local Open Scope py_scope.

(** Resynchronising changes styles only: when it returns, the legend's
    plot has the overlay curves and points it had, under the same
    identifiers, in the same order and at the same coordinates, and the
    attributes, axes, labels and region it had. *)
Theorem resync_keeps_places (self : instance) (w w' : world) (P0 PL0 : plot) :
  String.eqb (frm self) (orig_frm self) = false ->
  source_plot self w = Some P0 -> legend_plot self w = Some PL0 ->
  update self w = (Ok tt, w') ->
  exists PL, legend_plot self w' = Some PL /\ same_but_styles PL0 PL.
Proof.
  intros Hlf Hsrc Hleg Hrun. apply String.eqb_neq in Hlf.
  assert (T : triple (window_has (orig_win self)
                        (legend_state self P0 (same_but_styles PL0)))
                     (update self)
                     (fun _ => window_has (orig_win self)
                                 (legend_state self P0 (same_but_styles PL0)))).
  { unfold update.
    eapply triple_bind; [apply triple_open_undo_block, on_windows_window_has|]. intros u.
    eapply triple_bind; [apply triple_reads_only, reads_only_current|]. intros r.
    eapply triple_bind.
    { apply triple_for_each. intros e _.
      apply (state_update_entry_keeps self P0 Hlf).
      - intros P id c a (H1 & H2 & H3 & H4 & H5 & H6) Hg.
        repeat split; try assumption.
        rewrite <- H3. unfold curve_places. cbn [plt_curves with_curves].
        now apply (c_map_put _ _ id c).
      - intros P id p a (H1 & H2 & H3 & H4 & H5 & H6) Hg.
        repeat split; try assumption.
        rewrite <- H4. unfold point_places. cbn [plt_points with_points].
        now apply (c_map_put _ _ id p). }
    intros u2. eapply triple_bind; [apply state_set_current_frame|]. intros u3.
    apply triple_close_undo_block, on_windows_window_has. }
  assert (Hinit : window_has (orig_win self)
                    (legend_state self P0 (same_but_styles PL0)) w).
  { unfold source_plot, legend_plot, find_frame in Hsrc, Hleg.
    destruct (c_get (orig_win self) (windows w)) as [W|] eqn:HW; [|discriminate].
    destruct (c_get (orig_frm self) (win_frames W)) as [F0|] eqn:HF0; [|discriminate].
    destruct (c_get (frm self) (win_frames W)) as [FL|] eqn:HFL; [|discriminate].
    exists W. split; [exact HW|]. split; [eauto|].
    exists FL, PL0. repeat split; auto. }
  destruct (T w tt w' Hinit Hrun) as (W & HW & [_ (FL & PL & HFL & HPL & HR)]).
  exists PL. unfold legend_plot, find_frame. rewrite HW, HFL. auto.
Qed.

Lemma resync_keeps_places_witness :
  exists PL,
    legend_plot sample_legend resynced_sample = Some PL
    /\ same_but_styles
         (match legend_plot sample_legend legend_sample_world with
          | Some P => P
          | None => sample_plot
          end) PL.
Proof.
  apply (resync_keeps_places sample_legend legend_sample_world resynced_sample sample_plot);
    vm_compute; reflexivity.
Defined.

End ResyncPlacesClaim.

(** ** The lookups against the host's state *)

Section LookupsOnWorlds.

Import Legend.
Local Open Scope py_scope.

(** The lookups read the host's state back: in a host whose identifiers
    hold no bracket and no line break and in which a plot has the focus,
    the lookup of all objects returns the identifiers of all windows, of
    all frames, of all plots and of all curves of the host, each in the
    host's order, the lookup of the current object returns the focused
    window, frame and plot, and no lookup changes the host. *)
Theorem lookups_read_host_state (w : world) :
  wf_world w = true -> has_focus w = true ->
  _get_all_object_name "Window" w = (Ok (ids (all_windows w)), w)
  /\ _get_all_object_name "Frame" w = (Ok (ids (all_frames w)), w)
  /\ _get_all_object_name "Plot" w = (Ok (ids (all_plots w)), w)
  /\ _get_all_object_name "Curve" w = (Ok (ids (all_curves w)), w)
  /\ exists wid fid pid,
       focused_window w = Some wid /\ focused_frame w = Some fid
       /\ focused_plot w = Some pid
       /\ _get_current_object_name "Window" w = (Ok wid, w)
       /\ _get_current_object_name "Frame" w = (Ok fid, w)
       /\ _get_current_object_name "Plot" w = (Ok pid, w).
Proof.
  intros Hwf Hfoc.
  destruct (focus_of_world w Hfoc) as (wid & W & fid & F & Hc & HW & Hco & HF & HcW).
  assert (Hne : all_windows w <> []).
  { unfold all_windows. intros E. unfold c_get in HW. now rewrite E in HW. }
  split; [now apply lookup_all_window|]. split; [now apply lookup_all_frame|].
  split; [now apply lookup_all_plot|]. split; [now apply lookup_all_curve|].
  destruct (c_cur_of_id _ _ _ Hc HW) as [_ Hfw].
  destruct (c_cur_of_id _ _ _ Hco HF) as [HcF HfF].
  pose proof (has_focus_cur_plot _ Hfoc) as Hp. unfold cur_plot in Hp.
  rewrite HcW in Hp. unfold win_cur_plot in Hp.
  change (c_cur (win_frames W)) with (win_cur_frame W) in HcF. rewrite HcF in Hp.
  destruct (c_cur (frm_plots F)) as [P|] eqn:HP; [|congruence].
  destruct (c_cur_Some _ _ HP) as (pid & _ & _ & Hpid).
  exists wid, fid, pid.
  split; [exact Hfw|].
  split; [unfold focused_frame; now rewrite HcW|].
  split; [unfold focused_plot, cur_frame; now rewrite HcW, HcF|].
  split; [now apply (lookup_current_window w wid W)|].
  split; [now apply (lookup_current_frame w wid W fid F)|].
  now apply (lookup_current_plot w wid W fid F pid P).
Qed.

Lemma lookups_read_host_state_witness :
  _get_all_object_name "Window" legend_sample_world
  = (Ok (ids (all_windows legend_sample_world)), legend_sample_world)
  /\ _get_all_object_name "Frame" legend_sample_world
     = (Ok (ids (all_frames legend_sample_world)), legend_sample_world)
  /\ _get_all_object_name "Plot" legend_sample_world
     = (Ok (ids (all_plots legend_sample_world)), legend_sample_world)
  /\ _get_all_object_name "Curve" legend_sample_world
     = (Ok (ids (all_curves legend_sample_world)), legend_sample_world)
  /\ exists wid fid pid,
       focused_window legend_sample_world = Some wid
       /\ focused_frame legend_sample_world = Some fid
       /\ focused_plot legend_sample_world = Some pid
       /\ _get_current_object_name "Window" legend_sample_world
          = (Ok wid, legend_sample_world)
       /\ _get_current_object_name "Frame" legend_sample_world
          = (Ok fid, legend_sample_world)
       /\ _get_current_object_name "Plot" legend_sample_world
          = (Ok pid, legend_sample_world).
Proof. apply lookups_read_host_state; vm_compute; reflexivity. Defined.

End LookupsOnWorlds.

(** ** The entries in the drawing area *)

Section Entries.

Import Legend.
Local Open Scope py_scope.

Lemma in_enumerate {A} (l : list A) e : In e (enumerate l) -> fst e < List.length l.
Proof.
  unfold enumerate. destruct e as [i a]. intros H. apply in_combine_l in H.
  apply in_seq in H. cbn. lia.
Qed.

Lemma slot_bounds reverse N i :
  i < N -> (0 <= slot reverse N i <= Z.of_nat N - 1)%Z.
Proof. intros H. rewrite slot_value. destruct reverse; lia. Qed.

Lemma slot_injective reverse N i j :
  i < N -> j < N -> slot reverse N i = slot reverse N j -> i = j.
Proof. intros Hi Hj. rewrite !slot_value. destruct reverse; lia. Qed.

Lemma nth_error_combine_inv {A B} (l : list A) (r : list B) i a b :
  nth_error (combine l r) i = Some (a, b) ->
  nth_error l i = Some a /\ nth_error r i = Some b.
Proof.
  revert r i. induction l as [|x l IH]; intros [|y r] [|i]; simpl; try discriminate.
  - now intros [= -> ->].
  - apply IH.
Qed.

Lemma nth_error_enumerate_inv {A} (l : list A) i e :
  nth_error (enumerate l) i = Some e -> fst e = i /\ i < List.length l.
Proof.
  unfold enumerate. destruct e as [k a]. intros H.
  apply nth_error_combine_inv in H as [H _].
  assert (Hi : i < List.length (seq 0 (List.length l))).
  { apply nth_error_Some. congruence. }
  rewrite length_seq in Hi.
  rewrite nth_error_nth' with (d := 0) in H by (now rewrite length_seq).
  rewrite seq_nth in H by assumption. injection H as <-. cbn. lia.
Qed.

(** Where the constructor draws: every overlay curve runs from 0.25 to
    1 horizontally, every overlay point sits at 0.625, the middle of the
    curve, and every label starts at 1.25, right of it; the three objects
    of an entry share one height, which is a whole number between 0 and
    [N-1], and no two entries share a height.  All these coordinates
    lie strictly between 0 and 3 horizontally and between -1 and [N]
    vertically, the ranges [_make_drawing_area] gives the two axes. *)
Theorem entries_inside_drawing_area (reverse : bool) (w : world) :
  wf_world w = true ->
  List.length (all_windows w) = 1 -> List.length (all_frames w) = 1 ->
  List.length (all_plots w) = 1 -> 1 <= List.length (all_curves w) ->
  has_focus w = true ->
  let N := List.length (all_curves w) in
  exists self w' PL,
    __init__ reverse w = (Ok self, w')
    /\ legend_plot self w' = Some PL
    /\ (forall i idc c idp p idl l,
          nth_error (items (plt_curves PL)) i = Some (idc, c) ->
          nth_error (items (plt_points PL)) i = Some (idp, p) ->
          nth_error (items (plt_labels PL)) i = Some (idl, l) ->
          exists z,
            (0 <= z <= Z.of_nat N - 1)%Z
            /\ crv_x c = [0.25; 1]%Q /\ crv_y c = [inject_Z z; inject_Z z]
            /\ pnt_x p = 0.625%Q /\ pnt_y p = inject_Z z
            /\ lbl_x l = 1.25%Q /\ lbl_y l = inject_Z z)
    /\ (forall i j ci cj,
          nth_error (items (plt_curves PL)) i = Some ci ->
          nth_error (items (plt_curves PL)) j = Some cj ->
          crv_y (snd ci) = crv_y (snd cj) -> i = j).
Proof.
  intros Hwf Hw Hf Hp Hc Hfoc N.
  destruct (init_facts reverse w Hwf Hw Hf Hp (curves_nonempty _ Hc)
              (has_focus_cur_plot _ Hfoc))
    as (self & w' & P0 & PL & Hrun & _ & _ & _ & _ & _ & _ & _ & _ & _
        & _ & _ & _ & _ & _ & _ & _ & HPL & _ & Hcs & Hps & Hls & Hlg & _).
  fold N in Hcs, Hps, Hls, Hlg.
  assert (Hat : forall {A} (f : nat * ChipsCurve -> A) (names : list string) i id a,
             nth_error (combine names (map f (enumerate (lgnd self)))) i = Some (id, a) ->
             exists e, nth_error (enumerate (lgnd self)) i = Some e /\ a = f e).
  { intros A f names i id a H. apply nth_error_combine_inv in H as [_ H].
    rewrite nth_error_map in H.
    destruct (nth_error (enumerate (lgnd self)) i) as [e|]; [|discriminate].
    injection H as <-. eauto. }
  exists self, w', PL. split; [exact Hrun|]. split; [exact HPL|]. split.
  - intros i idc c idp p idl l Hc' Hp' Hl'. rewrite Hcs in Hc'. rewrite Hps in Hp'.
    rewrite Hls in Hl'.
    destruct (Hat _ _ _ _ _ _ Hc') as (e & He & ->).
    destruct (Hat _ _ _ _ _ _ Hp') as (e' & He' & ->).
    destruct (Hat _ _ _ _ _ _ Hl') as (e'' & He'' & ->).
    assert (e' = e) by congruence. assert (e'' = e) by congruence. subst e' e''.
    destruct (nth_error_enumerate_inv _ _ _ He) as [Ei Hi]. rewrite Hlg in Hi.
    exists (slot reverse N (fst e)). split; [rewrite Ei; now apply slot_bounds|].
    repeat split; reflexivity.
  - intros i j [idi ci] [idj cj] Hi Hj E. rewrite Hcs in Hi, Hj. cbn [snd] in E.
    destruct (Hat _ _ _ _ _ _ Hi) as (ei & Hei & ->).
    destruct (Hat _ _ _ _ _ _ Hj) as (ej & Hej & ->).
    destruct (nth_error_enumerate_inv _ _ _ Hei) as [Ei Li].
    destruct (nth_error_enumerate_inv _ _ _ Hej) as [Ej Lj].
    rewrite Hlg in Li, Lj. cbn [overlay_curve crv_y] in E.
    injection E as E _. rewrite Ei, Ej in E.
    now apply (slot_injective reverse N).
Qed.

Lemma entries_inside_drawing_area_witness :
  exists self w' PL,
    __init__ false sample_world = (Ok self, w')
    /\ legend_plot self w' = Some PL
    /\ (forall i idc c idp p idl l,
          nth_error (items (plt_curves PL)) i = Some (idc, c) ->
          nth_error (items (plt_points PL)) i = Some (idp, p) ->
          nth_error (items (plt_labels PL)) i = Some (idl, l) ->
          exists z,
            (0 <= z <= Z.of_nat (List.length (all_curves sample_world)) - 1)%Z
            /\ crv_x c = [0.25; 1]%Q /\ crv_y c = [inject_Z z; inject_Z z]
            /\ pnt_x p = 0.625%Q /\ pnt_y p = inject_Z z
            /\ lbl_x l = 1.25%Q /\ lbl_y l = inject_Z z)
    /\ (forall i j ci cj,
          nth_error (items (plt_curves PL)) i = Some ci ->
          nth_error (items (plt_curves PL)) j = Some cj ->
          crv_y (snd ci) = crv_y (snd cj) -> i = j).
Proof.
  apply (entries_inside_drawing_area false sample_world);
    first [vm_compute; reflexivity | simpl; lia].
Defined.

End Entries.

(** ** Construction followed by relabelling *)

Section ConstructRelabel.

Import Legend.
Local Open Scope py_scope.

(** The legend can be relabelled as soon as it is built: after a
    successful construction over [N] curves, relabelling with [N]
    strings returns and the label recorded at position [i] reads the
    [i]-th string. *)
Theorem construct_then_relabel (reverse : bool) (w : world) (vals : list string) :
  wf_world w = true ->
  List.length (all_windows w) = 1 -> List.length (all_frames w) = 1 ->
  List.length (all_plots w) = 1 -> 1 <= List.length (all_curves w) ->
  has_focus w = true ->
  List.length vals = List.length (all_curves w) ->
  exists self w' w'',
    __init__ reverse w = (Ok self, w')
    /\ label self vals w' = (Ok tt, w'')
    /\ forall i v, nth_error vals i = Some v ->
         option_map lbl_text (label_at self w'' i) = Some v.
Proof.
  intros Hwf Hw Hf Hp Hc Hfoc Hlen.
  destruct (init_facts reverse w Hwf Hw Hf Hp (curves_nonempty _ Hc)
              (has_focus_cur_plot _ Hfoc))
    as (self & w' & P0 & PL & Hrun & Hwf' & _ & _ & _ & _ & _ & _ & _ & _
        & _ & _ & _ & _ & _ & Hnd & _ & HPL & _ & _ & _ & Hls & Hlg & _ & _ & Ll & _
        & Fw & Ff & _).
  destruct (focus_frames _ _ _ Fw Ff) as (W & Fold & Hcw & HW & HcW & Hco & Hold).
  destruct (legend_plot_inv _ _ _ _ HW HPL) as (FL & HFL & HcPL).
  assert (Hlen' : List.length vals = List.length (lgnd_lbls self)) by congruence.
  assert (Hall : forall id, In id (lgnd_lbls self) -> c_get id (plt_labels PL) <> None).
  { intros id Hin E. apply assoc_None in E. apply E.
    rewrite Hls, ids_combine; [exact Hin|].
    now rewrite length_map, enumerate_length, Ll, Hlg. }
  exists self, w'. eexists. split; [exact Hrun|]. split.
  { apply (label_run self vals w' (orig_win self) W (orig_frm self) Fold FL PL);
      assumption. }
  intros i v Hv.
  destruct (nth_error_same_length (lgnd_lbls self) vals i v (eq_sym Hlen') Hv) as [id Hid].
  destruct (set_texts_get (combine (lgnd_lbls self) vals) (plt_labels PL) id v)
    as (l0 & H0 & H1).
  - now rewrite map_fst_combine by congruence.
  - eapply nth_error_combine_both; eassumption.
  - intros [j x] Hp'. apply Hall. now apply in_combine_l in Hp'.
  - unfold label_at. rewrite Hid. unfold legend_plot.
    rewrite (find_frame_put _ (orig_win self) W) by assumption.
    cbn [win_frames]. unfold c_get. cbn [items].
    rewrite assoc_replace_same by (unfold c_get in HFL; congruence).
    unfold frm_put_plot, with_plots. cbn [frm_plots].
    rewrite (c_cur_put_cur _ _ _ HcPL). cbn [plt_labels with_labels].
    fold (c_get id (set_texts (combine (lgnd_lbls self) vals) (plt_labels PL))).
    now rewrite H1.
Qed.

Lemma construct_then_relabel_witness :
  exists self w' w'',
    __init__ false sample_world = (Ok self, w')
    /\ label self ["Below"; "Above"] w' = (Ok tt, w'')
    /\ forall i v, nth_error ["Below"; "Above"] i = Some v ->
         option_map lbl_text (label_at self w'' i) = Some v.
Proof.
  apply (construct_then_relabel false sample_world ["Below"; "Above"]);
    first [vm_compute; reflexivity | simpl; lia].
Defined.

End ConstructRelabel.
